(** * Hierarchical classifier: a shallow embedding of
      [sklearn_hierarchical_classification/classifier.py]

    The class [HierarchicalClassifier] is embedded as a record (the object's
    attributes) and its methods as functions in a small state-and-exception
    monad.  The collaborators the module imports (numpy, networkx, scikit-learn
    and the sibling modules [array], [graph], [validation]) are kept in
    modules of their own, named after the Python packages. *)

From Stdlib Require Import ZArith List String PrimFloat Bool Lia.
From stdpp Require Import base gmap strings list.

Set Warnings "-inexact-float,-clear-no-such-hyp".
Local Open Scope string_scope.
Local Open Scope list_scope.
Local Open Scope Z_scope.

(** ** Python values *)

(** A class identifier: the docstring allows "integer, string". *)
Inductive node : Type :=
  | NInt (z : Z)
  | NStr (s : string).

#[global] Instance node_eq_dec : EqDecision node.
Proof. solve_decision. Defined.

#[global] Instance node_countable : Countable node.
Proof.
  refine (inj_countable'
            (fun n => match n with NInt z => inl z | NStr s => inr s end)
            (fun x => match x with inl z => NInt z | inr s => NStr s end) _).
  intros []; reflexivity.
Defined.

(** The target array [y] handed to [fit]: a one-dimensional integer or
    unicode array, or (multi-label) a two-dimensional indicator matrix. *)
Inductive labels : Type :=
  | YInt (l : list Z)
  | YStr (l : list string)
  | YInd (m : list (list Z)).

(** One entry [y[idx]] of such an array. *)
Inductive label : Type :=
  | LNode (n : node)
  | LRow (r : list Z).

#[global] Instance label_eq_dec : EqDecision label.
Proof. solve_decision. Defined.

(** The rolled-up targets [y_] a local classifier is trained on. *)
Inductive targets : Type :=
  | T1 (l : list node)
  | T2 (m : list (list Z)).

Definition matrix : Type := list (list float).

(** Training data [X]: a (sparse) float64 feature matrix in "preprocessed"
    mode, a list of raw examples (text snippets) in "raw" mode. *)
Inductive features : Type :=
  | FCsr (m : matrix)
  | FRaw (l : list string).

(** One example handed to the prediction walk. *)
Inductive example : Type :=
  | ERow (r : list float)
  | ERaw (s : string).

(** What a classifier's scoring method is called with: [x] or [[x]]. *)
Inductive clf_arg : Type :=
  | Single (x : example)
  | Batch (xs : list example).

(** A numpy float array of one or two dimensions. *)
Inductive ndarray : Type :=
  | Arr1 (l : list float)
  | Arr2 (m : matrix).

(** The value bound to [score] in the walk: a float, or a whole row when a
    two-dimensional array is indexed with one index. *)
Inductive pyscore : Type :=
  | SFloat (f : float)
  | SArr (l : list float).

Inductive exn : Type :=
  | KeyError
  | ValueError
  | IndexError
  | TypeError
  | AttributeError
  | UnboundLocalError
  | NotFittedError.

(** Python's [l[i]] and [l[i] = v] on a sequence, negative indices counted
    from the end; [None] stands for IndexError. *)
Definition py_index {A} (l : list A) (i : Z) : option nat :=
  let n := Z.of_nat (length l) in
  if (0 <=? i) && (i <? n) then Some (Z.to_nat i)
  else if (i <? 0) && (- n <=? i) then Some (Z.to_nat (n + i))
  else None.

Definition py_getitem {A} (l : list A) (i : Z) : option A :=
  match py_index l i with
  | Some k => l !! k
  | None => None
  end.

Definition py_setitem {A} (l : list A) (i : Z) (v : A) : option (list A) :=
  match py_index l i with
  | Some k => Some (<[k := v]> l)
  | None => None
  end.

(** [list.index]: position of the first occurrence. *)
Fixpoint list_index (l : list node) (x : node) : option nat :=
  match l with
  | [] => None
  | y :: l' => if decide (x = y) then Some O
               else option_map S (list_index l' x)
  end.

(** ** numpy *)
Module np.

Definition is_nonzero (f : float) : bool := negb (PrimFloat.eqb f 0%float).

(** Order on class identifiers used by [np.unique]: integers by value,
    strings by code point; the arrays sorted here are homogeneous. *)
Definition node_ltb (a b : node) : bool :=
  match a, b with
  | NInt x, NInt y => (x <? y)%Z
  | NStr x, NStr y => String.ltb x y
  | NInt _, NStr _ => true
  | NStr _, NInt _ => false
  end.

Fixpoint insert_sorted (x : node) (l : list node) : list node :=
  match l with
  | [] => [x]
  | y :: l' =>
      if decide (x = y) then l
      else if node_ltb x y then x :: l
      else y :: insert_sorted x l'
  end.

(** [np.unique]: the sorted distinct values. *)
Definition unique (l : list node) : list node :=
  fold_right insert_sorted [] l.

Definition unique_targets (t : targets) : list node :=
  match t with
  | T1 l => unique l
  | T2 m => unique (map NInt (concat m))
  end.

Definition unique_labels (l : list label) : nat :=
  length (remove_dups l).

(** [np.argmax] on the flattened array: the first maximum, a NaN counting
    as maximal; [None] (ValueError) on an empty array. *)
Fixpoint argmax_from (best : float) (besti i : nat) (l : list float) : nat :=
  match l with
  | [] => besti
  | x :: l' =>
      if PrimFloat.leb x best then argmax_from best besti (S i) l'
      else if PrimFloat.eqb best best then argmax_from x i (S i) l'
      else besti
  end.

Definition argmax_flat (l : list float) : option nat :=
  match l with
  | [] => None
  | x :: l' => Some (argmax_from x O 1%nat l')
  end.

Definition argmax (a : ndarray) : option nat :=
  match a with
  | Arr1 l => argmax_flat l
  | Arr2 m => argmax_flat (concat m)
  end.

(** [np.zeros_like(classes_, dtype=np.float64)]. *)
Definition zeros_like {A} (l : list A) : list float :=
  map (fun _ => 0%float) l.

Fixpoint flatnonzero_from (i : nat) (l : list bool) : list nat :=
  match l with
  | [] => []
  | b :: l' => if b then i :: flatnonzero_from (S i) l'
               else flatnonzero_from (S i) l'
  end.

Definition flatnonzero (l : list bool) : list nat := flatnonzero_from O l.

(** [np.flatnonzero(y == node_id)]: the comparison is elementwise when the
    identifier has the array's dtype, and a scalar [False] otherwise. *)
Definition flatnonzero_eq (y : labels) (node_id : node) : list nat :=
  match y, node_id with
  | YInt l, NInt z => flatnonzero (map (Z.eqb z) l)
  | YStr l, NStr s => flatnonzero (map (String.eqb s) l)
  | YInd m, NInt z => flatnonzero (map (Z.eqb z) (concat m))
  | _, _ => []
  end.

(** [np.issubdtype(type(node_id), y.dtype)]. *)
Definition issubdtype (node_id : node) (y : labels) : bool :=
  match node_id, y with
  | NInt _, YInt _ | NInt _, YInd _ => true
  | NStr _, YStr _ => true
  | _, _ => false
  end.

Definition len (y : labels) : nat :=
  match y with
  | YInt l => length l
  | YStr l => length l
  | YInd m => length m
  end.

(** [y[idx]]. *)
Definition getitem (y : labels) (idx : nat) : option label :=
  match y with
  | YInt l => (fun z => LNode (NInt z)) <$> l !! idx
  | YStr l => (fun s => LNode (NStr s)) <$> l !! idx
  | YInd m => LRow <$> m !! idx
  end.

(** [a + b] on vectors of one length (the walk only adds vectors that are
    [zeros_like(classes_)]-shaped). *)
Fixpoint add (a b : list float) : list float :=
  match a, b with
  | x :: a', y :: b' => (x + y)%float :: add a' b'
  | _, _ => []
  end.

End np.

(** ** scikit-learn: the classifier collaborator *)
Module sklearn.

(** The attributes and methods of a fitted classifier that the walk uses:
    [classes_], [predict_proba(x)] (an array of shape (n_samples,
    n_classes)) and, when the class exposes it, [decision_function]. *)
Record classifier : Type := {
  classes_ : list node;
  predict_proba : example -> matrix;
  decision_function : option (clf_arg -> ndarray);
}.

(** An unfitted estimator: its parameters determine what [fit] returns. *)
Record estimator : Type := {
  fit : features -> targets -> exn + classifier;
}.

(** [clone(e)]: a fresh estimator with the same parameters. *)
Definition clone (e : estimator) : estimator := e.

(** A classifier object as the code stores it: created unfitted, its
    fitted attributes set by [clf.fit]. *)
Record clf_obj : Type := {
  params : estimator;
  fitted : option classifier;
}.

Definition new (e : estimator) : clf_obj :=
  {| params := e; fitted := None |}.

Definition num_rows (X : features) : nat :=
  match X with
  | FCsr m => length m
  | FRaw l => length l
  end.

Definition num_targets_rows (y : targets) : nat :=
  match y with
  | T1 l => length l
  | T2 m => length m
  end.

(** [_num_samples(x)] of the argument of [predict_proba]: a matrix row is
    one sample, a raw string is as long as it has characters. *)
Definition num_samples (x : example) : nat :=
  match x with
  | ERow _ => 1%nat
  | ERaw s => String.length s
  end.

(** [DummyClassifier(strategy="constant", constant=c)].  Fitting checks
    that X and y have the same number of rows and that the constant occurs
    in y; the fitted object scores the constant 1.0 and every other class
    0.0, for each sample.  A two-dimensional [y] makes the dummy a
    multi-output classifier, which has no [classes_] list of the shape the
    walk reads: it is left out ([TypeError] stands for it). *)
Definition DummyClassifier (constant : label) : estimator :=
  {| fit := fun X y =>
       match y, constant with
       | T1 l, LNode c =>
           if negb (Nat.eqb (num_rows X) (length l)) then inl ValueError
           else if bool_decide (c ∈ np.unique l) then
             inr {| classes_ := np.unique l;
                    predict_proba := fun x =>
                      replicate (num_samples x)
                        (map (fun k => if decide (k = c) then 1%float
                                       else 0%float) (np.unique l));
                    decision_function := None |}
           else inl ValueError
       | T1 _, LRow _ => inl ValueError
       | T2 _, _ => inl TypeError
       end |}.

End sklearn.

(** [sklearn.preprocessing.MultiLabelBinarizer], fitted: column [j] of an
    indicator row stands for [classes_[j]]. *)
Module preprocessing.

Record MultiLabelBinarizer : Type := {
  classes_ : list node;
}.

Definition transform (mlb : MultiLabelBinarizer) (label_sets : list (list node))
  : list (list Z) :=
  map (fun s => map (fun c => if bool_decide (c ∈ s) then 1 else 0)
                    (classes_ mlb))
      label_sets.

Definition inverse_row (mlb : MultiLabelBinarizer) (row : list Z) : list node :=
  omap (fun p => if Z.eqb (snd p) 0 then None else Some (fst p))
       (zip (classes_ mlb) row).

End preprocessing.

(** ** The attribute bag of a graph node *)

Record metafeatures : Type := {
  n_samples : nat;
  n_targets : nat;
}.

(** The three keys the classifier writes into [graph_.nodes[n]]:
    ["X"], [CLASSIFIER] and [METAFEATURES]; [None] is an absent key. *)
Record node_attrs : Type := {
  attr_X : option features;
  attr_CLASSIFIER : option sklearn.clf_obj;
  attr_METAFEATURES : option metafeatures;
}.

Definition no_attrs : node_attrs :=
  {| attr_X := None; attr_CLASSIFIER := None; attr_METAFEATURES := None |}.

Definition set_X (v : features) (a : node_attrs) : node_attrs :=
  {| attr_X := Some v; attr_CLASSIFIER := attr_CLASSIFIER a;
     attr_METAFEATURES := attr_METAFEATURES a |}.

Definition set_CLASSIFIER (c : sklearn.clf_obj) (a : node_attrs) : node_attrs :=
  {| attr_X := attr_X a; attr_CLASSIFIER := Some c;
     attr_METAFEATURES := attr_METAFEATURES a |}.

Definition set_METAFEATURES (m : metafeatures) (a : node_attrs) : node_attrs :=
  {| attr_X := attr_X a; attr_CLASSIFIER := attr_CLASSIFIER a;
     attr_METAFEATURES := Some m |}.

(** ** networkx: the graph collaborator *)
Module nx.

(** A directed graph: the node-attribute dictionary, the successor lists
    (in edge-insertion order) and the order in which nodes were added. *)
Record DiGraph : Type := {
  _node : gmap node node_attrs;
  _succ : gmap node (list node);
  _order : list node;
}.

Definition empty : DiGraph :=
  {| _node := ∅; _succ := ∅; _order := [] |}.

Definition add_node (n : node) (g : DiGraph) : DiGraph :=
  match _node g !! n with
  | Some _ => g
  | None => {| _node := <[n := no_attrs]> (_node g);
               _succ := <[n := []]> (_succ g);
               _order := _order g ++ [n] |}
  end.

Definition add_edge (u v : node) (g : DiGraph) : DiGraph :=
  let g := add_node v (add_node u g) in
  let old := default [] (_succ g !! u) in
  if bool_decide (v ∈ old) then g
  else {| _node := _node g; _succ := <[u := old ++ [v]]> (_succ g);
          _order := _order g |}.

(** [DiGraph(d)] for an adjacency dictionary [d]: the keys become nodes
    first, then the edges are added key by key. *)
Definition from_dict (d : list (node * list node)) : DiGraph :=
  let g := fold_left (fun g kv => add_node (fst kv) g) d empty in
  fold_left (fun g kv => fold_left (fun g v => add_edge (fst kv) v g) (snd kv) g)
            d g.

Definition nodes (g : DiGraph) : list node := _order g.

Definition number_of_edges (g : DiGraph) : nat :=
  foldr (fun n acc => (length (default [] (_succ g !! n)) + acc)%nat)
        O (_order g).

Definition neighbours (g : DiGraph) (u : node) : list node :=
  default [] (_succ g !! u)
  ++ filter (fun v => u ∈ default [] (_succ g !! v)) (_order g).

Fixpoint grow (g : DiGraph) (fuel : nat) (seen : list node) : list node :=
  match fuel with
  | O => seen
  | S fuel' =>
      grow g fuel' (remove_dups (seen ++ concat (map (neighbours g) seen)))
  end.

Definition is_weakly_connected (g : DiGraph) : bool :=
  match _order g with
  | [] => false
  | n :: _ => Nat.eqb (length (grow g (length (_order g)) [n]))
                      (length (_order g))
  end.

(** [is_tree(G)]: weakly connected with one edge less than nodes. *)
Definition is_tree (g : DiGraph) : bool :=
  Nat.eqb (S (number_of_edges g)) (length (_order g))
  && is_weakly_connected g.

End nx.

(** ** The sibling modules [array], [graph] and [validation]

    These modules of the package are imported by [classifier.py]; what is
    used of them here is written after the package's specification and after
    the way [classifier.py] uses their results. *)
Module array.

(** Modelled from the spec: [array.nnz_rows_ix], missing from the sources.
    §4.3 step 3 has the trainer "take the non-empty rows of the node's
    cached feature matrix"; the source comments it "indices of non-zero
    rows in X". *)
Definition nnz_rows_ix (X : matrix) : list nat :=
  np.flatnonzero (map (existsb np.is_nonzero) X).

(** Modelled from the spec: [array.extract_rows_csr], missing from the
    sources.  §4.2: a leaf's cache is "the subset of training rows whose
    label equals the leaf's identifier"; the result is added to
    [csr_matrix(X.shape)] and read back with [nnz_rows_ix], so it has the
    shape of [X] with every other row zeroed out. *)
Definition extract_rows_csr (X : matrix) (indices : list nat) : matrix :=
  imap (fun i row => if bool_decide (i ∈ indices) then row
                     else np.zeros_like row) X.

(** Modelled from the spec: [array.flatten_list], missing from the
    sources; it turns the per-row lists of rolled-up labels into one target
    array (§4.3 step 4). *)
Definition flatten_list {A} (l : list (list A)) : list A := concat l.

(** Modelled from the spec: [array.apply_rollup_Xy] and
    [array.apply_rollup_Xy_raw], missing from the sources.  §4.4: for a DAG
    the resolver emits "one (row, target) pair per qualifying child", and
    the caller flattens the pairs "into aligned feature-row/target arrays
    (duplicating feature rows as needed)". *)
Definition apply_rollup {A} (X : list A) (y : list (list node))
  : list A * list node :=
  let pairs := concat (zip_with (fun row ts => map (pair row) ts) X y) in
  (map fst pairs, map snd pairs).

Definition apply_rollup_Xy (X : matrix) (y : list (list node))
  : matrix * list node := apply_rollup X y.

Definition apply_rollup_Xy_raw (X : list string) (y : list (list node))
  : list string * list node := apply_rollup X y.

End array.

Module graph.

(** Modelled from the spec: [graph.make_flat_hierarchy], missing from the
    sources.  §4.1: "a two-level rooted tree connecting the root to every
    distinct label". *)
Definition make_flat_hierarchy (targets : list node) (root : node)
  : list (node * list node) :=
  [(root, targets)].

(** [t] is [c] or lies below it; the fuel bounds the depth of the search
    by the number of nodes. *)
Fixpoint descends (g : nx.DiGraph) (fuel : nat) (c t : node) : bool :=
  bool_decide (c = t)
  || match fuel with
     | O => false
     | S fuel' =>
         existsb (fun c' => descends g fuel' c' t)
                 (default [] (nx._succ g !! c))
     end.

Definition rollup_node (g : nx.DiGraph) (source t : node) : list node :=
  match default [] (nx._succ g !! source) with
  | [] => [t]
  | children =>
      filter (fun c => Is_true (descends g (length (nx._order g)) c t)) children
  end.

(** Modelled from the spec: [graph.rollup_nodes], missing from the sources.
    §4.4: a row's rolled-up label is "which immediate child subtree the
    row's true leaf label descends from", one entry per qualifying child in
    a DAG; in the multi-label variant a row rolls up "into a set of children
    (one per label it's tagged with)"; §8: "rolling a label set up through a
    leaf node returns the label set unchanged". *)
Definition rollup_nodes (g : nx.DiGraph) (source : node) (targets : list label)
    (mlb : option preprocessing.MultiLabelBinarizer) : list (list node) :=
  map (fun t =>
         match t, mlb with
         | LNode n, _ => rollup_node g source n
         | LRow r, Some m =>
             remove_dups
               (concat (map (rollup_node g source)
                            (preprocessing.inverse_row m r)))
         | LRow _, None => []
         end) targets.

End graph.

(** ** The estimator object *)

(** [base_estimator]: None, a dictionary from nodes to estimators (with an
    optional entry under the DEFAULT key), one estimator, or a factory. *)
Inductive base_estimator_t : Type :=
  | BENone
  | BEDict (d : gmap node sklearn.estimator) (DEFAULT : option sklearn.estimator)
  | BEEstimator (e : sklearn.estimator)
  | BEFactory (f : node -> nx.DiGraph -> sklearn.estimator).

(** [stopping_criteria]: None, a float, or a callback called with the
    current node's attribute bag, the prediction and the score. *)
Inductive stopping_criteria_t : Type :=
  | SCNone
  | SCFloat (t : float)
  | SCCallable (f : node_attrs -> node -> pyscore -> bool).

Record HierarchicalClassifier : Type := {
  estimators_ : gmap node sklearn.clf_obj;
  base_estimator : base_estimator_t;
  class_hierarchy : option (list (node * list node));
  prediction_depth : string;
  algorithm : string;
  training_strategy : option string;
  stopping_criteria : stopping_criteria_t;
  root : node;
  feature_extraction : string;
  mlb : option preprocessing.MultiLabelBinarizer;
  mlb_prediction_threshold : float;
  use_decision_function : bool;
  (* set by [fit] *)
  graph_ : option nx.DiGraph;
  is_tree_ : bool;
  classes_ : list node;
}.

Definition with_estimators_ (e : gmap node sklearn.clf_obj)
    (o : HierarchicalClassifier) : HierarchicalClassifier :=
  {| estimators_ := e; base_estimator := base_estimator o;
     class_hierarchy := class_hierarchy o;
     prediction_depth := prediction_depth o; algorithm := algorithm o;
     training_strategy := training_strategy o;
     stopping_criteria := stopping_criteria o; root := root o;
     feature_extraction := feature_extraction o; mlb := mlb o;
     mlb_prediction_threshold := mlb_prediction_threshold o;
     use_decision_function := use_decision_function o;
     graph_ := graph_ o; is_tree_ := is_tree_ o; classes_ := classes_ o |}.

Definition with_graph_ (g : nx.DiGraph) (tree : bool) (cls : list node)
    (o : HierarchicalClassifier) : HierarchicalClassifier :=
  {| estimators_ := estimators_ o; base_estimator := base_estimator o;
     class_hierarchy := class_hierarchy o;
     prediction_depth := prediction_depth o; algorithm := algorithm o;
     training_strategy := training_strategy o;
     stopping_criteria := stopping_criteria o; root := root o;
     feature_extraction := feature_extraction o; mlb := mlb o;
     mlb_prediction_threshold := mlb_prediction_threshold o;
     use_decision_function := use_decision_function o;
     graph_ := Some g; is_tree_ := tree; classes_ := cls |}.

(** [HierarchicalClassifier(...)]: the constructor's defaults. *)
Definition __init__ (ROOT : node) : HierarchicalClassifier :=
  {| estimators_ := ∅; base_estimator := BENone; class_hierarchy := None;
     prediction_depth := "mlnp"; algorithm := "lcpn";
     training_strategy := None; stopping_criteria := SCNone; root := ROOT;
     feature_extraction := "preprocessed"; mlb := None;
     mlb_prediction_threshold := 0%float; use_decision_function := false;
     graph_ := None; is_tree_ := false; classes_ := [] |}.

Module validation.

(** Modelled from the spec: [validation.validate_parameters], missing from
    the sources.  §7: "Invalid parameter combinations (e.g., a training
    strategy set while algorithm ≠ per-node) fail fast before any fitting
    work begins." *)
Definition validate_parameters (o : HierarchicalClassifier) : option exn :=
  match training_strategy o with
  | Some _ => if String.eqb (algorithm o) "lcn" then None else Some ValueError
  | None => None
  end.

End validation.

(** ** Effects: the object's state, the logger, exceptions *)

(** What [self.logger] is called with. *)
Inductive log_record : Type :=
  | Debug_building_features (node_id : node)
  | Debug_skipping_leaf (node_id : node)
  | Debug_training (node_id : node) (len_y num_targets : nat)
  | Warning_not_enough_data (node_id : node)
  | Debug_single_target (node_id : node) (constant : label)
  | Debug_training_node (node_id : node)
  | Debug_could_not_train (node_id : node)
  | Error_no_class_index (class_ : node) (path : list node)
  | Debug_terminating (score : pyscore) (stopping_criteria : float)
                      (current_node : node).

Record state : Type := {
  self : HierarchicalClassifier;
  logged : list log_record;
}.

(** A call returns a value, raises, or (in this embedding) exhausts the
    fuel that bounds its recursion. *)
Inductive outcome (A : Type) : Type :=
  | Ok (a : A) (s : state)
  | Raise (e : exn) (s : state)
  | OutOfFuel.
Arguments Ok {A} a s.
Arguments Raise {A} e s.
Arguments OutOfFuel {A}.

Definition M (A : Type) : Type := state -> outcome A.

#[global] Instance M_ret : MRet M := fun A a s => Ok a s.
#[global] Instance M_bind : MBind M := fun A B f m s =>
  match m s with
  | Ok a s' => f a s'
  | Raise e s' => Raise e s'
  | OutOfFuel => OutOfFuel
  end.

Definition raise {A} (e : exn) : M A := fun s => Raise e s.
Definition out_of_fuel {A} : M A := fun _ => OutOfFuel.
Definition get_self : M HierarchicalClassifier := fun s => Ok (self s) s.
Definition put_self (o : HierarchicalClassifier) : M unit :=
  fun s => Ok tt {| self := o; logged := logged s |}.
Definition logger (r : log_record) : M unit :=
  fun s => Ok tt {| self := self s; logged := logged s ++ [r] |}.

Definition from_option {A} (e : exn) (o : option A) : M A :=
  match o with
  | Some a => mret a
  | None => raise e
  end.

(** [for x in l: acc = body(acc, x)]. *)
Fixpoint for_each {A B} (l : list B) (body : A -> B -> M A) (acc : A) : M A :=
  match l with
  | [] => mret acc
  | x :: l' => acc' ← body acc x; for_each l' body acc'
  end.

(** [[f(x) for x in l]]. *)
Fixpoint comprehension {A B} (f : A -> M B) (l : list A) : M (list B) :=
  match l with
  | [] => mret []
  | x :: l' => v ← f x; vs ← comprehension f l'; mret (v :: vs)
  end.

(** [self.graph_]: AttributeError before [fit]. *)
Definition get_graph : M nx.DiGraph :=
  o ← get_self; from_option AttributeError (graph_ o).

(** [self.graph_.nodes[n]]: KeyError for an unknown node. *)
Definition nodes_getitem (n : node) : M node_attrs :=
  g ← get_graph; from_option KeyError (nx._node g !! n).

(** [self.graph_.nodes[n][key] = v], as an update of the attribute bag. *)
Definition nodes_update (n : node) (f : node_attrs -> node_attrs) : M unit :=
  a ← nodes_getitem n;
  g ← get_graph;
  o ← get_self;
  put_self (with_graph_
              {| nx._node := <[n := f a]> (nx._node g);
                 nx._succ := nx._succ g; nx._order := nx._order g |}
              (is_tree_ o) (classes_ o) o).

(** [self.graph_.successors(n)] and [self.graph_.out_degree(n)]. *)
Definition successors (n : node) : M (list node) :=
  g ← get_graph; from_option KeyError (nx._succ g !! n).

Definition out_degree (n : node) : M nat :=
  l ← successors n; mret (length l).

(** ** Operations on training data *)

Definition same_shape (a b : matrix) : bool :=
  Nat.eqb (length a) (length b)
  && forallb (fun p => Nat.eqb (length (fst p)) (length (snd p))) (zip a b).

(** [a + b]: list concatenation for raw examples, the elementwise sum for
    sparse matrices of one shape (ValueError otherwise). *)
Definition features_plus (a b : features) : exn + features :=
  match a, b with
  | FRaw l1, FRaw l2 => inr (FRaw (l1 ++ l2))
  | FCsr m1, FCsr m2 =>
      if same_shape m1 m2 then inr (FCsr (zip_with np.add m1 m2))
      else inl ValueError
  | _, _ => inl TypeError
  end.

Definition features_add (a b : features) : M features :=
  match features_plus a b with
  | inr v => mret v
  | inl e => raise e
  end.

(** [csr_matrix(X.shape, dtype=X.dtype)]: the all-zero matrix. *)
Definition csr_zeros (X : features) : M features :=
  match X with
  | FCsr m => mret (FCsr (map np.zeros_like m))
  | FRaw _ => raise AttributeError
  end.

(** [y[ix]] for a list of indices, IndexError out of range. *)
Definition take_labels (y : labels) (ix : list nat) : M (list label) :=
  comprehension (fun i => from_option IndexError (np.getitem y i)) ix.

(** [X[ix, :]] and [[X[i] for i in ix]]. *)
Definition take_rows {A} (X : list A) (ix : list nat) : M (list A) :=
  comprehension (fun i => from_option IndexError (X !! i)) ix.

Definition label_values (l : list label) : list node :=
  concat (map (fun t => match t with
                        | LNode n => [n]
                        | LRow r => map NInt r
                        end) l).

(** ** The methods of [HierarchicalClassifier] *)

Definition _select_features (X : features) (y : list label) : features := X.

Definition _build_features (X : features) (y : labels) (indices : list nat)
  : M features :=
  o ← get_self;
  X_ ← (if String.eqb (feature_extraction o) "raw" then
          match X with
          | FRaw l => l' ← take_rows l indices; mret (FRaw l')
          | FCsr _ => raise TypeError
          end
        else
          match X with
          | FCsr m => mret (FCsr (array.extract_rows_csr m indices))
          | FRaw _ => raise TypeError
          end);
  y_ ← take_labels y indices;
  mret (_select_features X_ y_).

Definition _build_metafeatures (X : features) (y : labels) : M metafeatures :=
  o ← get_self;
  if String.eqb (feature_extraction o) "raw" then
    mret {| n_samples := sklearn.num_rows X;
            n_targets := length (np.unique
                                   (label_values
                                      (omap (np.getitem y) (seq 0 (np.len y))))) |}
  else
    match X with
    | FCsr m =>
        let ix := array.nnz_rows_ix m in
        y_ix ← take_labels y ix;
        mret {| n_samples := length ix;
                n_targets := length (np.unique (label_values y_ix)) |}
    | FRaw _ => raise TypeError
    end.

(** [self.graph_.nodes[node_id]["X"]]: KeyError when the key is absent. *)
Definition nodes_X (node_id : node) : M features :=
  a ← nodes_getitem node_id; from_option KeyError (attr_X a).

(** Lines 374-380, the body of the loop over the successors:
    [self.graph_.nodes[node_id]["X"] += <features of the child>].  The
    attribute is read before the child is built and assigned after. *)
Definition accumulate_child (build : node -> M features)
    (node_id child_node_id : node) : M unit :=
  cur ← nodes_X node_id;
  sub ← build child_node_id;
  sum ← features_add cur sub;
  nodes_update node_id (set_X sum).

Fixpoint _recursive_build_features (fuel : nat) (X : features) (y : labels)
    (node_id : node) : M features :=
  match fuel with
  | O => out_of_fuel
  | S fuel' =>
      a ← nodes_getitem node_id;
      match attr_X a with
      | Some cached =>
          (* Already visited this node in feature building phase *)
          mret cached
      | None =>
          logger (Debug_building_features node_id);;
          d ← out_degree node_id;
          if Nat.eqb d 0 then
            (* Leaf node *)
            X_ ← _build_features X y (np.flatnonzero_eq y node_id);
            nodes_update node_id (set_X X_);;
            nodes_X node_id
          else
            (* Non-leaf node *)
            o ← get_self;
            (if String.eqb (feature_extraction o) "raw" then
               nodes_update node_id (set_X (FRaw []))
             else
               z ← csr_zeros X; nodes_update node_id (set_X z));;
            children ← successors node_id;
            for_each children
              (fun _ child_node_id =>
                 accumulate_child (_recursive_build_features fuel' X y)
                                  node_id child_node_id)
              tt;;
            (* Build and store metafeatures for node *)
            cur ← nodes_X node_id;
            mf ← _build_metafeatures cur y;
            nodes_update node_id (set_METAFEATURES mf);;
            if negb (np.issubdtype node_id y) then
              nodes_X node_id
            else
              cur ← nodes_X node_id;
              own ← _build_features X y (np.flatnonzero_eq y node_id);
              features_add cur own
      end
  end.

Definition _make_base_estimator (LogisticRegression : sklearn.estimator)
    (node_id : node) : sklearn.estimator :=
  LogisticRegression.

Definition _base_estimator_for (LogisticRegression : sklearn.estimator)
    (node_id : node) : M sklearn.estimator :=
  o ← get_self;
  base ← match base_estimator o with
         | BENone => mret (_make_base_estimator LogisticRegression node_id)
         | BEDict d dflt =>
             match d !! node_id with
             | Some e => mret e
             | None => from_option KeyError dflt
             end
         | BEEstimator e => mret e
         | BEFactory f => g ← get_graph; mret (f node_id g)
         end;
  mret (sklearn.clone base).

(** [clf.fit(X=X_, y=y_)]: the object with its fitted attributes set. *)
Definition clf_fit (clf : sklearn.clf_obj) (X_ : features) (y_ : targets)
  : M sklearn.clf_obj :=
  match sklearn.fit (sklearn.params clf) X_ y_ with
  | inl e => raise e
  | inr c => mret {| sklearn.params := sklearn.params clf;
                     sklearn.fitted := Some c |}
  end.

Definition row_sum_positive (r : list Z) : bool := 0 <? fold_right Z.add 0 r.

(** Lines 488-524 of [_train_local_classifier]: the training pair
    [(X_, y_)] of a node. *)
Definition training_pair (X : features) (y : labels) (node_id : node)
  : M (features * targets) :=
  o ← get_self;
  '(X_, nnz_rows) ←
    (if String.eqb (feature_extraction o) "raw" then
       match X with
       | FRaw l => mret (X, seq 0 (length l))
       | FCsr _ => raise TypeError
       end
     else
       Xn ← nodes_X node_id;
       match Xn with
       | FCsr m =>
           let nnz_rows := array.nnz_rows_ix m in
           m' ← take_rows m nnz_rows; mret (FCsr m', nnz_rows)
       | FRaw _ => raise TypeError
       end);
  tg ← take_labels y nnz_rows;
  g ← get_graph;
  let y_rolled_up := graph.rollup_nodes g node_id tg (mlb o) in
  if is_tree_ o then
    match mlb o with
    | None => mret (X_, T1 (array.flatten_list y_rolled_up))
    | Some b =>
        let y2 := preprocessing.transform b y_rolled_up in
        (* take all non zero, only compare in side the siblings *)
        let idx := np.flatnonzero (map row_sum_positive y2) in
        y_ ← take_rows y2 idx;
        match X_ with
        | FRaw l => l' ← take_rows l idx; mret (FRaw l', T2 y_)
        | FCsr m => m' ← take_rows m idx; mret (FCsr m', T2 y_)
        end
    end
  else
    (* Class hierarchy graph is a DAG *)
    match X_ with
    | FRaw l => let r := array.apply_rollup_Xy_raw l y_rolled_up in
                mret (FRaw (fst r), T1 (snd r))
    | FCsr m => let r := array.apply_rollup_Xy m y_rolled_up in
                mret (FCsr (fst r), T1 (snd r))
    end.

(** [y_[0]]. *)
Definition first_target (y_ : targets) : M label :=
  match y_ with
  | T1 l => from_option IndexError (LNode <$> head l)
  | T2 m => from_option IndexError (LRow <$> head m)
  end.

Definition set_estimator (node_id : node) (clf : sklearn.clf_obj) : M unit :=
  o ← get_self; put_self (with_estimators_ (<[node_id := clf]> (estimators_ o)) o).

Definition _train_local_classifier (LogisticRegression : sklearn.estimator)
    (X : features) (y : labels) (node_id : node) : M unit :=
  d ← out_degree node_id;
  o ← get_self;
  if Nat.eqb d 0 && String.eqb (algorithm o) "lcpn" then
    (* Leaf nodes do not get a classifier assigned in LCPN algorithm mode. *)
    logger (Debug_skipping_leaf node_id)
  else
    '(X_, y_) ← training_pair X y node_id;
    let num_targets := length (np.unique_targets y_) in
    logger (Debug_training node_id (sklearn.num_targets_rows y_) num_targets);;
    if String.eqb (feature_extraction o) "preprocessed"
       && Nat.eqb (sklearn.num_rows X_) 0 then
      (* No training data could be materialized for current node *)
      logger (Warning_not_enough_data node_id)
    else
      clf ← (if Nat.eqb num_targets 1 then
               constant ← first_target y_;
               logger (Debug_single_target node_id constant);;
               mret (sklearn.new (sklearn.DummyClassifier constant))
             else
               e ← _base_estimator_for LogisticRegression node_id;
               mret (sklearn.new e));
      clf ← (if String.eqb (feature_extraction o) "raw" then
               if Nat.ltb 0 (sklearn.num_rows X_) then
                 clf' ← clf_fit clf X_ y_;
                 logger (Debug_training_node node_id);;
                 nodes_update node_id (set_CLASSIFIER clf');;
                 mret clf'
               else
                 logger (Debug_could_not_train node_id);;
                 mret clf
             else
               clf' ← clf_fit clf X_ y_;
               nodes_update node_id (set_CLASSIFIER clf');;
               mret clf');
      set_estimator node_id clf.

Fixpoint _recursive_train_local_classifiers (fuel : nat)
    (LogisticRegression : sklearn.estimator)
    (X : features) (y : labels) (node_id : node) : M unit :=
  match fuel with
  | O => out_of_fuel
  | S fuel' =>
      a ← nodes_getitem node_id;
      match attr_CLASSIFIER a with
      | Some _ =>
          (* Already trained classifier at this node, skip *)
          mret tt
      | None =>
          _train_local_classifier LogisticRegression X y node_id;;
          children ← successors node_id;
          for_each children
            (fun _ child_node_id =>
               _recursive_train_local_classifiers fuel' LogisticRegression
                 X y child_node_id)
            tt
      end
  end.

(** [probs[0, j]], [probs[i]] and [proba(x)[0]]. *)
Definition index2 (probs : ndarray) (j : nat) : M float :=
  match probs with
  | Arr2 m => row ← from_option IndexError (head m);
              from_option IndexError (row !! j)
  | Arr1 _ => raise IndexError
  end.

Definition index1 (probs : ndarray) (i : nat) : M pyscore :=
  match probs with
  | Arr1 l => from_option IndexError (SFloat <$> l !! i)
  | Arr2 m => from_option IndexError (SArr <$> m !! i)
  end.

(** [class_proba[class_idx] = v] with a float or a whole row as [v]: a row
    of one element is converted, a longer one is a ValueError. *)
Definition as_scalar (v : pyscore) : M float :=
  match v with
  | SFloat f => mret f
  | SArr [f] => mret f
  | SArr _ => raise ValueError
  end.

(** Truth value of [score < stopping_criteria]. *)
Definition score_lt (score : pyscore) (t : float) : M bool :=
  match score with
  | SFloat f => mret (PrimFloat.ltb f t)
  | SArr [] => mret false
  | SArr [f] => mret (PrimFloat.ltb f t)
  | SArr _ => raise ValueError
  end.

Definition _should_early_terminate (current_node prediction : node)
    (score : pyscore) : M bool :=
  o ← get_self;
  if negb (String.eqb (prediction_depth o) "nmlnp") then
    (* Prediction depth parameter does not allow for early termination *)
    mret false
  else
    match stopping_criteria o with
    | SCFloat t =>
        below ← score_lt score t;
        if (below : bool) then
          if decide (current_node = root o) then mret false
          else logger (Debug_terminating score t current_node);; mret true
        else mret false
    | SCCallable f =>
        a ← nodes_getitem current_node;
        mret (f a prediction score)
    | SCNone => mret false
    end.

(** Lines 585-598: [probs], [argmax] and [score] of the classifier at the
    current node. *)
Definition score_example (clf : sklearn.clf_obj) (x : example)
  : M (ndarray * nat * pyscore) :=
  o ← get_self;
  c ← from_option NotFittedError (sklearn.fitted clf);
  match use_decision_function o, sklearn.decision_function c with
  | true, Some decision_function =>
      if String.eqb (feature_extraction o) "raw" then
        let probs := decision_function (Batch [x]) in
        argmax ← from_option ValueError (np.argmax probs);
        score ← index2 probs argmax;
        mret (probs, argmax, SFloat score)
      else
        let probs := decision_function (Single x) in
        argmax ← from_option ValueError (np.argmax probs);
        score ← index1 probs argmax;
        mret (probs, argmax, score)
  | _, _ =>
      row ← from_option IndexError (head (sklearn.predict_proba c x));
      let probs := Arr1 row in
      argmax ← from_option ValueError (np.argmax probs);
      score ← index1 probs argmax;
      mret (probs, argmax, score)
  end.

(** The variables the loop over [enumerate(clf.classes_)] updates. *)
Record scatter_vars : Type := {
  class_proba : list float;
  prediction : option node;
  predictions : list node;
}.

(** Lines 608-635: one turn of that loop. *)
Definition scatter_class (probs : ndarray) (argmax : nat) (path : list node)
    (v : scatter_vars) (entry : nat * node) : M scatter_vars :=
  let '(local_class_idx, class_) := entry in
  o ← get_self;
  match mlb o with
  | Some b =>
      (* when we have a multi-label binarizer *)
      p ← index2 probs local_class_idx;
      class_idx ← from_option IndexError
                    (match class_ with NInt z => Some z | NStr _ => None end);
      cp ← from_option IndexError (py_setitem (class_proba v) class_idx p);
      stored ← from_option IndexError (py_getitem cp class_idx);
      if PrimFloat.ltb (mlb_prediction_threshold o) stored then
        name ← from_option IndexError
                 (py_getitem (preprocessing.classes_ b) class_idx);
        mret {| class_proba := cp; prediction := prediction v;
                predictions := predictions v ++ [name] |}
      else
        mret {| class_proba := cp; prediction := prediction v;
                predictions := predictions v |}
  | None =>
      class_idx ← match list_index (classes_ o) class_ with
                  | Some i => mret i
                  | None => logger (Error_no_class_index class_ path);;
                            raise ValueError
                  end;
      p ← match probs with
          | Arr2 [_] => index2 probs local_class_idx
          | _ => s ← index1 probs local_class_idx; as_scalar s
          end;
      cp ← from_option IndexError
             (py_setitem (class_proba v) (Z.of_nat class_idx) p);
      mret {| class_proba := cp;
              prediction := if Nat.eqb local_class_idx argmax then Some class_
                            else prediction v;
              predictions := predictions v |}
  end.

Definition enumerate {A} (l : list A) : list (nat * A) := zip (seq 0 (length l)) l.

(** [(path, class_proba)] or [(None, None)]. *)
Definition walk_result : Type := option (list node) * option (list float).

(** [_recursive_predict] and the [while clf:] loop in it.  The list
    [path_proba], appended to and never read, is left out.  [prediction] is
    carried from one turn of the loop to the next, as the Python variable
    is. *)
Fixpoint _recursive_predict (fuel : nat) (x : example) (root : node)
    : M walk_result :=
  match fuel with
  | O => out_of_fuel
  | S fuel' =>
      a ← nodes_getitem root;
      match attr_CLASSIFIER a with
      | None => mret (None, None)
      | Some clf =>
          o ← get_self;
          r ← while_clf fuel' x clf [root] (np.zeros_like (classes_ o)) None;
          mret (Some (fst r), Some (snd r))
      end
  end
with while_clf (fuel : nat) (x : example) (clf : sklearn.clf_obj)
    (path : list node) (class_proba0 : list float) (prediction0 : option node)
    : M (list node * list float) :=
  match fuel with
  | O => out_of_fuel
  | S fuel' =>
      '(probs, argmax, score) ← score_example clf x;
      c ← from_option NotFittedError (sklearn.fitted clf);
      (* Report probabilities in terms of complete class hierarchy *)
      let v0 := {| class_proba := class_proba0;
                   prediction := match sklearn.classes_ c with
                                 | [only] => Some only
                                 | _ => prediction0
                                 end;
                   predictions := [] |} in
      v ← for_each (enumerate (sklearn.classes_ c))
                   (scatter_class probs argmax path) v0;
      o ← get_self;
      match mlb o with
      | None =>
          current_node ← from_option IndexError (last path);
          prediction ← from_option UnboundLocalError (prediction v);
          stop ← _should_early_terminate current_node prediction score;
          if (stop : bool) then mret (path, class_proba v)
          else
            (* Update current path *)
            a ← nodes_getitem prediction;
            match attr_CLASSIFIER a with
            | Some clf' =>
                while_clf fuel' x clf' (path ++ [prediction]) (class_proba v)
                          (Some prediction)
            | None => mret (path ++ [prediction], class_proba v)
            end
      | Some _ =>
          for_each (predictions v)
            (fun acc prediction =>
               '(pred_path, preds_prob) ← _recursive_predict fuel' x prediction;
               let path := fst acc ++ [prediction] in
               match preds_prob with
               | Some preds_prob =>
                   pred_path ← from_option TypeError pred_path;
                   mret (path ++ pred_path, np.add (snd acc) preds_prob)
               | None => mret (path, snd acc)
               end)
            (path, class_proba v)
      end
  end.

(** What [_classify] returns inside [predict]: the path in multi-label
    mode, its last node otherwise. *)
Inductive classified : Type :=
  | Path (p : option (list node))
  | Leaf (n : node).

Definition check_is_fitted : M unit :=
  o ← get_self;
  match graph_ o with
  | Some _ => mret tt
  | None => raise NotFittedError
  end.

(** The examples [predict] iterates over: [X[i]] for raw data; the rows of
    the matrix otherwise ([check_array] refuses an empty or a non-numeric
    input, [len] refuses a sparse one). *)
Definition examples_of (X : features) : M (list example) :=
  o ← get_self;
  if String.eqb (feature_extraction o) "raw" then
    match X with
    | FRaw l => mret (map ERaw l)
    | FCsr _ => raise TypeError
    end
  else
    match X with
    | FCsr [] | FRaw _ => raise ValueError
    | FCsr m => mret (map ERow m)
    end.

Definition predict (fuel : nat) (X : features) : M (list classified) :=
  check_is_fitted;;
  let _classify (x : example) : M classified :=
    o ← get_self;
    '(path, _) ← _recursive_predict fuel x (root o);
    match mlb o with
    | Some _ => mret (Path path)
    | None =>
        p ← from_option TypeError path;
        n ← from_option IndexError (last p);
        mret (Leaf n)
    end in
  xs ← examples_of X;
  comprehension _classify xs.

Definition predict_proba (fuel : nat) (X : features)
  : M (list (option (list float))) :=
  check_is_fitted;;
  let _classify (x : example) : M (option (list float)) :=
    o ← get_self;
    '(_, scores) ← _recursive_predict fuel x (root o);
    mret scores in
  xs ← examples_of X;
  comprehension _classify xs.

Definition _check_parameters : M unit :=
  o ← get_self;
  match validation.validate_parameters o with
  | Some e => raise e
  | None => mret tt
  end.

Definition all_label_values (y : labels) : list node :=
  match y with
  | YInt l => map NInt l
  | YStr l => map NStr l
  | YInd m => map NInt (concat m)
  end.

(** The input validation at the head of [fit]: in raw mode [y] must be
    non-empty and as long as [X]; otherwise [check_X_y] wants a non-empty
    matrix and a one-dimensional [y] of its length (a single column is
    flattened). *)
Definition validate_X_y (X : features) (y : labels) : M labels :=
  o ← get_self;
  if String.eqb (feature_extraction o) "raw" then
    match X with
    | FCsr _ => raise TypeError
    | FRaw l =>
        if Nat.eqb (np.len y) 0 then raise ValueError
        else if negb (Nat.eqb (length l) (np.len y)) then raise ValueError
        else mret y
    end
  else
    match X with
    | FRaw _ | FCsr [] => raise ValueError
    | FCsr m =>
        y ← match y with
            | YInd rows =>
                if forallb (fun r => Nat.eqb (length r) 1) rows
                then mret (YInt (concat rows)) else raise ValueError
            | _ => mret y
            end;
        if negb (Nat.eqb (length m) (np.len y)) then raise ValueError
        else mret y
    end.

Definition fit (fuel : nat) (LogisticRegression : sklearn.estimator)
    (X : features) (y : labels) (sample_weight : option (list float))
    : M unit :=
  y ← validate_X_y X y;
  match sample_weight with
  | Some w => if Nat.eqb (length w) (np.len y) then mret tt
              else raise ValueError
  | None => mret tt
  end;;
  (* Check that parameter assignment is consistent *)
  _check_parameters;;
  (* Initialize NetworkX Graph from input class hierarchy *)
  o ← get_self;
  let class_hierarchy_ :=
    match class_hierarchy o with
    | Some ((_ :: _) as h) => h
    | _ => graph.make_flat_hierarchy (np.unique (all_label_values y)) (root o)
    end in
  let g := nx.from_dict class_hierarchy_ in
  put_self (with_graph_ g (nx.is_tree g)
              (filter (fun n => n ≠ root o) (nx.nodes g)) o);;
  (if String.eqb (feature_extraction o) "preprocessed" then
     (* recursively build training feature sets for each node in graph *)
     _recursive_build_features fuel X y (root o);; mret tt
   else mret tt);;
  (* Recursively train base classifiers *)
  _recursive_train_local_classifiers fuel LogisticRegression X y (root o).

(** Running a method on an object with an empty log. *)
Definition run {A} (m : M A) (o : HierarchicalClassifier) : outcome A :=
  m {| self := o; logged := [] |}.

(** * Specification vocabulary *)

(** [post m s Q R]: from [s], [m] returns a value and a state satisfying
    [Q], or raises in a state satisfying [R]. *)
Definition post {A} (m : M A) (s : state)
    (Q : A -> state -> Prop) (R : exn -> state -> Prop) : Prop :=
  match m s with
  | Ok a s' => Q a s'
  | Raise e s' => R e s'
  | OutOfFuel => True
  end.

(** The value a call returned, and what it left in the log. *)
Definition returned {A} (o : outcome A) : option A :=
  match o with
  | Ok a _ => Some a
  | _ => None
  end.

Definition log_of {A} (o : outcome A) : list log_record :=
  match o with
  | Ok _ s | Raise _ s => logged s
  | OutOfFuel => []
  end.

(** [m] leaves the estimator object as it found it, whatever the outcome
    (it may still write to the log). *)
Definition read_only {A} (m : M A) : Prop :=
  forall s, post m s (fun _ s' => self s' = self s) (fun _ s' => self s' = self s).

(** [preserves P m]: started in a state satisfying [P], [m] ends (returning
    or raising) in a state satisfying [P]. *)
Definition preserves (P : state -> Prop) {A} (m : M A) : Prop :=
  forall s, P s -> post m s (fun _ => P) (fun _ => P).

(** [P] does not look at the log. *)
Definition log_blind (P : state -> Prop) : Prop :=
  forall s r, P s -> P {| self := self s; logged := logged s ++ [r] |}.

(** The attribute bag of a node and its three keys, read off a state. *)
Definition attrs_of (s : state) (n : node) : option node_attrs :=
  g ← graph_ (self s); nx._node g !! n.

Definition cache_of (s : state) (n : node) : option features :=
  a ← attrs_of s n; attr_X a.

Definition classifier_of (s : state) (n : node) : option sklearn.clf_obj :=
  a ← attrs_of s n; attr_CLASSIFIER a.

(** The fitted classifier stored at a node, if there is one. *)
Definition fitted_at (s : state) (n : node) : option sklearn.classifier :=
  c ← classifier_of s n; sklearn.fitted c.

(** * Fitted models used as concrete instances *)

(** A fitted classifier that gives every example the same scores. *)
Definition constant_scores (classes : list node) (probs : list float)
  : sklearn.classifier :=
  {| sklearn.classes_ := classes;
     sklearn.predict_proba := fun _ => [probs];
     sklearn.decision_function := None |}.

(** The same, exposing a [decision_function] that returns one row of
    scores per call. *)
Definition constant_margins (classes : list node) (scores : list float)
  : sklearn.classifier :=
  {| sklearn.classes_ := classes;
     sklearn.predict_proba := fun _ => [scores];
     sklearn.decision_function := Some (fun _ => Arr2 [scores]) |}.

Definition fitted_obj (c : sklearn.classifier) : sklearn.clf_obj :=
  {| sklearn.params := {| sklearn.fit := fun _ _ => inr c |};
     sklearn.fitted := Some c |}.

Definition with_classifier (g : nx.DiGraph) (entry : node * sklearn.classifier)
  : nx.DiGraph :=
  {| nx._node := alter (set_CLASSIFIER (fitted_obj (snd entry))) (fst entry)
                       (nx._node g);
     nx._succ := nx._succ g;
     nx._order := nx._order g |}.

(** The object [o] as [fit] leaves it for the hierarchy [h], with the given
    classifiers stored at their nodes. *)
Definition fitted_model (o : HierarchicalClassifier)
    (h : list (node * list node)) (clfs : list (node * sklearn.classifier))
  : state :=
  let g := fold_left with_classifier clfs (nx.from_dict h) in
  {| self := with_graph_ g (nx.is_tree g)
               (filter (fun n => n ≠ root o) (nx.nodes g)) o;
     logged := [] |}.

Definition with_depth (depth : string) (criteria : stopping_criteria_t)
    (o : HierarchicalClassifier) : HierarchicalClassifier :=
  {| estimators_ := estimators_ o; base_estimator := base_estimator o;
     class_hierarchy := class_hierarchy o;
     prediction_depth := depth; algorithm := algorithm o;
     training_strategy := training_strategy o;
     stopping_criteria := criteria; root := root o;
     feature_extraction := feature_extraction o; mlb := mlb o;
     mlb_prediction_threshold := mlb_prediction_threshold o;
     use_decision_function := use_decision_function o;
     graph_ := graph_ o; is_tree_ := is_tree_ o; classes_ := classes_ o |}.

Module Stopping.

(** root -> {C, F}, C -> {D, E}: the root's classifier scores C at 0.9, the
    classifier at C scores D and E at 0.5 each. *)
Definition ROOT : node := NStr "root".
Definition hierarchy : list (node * list node) :=
  [(ROOT, [NStr "C"; NStr "F"]); (NStr "C", [NStr "D"; NStr "E"])].
Definition classifiers : list (node * sklearn.classifier) :=
  [(ROOT, constant_scores [NStr "C"; NStr "F"] [0.9; 0.1]%float);
   (NStr "C", constant_scores [NStr "D"; NStr "E"] [0.5; 0.5]%float)].

(** [prediction_depth="nmlnp"], [stopping_criteria=0.99]. *)
Definition non_mandatory : state :=
  fitted_model (with_depth "nmlnp" (SCFloat 0.99) (__init__ ROOT))
               hierarchy classifiers.

(** The same model with the default [prediction_depth="mlnp"]. *)
Definition mandatory : state :=
  fitted_model (with_depth "mlnp" (SCFloat 0.99) (__init__ ROOT))
               hierarchy classifiers.

Definition x : example := ERow [1%float].

End Stopping.

(** The successors of a node, read off a state. *)
Definition succ_of (s : state) (n : node) : option (list node) :=
  g ← graph_ (self s); nx._succ g !! n.

(** [_train_local_classifier] goes past its first test at [n]: [n] is not
    a leaf, or the algorithm is not "lcpn". *)
Definition trains_at (s : state) (n : node) : bool :=
  match succ_of s n with
  | Some children =>
      negb (Nat.eqb (length children) 0
            && String.eqb (algorithm (self s)) "lcpn")
  | None => false
  end.

(** The estimator [_base_estimator_for] resolves to, if it does. *)
Definition resolved (LogisticRegression : sklearn.estimator)
    (o : HierarchicalClassifier) (n : node) : option sklearn.estimator :=
  match base_estimator o with
  | BENone => Some LogisticRegression
  | BEDict d dflt => match d !! n with Some e => Some e | None => dflt end
  | BEEstimator e => Some e
  | BEFactory f => f n <$> graph_ o
  end.

Definition log_more (s : state) (rs : list log_record) : state :=
  {| self := self s; logged := logged s ++ rs |}.

(** The state after [self.graph_.nodes[n][CLASSIFIER] = clf] and
    [self.estimators_[n] = clf]. *)
Definition store_classifier (n : node) (clf : sklearn.clf_obj)
    (o : HierarchicalClassifier) : HierarchicalClassifier :=
  match graph_ o with
  | Some g =>
      with_estimators_ (<[n := clf]> (estimators_ o))
        (with_graph_
           {| nx._node := alter (set_CLASSIFIER clf) n (nx._node g);
              nx._succ := nx._succ g; nx._order := nx._order g |}
           (is_tree_ o) (classes_ o) o)
  | None => o
  end.

(** The state a call ends in. *)
Definition state_after {A} (m : M A) (s : state) : state :=
  match m s with
  | Ok _ s' | Raise _ s' => s'
  | OutOfFuel => s
  end.

(** A base estimator that scores all the classes it has seen alike. *)
Definition uniform_estimator : sklearn.estimator :=
  {| sklearn.fit := fun X y =>
       match y with
       | T1 l =>
           if Nat.eqb (sklearn.num_rows X) (length l) then
             inr (constant_scores (np.unique l)
                    (map (fun _ => 1%float) (np.unique l)))
           else inl ValueError
       | T2 _ => inl ValueError
       end |}.

Module Starved.

(** root -> {A, B}, A -> {A1, A2}, and training rows labelled B only: no
    row reaches A, and the root sees a single target. *)
Definition ROOT : node := NStr "root".
Definition hierarchy : list (node * list node) :=
  [(ROOT, [NStr "A"; NStr "B"]); (NStr "A", [NStr "A1"; NStr "A2"])].
Definition X : features := FCsr [[1; 0]; [0; 1]]%float.
Definition y : labels := YStr ["B"; "B"].

(** The object after the feature-building pass of [fit]. *)
Definition built : state :=
  state_after (_recursive_build_features 5 X y ROOT)
              (fitted_model (__init__ ROOT) hierarchy []).

End Starved.

Definition with_raw_features (o : HierarchicalClassifier)
  : HierarchicalClassifier :=
  {| estimators_ := estimators_ o; base_estimator := base_estimator o;
     class_hierarchy := class_hierarchy o;
     prediction_depth := prediction_depth o; algorithm := algorithm o;
     training_strategy := training_strategy o;
     stopping_criteria := stopping_criteria o; root := root o;
     feature_extraction := "raw"; mlb := mlb o;
     mlb_prediction_threshold := mlb_prediction_threshold o;
     use_decision_function := use_decision_function o;
     graph_ := graph_ o; is_tree_ := is_tree_ o; classes_ := classes_ o |}.

Definition with_hierarchy (h : list (node * list node))
    (o : HierarchicalClassifier) : HierarchicalClassifier :=
  {| estimators_ := estimators_ o; base_estimator := base_estimator o;
     class_hierarchy := Some h;
     prediction_depth := prediction_depth o; algorithm := algorithm o;
     training_strategy := training_strategy o;
     stopping_criteria := stopping_criteria o; root := root o;
     feature_extraction := feature_extraction o; mlb := mlb o;
     mlb_prediction_threshold := mlb_prediction_threshold o;
     use_decision_function := use_decision_function o;
     graph_ := graph_ o; is_tree_ := is_tree_ o; classes_ := classes_ o |}.

Module RawDag.

(** A DAG in raw mode: root -> {A, B}, A -> {C, D}, B -> {C, E}, with two
    raw examples labelled E.  Nothing rolls up to a child of A. *)
Definition ROOT : node := NStr "root".
Definition hierarchy : list (node * list node) :=
  [(ROOT, [NStr "A"; NStr "B"]);
   (NStr "A", [NStr "C"; NStr "D"]);
   (NStr "B", [NStr "C"; NStr "E"])].
Definition X : features := FRaw ["first text"; "second text"].
Definition y : labels := YStr ["E"; "E"].

Definition unfitted : HierarchicalClassifier :=
  with_hierarchy hierarchy (with_raw_features (__init__ ROOT)).

(** The object as [fit] has it when training starts. *)
Definition ready : state :=
  fitted_model (with_raw_features (__init__ ROOT)) hierarchy [].

(** The object after the whole of [fit]. *)
Definition after_fit : state :=
  state_after (fit 5 uniform_estimator X y None)
              {| self := unfitted; logged := [] |}.

End RawDag.

(** The nodes for which the feature builder announced a computation, in
    the order of the log. *)
Definition built_nodes (l : list log_record) : list node :=
  omap (fun r => match r with
                 | Debug_building_features n => Some n
                 | _ => None
                 end) l.

(** What a run of the feature builder from [s] to [s'] did: it built the
    features of the nodes [ns], each once and none of them cached before,
    and kept every cache that was there. *)
Record build_effect (s s' : state) (ns : list node) : Prop := {
  be_log : logged s' = logged s ++ map Debug_building_features ns;
  be_nodup : NoDup ns;
  be_fresh : forall m, m ∈ ns -> cache_of s m = None;
  be_keep : forall m c, cache_of s m = Some c -> cache_of s' m = Some c;
}.

(** The same for a run that returned: the nodes built are exactly the
    nodes that gained a cache. *)
Record build_done (s s' : state) (ns : list node) : Prop := {
  bd_effect : build_effect s s' ns;
  bd_cached : forall m, m ∈ ns -> is_Some (cache_of s' m);
  bd_only : forall m, cache_of s m = None -> is_Some (cache_of s' m) -> m ∈ ns;
}.

(** [s'] has the feature caches of [s0], and the feature builder announced
    nothing between the two. *)
Definition same_caches (s0 s' : state) : Prop :=
  (forall m, cache_of s' m = cache_of s0 m)
  /\ built_nodes (logged s') = built_nodes (logged s0).

(** A graph whose attribute bags are all empty, as [DiGraph(d)] makes it. *)
Definition bare (g : nx.DiGraph) : Prop :=
  forall n a, nx._node g !! n = Some a -> a = no_attrs.

(** The reading of "once written, never rewritten" for one step [m] of
    the fit taken from [s]: every cache attribute present in [s] has the
    same value after the step. *)
Definition never_rewritten {A} (m : M A) (s : state) : Prop :=
  forall n c, cache_of s n = Some c -> cache_of (state_after m s) n = Some c.

Module Accumulate.

(** root -> {A, B} with one training row for each leaf. *)
Definition ROOT : node := NStr "root".
Definition hierarchy : list (node * list node) :=
  [(ROOT, [NStr "A"; NStr "B"])].
Definition X : features := FCsr [[1]; [2]]%float.
Definition y : labels := YStr ["A"; "B"].

Definition unfitted : HierarchicalClassifier :=
  with_hierarchy hierarchy (__init__ ROOT).

(** The object when the feature builder is called on the root. *)
Definition fresh : state := fitted_model (__init__ ROOT) hierarchy [].

(** Lines 350-371 at the root: the announcement and
    [nodes[root]["X"] = csr_matrix(X.shape)]. *)
Definition initialised : state :=
  state_after (logger (Debug_building_features ROOT);;
               z ← csr_zeros X; nodes_update ROOT (set_X z)) fresh.

(** One turn of the loop over the root's successors. *)
Definition add (child : node) : M unit :=
  accumulate_child (_recursive_build_features 1 X y) ROOT child.

End Accumulate.

(** The empty cache an internal node starts from: [[]] in raw mode,
    [csr_matrix(X.shape)] otherwise. *)
Definition empty_cache (o : HierarchicalClassifier) (X : features)
  : option features :=
  if String.eqb (feature_extraction o) "raw" then Some (FRaw [])
  else match X with
       | FCsr m => Some (FCsr (map np.zeros_like m))
       | FRaw _ => None
       end.

(** [acc + r1 + ... + rk]. *)
Fixpoint features_sum (acc : features) (rs : list features) : option features :=
  match rs with
  | [] => Some acc
  | r :: rs' =>
      match features_plus acc r with
      | inr a => features_sum a rs'
      | inl _ => None
      end
  end.

(** The training rows labelled with [n] itself, as a feature set. *)
Definition own_rows (X : features) (y : labels) (n : node) (s : state)
  : option features :=
  returned (_build_features X y (np.flatnonzero_eq y n) s).

(** [r] is the feature set some call of the builder on [child] returned. *)
Definition returned_by_build (fuel : nat) (X : features) (y : labels)
    (child : node) (r : features) : Prop :=
  exists s1 s2, _recursive_build_features fuel X y child s1 = Ok r s2.

(** The cache of an internal node as C2 words it: the union of the
    children's caches, with the rows labelled with the node itself appended
    when its identifier has the dtype of the label array. *)
Definition cache_as_claimed (s : state) (X : features) (y : labels) (n : node)
  : option features :=
  z ← empty_cache (self s) X;
  children ← succ_of s n;
  caches ← mapM (cache_of s) children;
  c ← features_sum z caches;
  if np.issubdtype n y then
    own ← own_rows X y n s;
    match features_plus c own with
    | inr v => Some v
    | inl _ => None
    end
  else Some c.

Module OwnLabel.

(** root -> A -> A1, one training row labelled with the leaf A1 and one
    labelled with the intermediate node A itself. *)
Definition ROOT : node := NStr "root".
Definition hierarchy : list (node * list node) :=
  [(ROOT, [NStr "A"]); (NStr "A", [NStr "A1"])].
Definition X : features := FCsr [[1]; [2]]%float.
Definition y : labels := YStr ["A1"; "A"].

Definition fresh : state := fitted_model (__init__ ROOT) hierarchy [].

(** The object after the feature builder has run from the root. *)
Definition built : state :=
  state_after (_recursive_build_features 3 X y ROOT) fresh.

End OwnLabel.

(** The integer a local class stands for in multi-label mode. *)
Definition class_index (class_ : node) : option Z :=
  match class_ with
  | NInt z => Some z
  | NStr _ => None
  end.

(** Where an entry of [enumerate(clf.classes_)] writes in a vector as long
    as [cp]. *)
Definition writes_at (cp : list float) (entry : nat * node) : option nat :=
  z ← class_index (snd entry); py_index cp z.

(** The fan-out targets as C9 words them: the local classes whose score is
    strictly above the threshold, in the order of [clf.classes_], each named
    by the binarizer ([mlb.classes_[class_]]). *)
Definition fanout_targets (threshold : float) (mlb_classes : list node)
    (local_classes : list (nat * node)) (row : list float) : list node :=
  omap (fun entry : nat * node =>
          score ← row !! fst entry;
          z ← class_index (snd entry);
          if PrimFloat.ltb threshold score then py_getitem mlb_classes z
          else None)
       local_classes.

(** What the sub-walks of the fan-out targets add to the path: each target,
    followed by the path its sub-walk returned, if it returned one. *)
Definition fanout_path (results : list (node * walk_result)) : list node :=
  flat_map (fun tr : node * walk_result =>
              fst tr :: default [] (fst (snd tr))) results.

(** The vector after the sub-walks: the vectors they returned, added one
    after the other to the scattered scores. *)
Definition fanout_vector (scattered : list float)
    (results : list (node * walk_result)) : list float :=
  fold_left (fun acc (tr : node * walk_result) =>
               match snd (snd tr) with
               | Some v => np.add acc v
               | None => acc
               end) results scattered.

(** The variables of the scatter loop when it starts at a classifier [c]. *)
Definition scatter_start (o : HierarchicalClassifier) (c : sklearn.classifier)
  : scatter_vars :=
  {| class_proba := np.zeros_like (classes_ o);
     prediction := match sklearn.classes_ c with
                   | [only] => Some only
                   | _ => None
                   end;
     predictions := [] |}.

(** The variables after the scatter loop of the walk at node [n], for the
    scores [probs] of the classifier [c]. *)
Definition scattered (s : state) (c : sklearn.classifier) (probs : ndarray)
    (argmax : nat) (n : node) : option scatter_vars :=
  returned (for_each (enumerate (sklearn.classes_ c))
                     (scatter_class probs argmax [n])
                     (scatter_start (self s) c) s).

(** Raw multi-label configuration: a binarizer, a prediction threshold,
    and classifiers scored through their [decision_function]. *)
Definition with_multilabel (b : preprocessing.MultiLabelBinarizer)
    (threshold : float) (o : HierarchicalClassifier) : HierarchicalClassifier :=
  {| estimators_ := estimators_ o; base_estimator := base_estimator o;
     class_hierarchy := class_hierarchy o;
     prediction_depth := prediction_depth o; algorithm := algorithm o;
     training_strategy := training_strategy o;
     stopping_criteria := stopping_criteria o; root := root o;
     feature_extraction := "raw"; mlb := Some b;
     mlb_prediction_threshold := threshold;
     use_decision_function := true;
     graph_ := graph_ o; is_tree_ := is_tree_ o; classes_ := classes_ o |}.

Module Fanout.

(** root -> {A, B}, A -> {A1}, B -> {B1}; the binarizer's columns are
    A, A1, B, B1.  The root's classifier scores column 0 (A) at 0.4 and
    column 2 (B) at 0.1; the threshold is 0.3. *)
Definition ROOT : node := NStr "root".
Definition hierarchy : list (node * list node) :=
  [(ROOT, [NStr "A"; NStr "B"]);
   (NStr "A", [NStr "A1"]);
   (NStr "B", [NStr "B1"])].
Definition binarizer : preprocessing.MultiLabelBinarizer :=
  {| preprocessing.classes_ := [NStr "A"; NStr "A1"; NStr "B"; NStr "B1"] |}.
Definition at_root : sklearn.classifier :=
  constant_margins [NInt 0; NInt 2] [0.4; 0.1]%float.
Definition at_A : sklearn.classifier := constant_margins [NInt 1] [0.8]%float.
Definition at_B : sklearn.classifier := constant_margins [NInt 3] [0.9]%float.

Definition fitted : state :=
  fitted_model (with_multilabel binarizer 0.3 (__init__ ROOT)) hierarchy
               [(ROOT, at_root); (NStr "A", at_A); (NStr "B", at_B)].

Definition x : example := ERaw "text".

End Fanout.

Module Diamond.

(** A DAG: root -> {A, B}, A -> {C}, B -> {C}, C -> {D}; the binarizer's
    columns are A, B, C, D.  Both fan-out paths from the root reach C,
    whose classifier scores D at 0.25, under the threshold 0.3. *)
Definition ROOT : node := NStr "root".
Definition hierarchy : list (node * list node) :=
  [(ROOT, [NStr "A"; NStr "B"]);
   (NStr "A", [NStr "C"]);
   (NStr "B", [NStr "C"]);
   (NStr "C", [NStr "D"])].
Definition binarizer : preprocessing.MultiLabelBinarizer :=
  {| preprocessing.classes_ := [NStr "A"; NStr "B"; NStr "C"; NStr "D"] |}.
Definition at_root : sklearn.classifier :=
  constant_margins [NInt 0; NInt 1] [0.5; 0.5]%float.
Definition to_C : sklearn.classifier := constant_margins [NInt 2] [0.5]%float.
Definition at_C : sklearn.classifier := constant_margins [NInt 3] [0.25]%float.

Definition fitted : state :=
  fitted_model (with_multilabel binarizer 0.3 (__init__ ROOT)) hierarchy
               [(ROOT, at_root); (NStr "A", to_C); (NStr "B", to_C);
                (NStr "C", at_C)].

Definition x : example := ERaw "text".

End Diamond.

(** * The passes of [fit] *)

(** The object [clf.fit(X_, y_)] leaves: the estimator [e] with its fitted
    attributes [c]. *)
Definition trained_obj (e : sklearn.estimator) (c : sklearn.classifier)
  : sklearn.clf_obj :=
  {| sklearn.params := e; sklearn.fitted := Some c |}.

(** The state after [clf] was stored at [n] and [rs] was logged. *)
Definition stored (n : node) (clf : sklearn.clf_obj) (rs : list log_record)
    (s : state) : state :=
  {| self := store_classifier n clf (self s); logged := logged s ++ rs |}.

(** Line 242: the hierarchy the graph is made from, the user's when it is
    a non-empty dictionary. *)
Definition hierarchy_of (o : HierarchicalClassifier) (y : labels)
  : list (node * list node) :=
  match class_hierarchy o with
  | Some ((_ :: _) as h) => h
  | _ => graph.make_flat_hierarchy (np.unique (all_label_values y)) (root o)
  end.

(** Lines 242-249: the object when the two passes of [fit] start. *)
Definition started (o : HierarchicalClassifier) (y : labels) : state :=
  let g := nx.from_dict (hierarchy_of o y) in
  {| self := with_graph_ g (nx.is_tree g)
               (filter (fun n => n ≠ root o) (nx.nodes g)) o;
     logged := [] |}.

(** The object without what the passes write: the attribute bags of the
    nodes are emptied and [estimators_] is dropped. *)
Definition skeleton (o : HierarchicalClassifier) : HierarchicalClassifier :=
  {| estimators_ := ∅; base_estimator := base_estimator o;
     class_hierarchy := class_hierarchy o;
     prediction_depth := prediction_depth o; algorithm := algorithm o;
     training_strategy := training_strategy o;
     stopping_criteria := stopping_criteria o; root := root o;
     feature_extraction := feature_extraction o; mlb := mlb o;
     mlb_prediction_threshold := mlb_prediction_threshold o;
     use_decision_function := use_decision_function o;
     graph_ := (fun g => {| nx._node := (fun _ => no_attrs) <$> nx._node g;
                            nx._succ := nx._succ g;
                            nx._order := nx._order g |}) <$> graph_ o;
     is_tree_ := is_tree_ o; classes_ := classes_ o |}.

(** The nodes of a graph are listed once each, and are the keys of its
    attribute dictionary. *)
Definition nodes_listed (g : nx.DiGraph) : Prop :=
  NoDup (nx._order g)
  /\ forall n, n ∈ nx._order g <-> is_Some (nx._node g !! n).

(** The leaf [l] has the CLASSIFIER attribute [c0] and the entry [e0] of
    [estimators_], in an object whose algorithm is "lcpn". *)
Definition leaf_untouched (l : node) (c0 e0 : option sklearn.clf_obj)
    (s : state) : Prop :=
  String.eqb (algorithm (self s)) "lcpn" = true
  /\ succ_of s l = Some []
  /\ classifier_of s l = c0
  /\ estimators_ (self s) !! l = e0.

(** Every CLASSIFIER attribute of the graph is a fitted object, and is the
    entry of its node in [estimators_]. *)
Definition registered (s : state) : Prop :=
  forall n clf,
    classifier_of s n = Some clf ->
    is_Some (sklearn.fitted clf) /\ estimators_ (self s) !! n = Some clf.

Module Family.

(** root -> {A, B}, A -> {A1, A2}, with one training row for each of A1,
    A2 and B. *)
Definition ROOT : node := NStr "root".
Definition hierarchy : list (node * list node) :=
  [(ROOT, [NStr "A"; NStr "B"]); (NStr "A", [NStr "A1"; NStr "A2"])].
Definition X : features := FCsr [[1; 0]; [0; 1]; [1; 1]]%float.
Definition y : labels := YStr ["A1"; "A2"; "B"].

Definition unfitted : HierarchicalClassifier :=
  with_hierarchy hierarchy (__init__ ROOT).

(** The object after the feature-building pass of [fit]. *)
Definition built : state :=
  state_after (_recursive_build_features 3 X y ROOT) (started unfitted y).

End Family.

(** * The walk *)

(** What a walk from [n] returns in the object [o]: nothing, or a path
    that starts at [n] with a vector that has one score for each class of
    [classes_]. *)
Definition walk_shape (o : HierarchicalClassifier) (n : node)
    (r : walk_result) : Prop :=
  r = (None, None)
  \/ exists p v, r = (Some (n :: p), Some v)
                 /\ length v = length (classes_ o).

(** For the example [x], the classifier object [clf] chooses the class
    [k]: it is fitted, it gives one score for each of its classes, its
    classes are classes of the hierarchy, and [k] is its class at the
    argmax of the scores. *)
Definition chooses (s : state) (x : example) (clf : sklearn.clf_obj)
    (k : node) : Prop :=
  exists (c : sklearn.classifier) (p : list float) (argmax : nat)
         (score : pyscore),
    sklearn.fitted clf = Some c
    /\ returned (score_example clf x s) = Some (Arr1 p, argmax, score)
    /\ length p = length (sklearn.classes_ c)
    /\ (forall k', k' ∈ sklearn.classes_ c -> k' ∈ classes_ (self s))
    /\ sklearn.classes_ c !! argmax = Some k.

(** The chain of choices from the classifier [clf] down to a node that
    carries no classifier. *)
Inductive descends (s : state) (x : example)
  : sklearn.clf_obj -> list node -> Prop :=
  | descends_last clf k a :
      chooses s x clf k ->
      attrs_of s k = Some a -> attr_CLASSIFIER a = None ->
      descends s x clf [k]
  | descends_step clf k clf' t :
      chooses s x clf k ->
      classifier_of s k = Some clf' ->
      descends s x clf' t ->
      descends s x clf (k :: t).

Module Mismatch.

(** The hierarchy of [Stopping] with a root classifier that knows a class
    "Z" the hierarchy does not have. *)
Definition at_root : sklearn.classifier :=
  constant_scores [NStr "C"; NStr "Z"] [0.9; 0.1]%float.
Definition fitted : state :=
  fitted_model (__init__ Stopping.ROOT) Stopping.hierarchy
               [(Stopping.ROOT, at_root)].

End Mismatch.

(** A base estimator whose [fit] always raises. *)
Definition failing_estimator : sklearn.estimator :=
  {| sklearn.fit := fun _ _ => inl ValueError |}.

(** [HierarchicalClassifier(training_strategy=...)] with the default
    algorithm "lcpn". *)
Definition with_training_strategy (strategy : string)
    (o : HierarchicalClassifier) : HierarchicalClassifier :=
  {| estimators_ := estimators_ o; base_estimator := base_estimator o;
     class_hierarchy := class_hierarchy o;
     prediction_depth := prediction_depth o; algorithm := algorithm o;
     training_strategy := Some strategy;
     stopping_criteria := stopping_criteria o; root := root o;
     feature_extraction := feature_extraction o; mlb := mlb o;
     mlb_prediction_threshold := mlb_prediction_threshold o;
     use_decision_function := use_decision_function o;
     graph_ := graph_ o; is_tree_ := is_tree_ o; classes_ := classes_ o |}.

(** The exception a call raised. *)
Definition raised {A} (o : outcome A) : option exn :=
  match o with
  | Raise e _ => Some e
  | _ => None
  end.

(** [chooses] with the score of the chosen class, a float, exposed. *)
Definition chooses_with (s : state) (x : example) (clf : sklearn.clf_obj)
    (k : node) (sc : float) : Prop :=
  exists (c : sklearn.classifier) (p : list float) (argmax : nat),
    sklearn.fitted clf = Some c
    /\ returned (score_example clf x s) = Some (Arr1 p, argmax, SFloat sc)
    /\ length p = length (sklearn.classes_ c)
    /\ (forall k', k' ∈ sklearn.classes_ c -> k' ∈ classes_ (self s))
    /\ sklearn.classes_ c !! argmax = Some k.

(** Lines 671-684 for a float criterion [t]: the walk stops at the node
    [cur] when the score is below [t] and [cur] is not the root. *)
Definition stops (s : state) (t : float) (cur : node) (sc : float) : bool :=
  PrimFloat.ltb sc t && negb (bool_decide (cur = root (self s))).

(** The chain of choices from the classifier [clf] of the node [cur], down
    to a node without classifier or to the first node at which the walk
    stops; the last component is the line logged when it stops. *)
Inductive descends_until (s : state) (x : example) (t : float)
  : node -> sklearn.clf_obj -> list node -> list log_record -> Prop :=
  | until_stop cur clf k sc :
      chooses_with s x clf k sc ->
      stops s t cur sc = true ->
      descends_until s x t cur clf [] [Debug_terminating (SFloat sc) t cur]
  | until_last cur clf k sc a :
      chooses_with s x clf k sc ->
      stops s t cur sc = false ->
      attrs_of s k = Some a -> attr_CLASSIFIER a = None ->
      descends_until s x t cur clf [k] []
  | until_step cur clf k sc clf' rest rs :
      chooses_with s x clf k sc ->
      stops s t cur sc = false ->
      classifier_of s k = Some clf' ->
      descends_until s x t k clf' rest rs ->
      descends_until s x t cur clf (k :: rest) rs.

(** No node of the graph carries the "X" or the METAFEATURES attribute. *)
Definition no_features (s : state) : Prop :=
  forall n a, attrs_of s n = Some a ->
              attr_X a = None /\ attr_METAFEATURES a = None.

(** [estimators_] in [s] has the entries of [e0], possibly reassigned, and
    otherwise only entries for nodes of the graph. *)
Definition estimators_grown (e0 : gmap node sklearn.clf_obj) (s : state)
  : Prop :=
  (forall n, is_Some (e0 !! n) -> is_Some (estimators_ (self s) !! n))
  /\ (forall n, is_Some (estimators_ (self s) !! n) ->
                is_Some (e0 !! n) \/ is_Some (succ_of s n)).

Module Refit.

(** The object of [Accumulate] with an entry of [estimators_] left by an
    earlier fit, for a node "old" that its hierarchy does not have. *)
Definition earlier : sklearn.clf_obj :=
  fitted_obj (constant_scores [NStr "old1"; NStr "old2"] [0.5; 0.5]%float).
Definition fitted_before : HierarchicalClassifier :=
  with_estimators_ {[ NStr "old" := earlier ]} Accumulate.unfitted.

End Refit.

(** * Reasoning rules for the monad *)

Section Rules.
Context {A B : Type}.
Implicit Types (Q : A -> state -> Prop) (R : exn -> state -> Prop).

Lemma bind_unfold (m : M A) (f : A -> M B) (s : state) :
  (m ≫= f) s = match m s with
               | Ok a s' => f a s'
               | Raise e s' => Raise e s'
               | OutOfFuel => OutOfFuel
               end.
Proof. reflexivity. Qed.

Lemma bind_ok (m : M A) (f : A -> M B) (s s' : state) (a : A) :
  m s = Ok a s' -> (m ≫= f) s = f a s'.
Proof. intros H. rewrite bind_unfold, H. reflexivity. Qed.

Lemma post_ret (a : A) s Q R : Q a s -> post (mret a) s Q R.
Proof. intros H. exact H. Qed.

Lemma post_raise (e : exn) s Q R : R e s -> post (raise e) s Q R.
Proof. intros H. exact H. Qed.

Lemma post_bind (m : M A) (f : A -> M B) s
    (Q : B -> state -> Prop) (R : exn -> state -> Prop) :
  post m s (fun a s' => post (f a) s' Q R) R -> post (m ≫= f) s Q R.
Proof.
  unfold post. rewrite bind_unfold. destruct (m s); auto.
Qed.

Lemma post_weaken (m : M A) s Q R (Q' : A -> state -> Prop)
    (R' : exn -> state -> Prop) :
  post m s Q R ->
  (forall a s', Q a s' -> Q' a s') ->
  (forall e s', R e s' -> R' e s') ->
  post m s Q' R'.
Proof. unfold post. destruct (m s); auto. Qed.

Lemma post_from_option (e : exn) (o : option A) s Q R :
  (forall a, o = Some a -> Q a s) -> (o = None -> R e s) ->
  post (from_option e o) s Q R.
Proof. destruct o; intros H1 H2; [apply H1 | apply H2]; reflexivity. Qed.

End Rules.

Lemma post_for_each {A B} (l : list B) (body : A -> B -> M A) (acc : A) s
    (I : A -> state -> Prop) (R : exn -> state -> Prop) :
    I acc s ->
    (forall acc x s, x ∈ l -> I acc s -> post (body acc x) s I R) ->
    post (for_each l body acc) s I R.
  Proof.
    revert acc s. induction l as [|x l IH]; intros acc s HI Hbody.
    - exact HI.
    - cbn [for_each]. apply post_bind.
      eapply post_weaken; [apply Hbody; [left | exact HI] | | auto].
      intros acc' s' HI'. apply IH; [exact HI' |].
      intros; apply Hbody; [right|]; assumption.
  Qed.

Lemma post_comprehension {A B} (f : B -> M A) (l : list B) s
    (I : state -> Prop) (R : exn -> state -> Prop) :
    I s ->
    (forall x s, x ∈ l -> I s -> post (f x) s (fun _ => I) R) ->
    post (comprehension f l) s (fun _ => I) R.
  Proof.
    revert s. induction l as [|x l IH]; intros s HI Hf.
    - exact HI.
    - cbn [comprehension]. apply post_bind.
      eapply post_weaken; [apply Hf; [left | exact HI] | | auto].
      intros v s' HI'. cbn beta. apply post_bind.
      eapply post_weaken; [apply IH; [exact HI' |] | | auto].
      + intros; apply Hf; [right|]; assumption.
      + intros vs s'' HI''. exact HI''.
Qed.

Lemma post_get_self s (Q : HierarchicalClassifier -> state -> Prop) R :
  Q (self s) s -> post get_self s Q R.
Proof. intros H. exact H. Qed.

Lemma post_logger r s (Q : unit -> state -> Prop) R :
  Q tt {| self := self s; logged := logged s ++ [r] |} -> post (logger r) s Q R.
Proof. intros H. exact H. Qed.

(** ** Methods that preserve a property of the state *)

Section Preserves.
Variable P : state -> Prop.

Lemma preserves_ret {A} (a : A) : preserves P (mret a).
Proof. intros s Hs. exact Hs. Qed.

Lemma preserves_raise {A} e : preserves P (@raise A e).
Proof. intros s Hs. exact Hs. Qed.

Lemma preserves_bind {A B} (m : M A) (f : A -> M B) :
  preserves P m -> (forall a, preserves P (f a)) -> preserves P (m ≫= f).
Proof.
  intros Hm Hf s Hs. apply post_bind.
  eapply post_weaken; [apply Hm; exact Hs | | auto].
  intros a s' Hs'. apply Hf. exact Hs'.
Qed.

Lemma preserves_from_option {A} e (x : option A) : preserves P (from_option e x).
Proof. destruct x; [apply preserves_ret | apply preserves_raise]. Qed.

Lemma preserves_get_self : preserves P get_self.
Proof. intros s Hs. exact Hs. Qed.

Lemma preserves_logger_record r :
  (forall s, P s -> P {| self := self s; logged := logged s ++ [r] |}) ->
  preserves P (logger r).
Proof. intros HP s Hs. apply HP. exact Hs. Qed.

Lemma preserves_logger r : log_blind P -> preserves P (logger r).
Proof. intros HP. apply preserves_logger_record. intros s. apply HP. Qed.

Lemma preserves_for_each {A B} (l : list B) (body : A -> B -> M A) acc :
  (forall acc x, preserves P (body acc x)) -> preserves P (for_each l body acc).
Proof.
  intros Hb. revert acc. induction l as [|x l IH]; intros acc.
  - apply preserves_ret.
  - cbn [for_each]. apply preserves_bind; [apply Hb | intros; apply IH].
Qed.

Lemma preserves_comprehension {A B} (f : B -> M A) (l : list B) :
  (forall x, preserves P (f x)) -> preserves P (comprehension f l).
Proof.
  intros Hf. induction l as [|x l IH].
  - apply preserves_ret.
  - cbn [comprehension]. apply preserves_bind; [apply Hf | intros v].
    apply preserves_bind; [apply IH | intros; apply preserves_ret].
Qed.

End Preserves.

Create HintDb preserves.

#[local] Hint Resolve preserves_ret preserves_raise preserves_from_option
  preserves_get_self preserves_logger : preserves.

Ltac preserves_tac :=
  repeat first
    [ progress eauto with preserves
    | apply preserves_bind; [| intros ?]
    | apply preserves_for_each; intros ? ?
    | apply preserves_comprehension; intros ?
    | lazymatch goal with
      | |- preserves _ (if ?b then _ else _) => destruct b
      | |- preserves _ (match ?x with _ => _ end) => destruct x
      | |- preserves _ (let '(_, _) := ?p in _) => destruct p
      end ].

Section ReadOnly.
Variable P : state -> Prop.

Lemma preserves_get_graph : preserves P get_graph.
Proof. unfold get_graph. preserves_tac. Qed.
Hint Resolve preserves_get_graph : preserves.

Lemma preserves_nodes_getitem n : preserves P (nodes_getitem n).
Proof. unfold nodes_getitem. preserves_tac. Qed.

Lemma preserves_successors n : preserves P (successors n).
Proof. unfold successors. preserves_tac. Qed.
Hint Resolve preserves_nodes_getitem preserves_successors : preserves.

Lemma preserves_out_degree n : preserves P (out_degree n).
Proof. unfold out_degree. preserves_tac. Qed.

Lemma preserves_nodes_X n : preserves P (nodes_X n).
Proof. unfold nodes_X. preserves_tac. Qed.

Lemma preserves_take_labels y ix : preserves P (take_labels y ix).
Proof. unfold take_labels. preserves_tac. Qed.

Lemma preserves_take_rows {A} (X : list A) ix : preserves P (take_rows X ix).
Proof. unfold take_rows. preserves_tac. Qed.
Hint Resolve preserves_nodes_X preserves_take_labels preserves_take_rows
  : preserves.

Lemma preserves_training_pair X y n : preserves P (training_pair X y n).
Proof. unfold training_pair. preserves_tac. Qed.

Lemma preserves_index2 probs j : preserves P (index2 probs j).
Proof. unfold index2. preserves_tac. Qed.

Lemma preserves_index1 probs j : preserves P (index1 probs j).
Proof. unfold index1. preserves_tac. Qed.

Lemma preserves_as_scalar v : preserves P (as_scalar v).
Proof. unfold as_scalar. preserves_tac. Qed.

Lemma preserves_score_lt sc t : preserves P (score_lt sc t).
Proof. unfold score_lt. preserves_tac. Qed.
Hint Resolve preserves_index1 preserves_index2 preserves_as_scalar
  preserves_score_lt : preserves.

Lemma preserves_score_example clf x : preserves P (score_example clf x).
Proof. unfold score_example. preserves_tac. Qed.

Hypothesis P_log_blind : log_blind P.
Hint Resolve P_log_blind : preserves.

Lemma preserves_should_early_terminate n p sc :
  preserves P (_should_early_terminate n p sc).
Proof. unfold _should_early_terminate. preserves_tac. Qed.

Lemma preserves_scatter_class probs argmax path v entry :
  preserves P (scatter_class probs argmax path v entry).
Proof. unfold scatter_class. destruct entry. preserves_tac. Qed.
Hint Resolve preserves_score_example preserves_should_early_terminate
  preserves_scatter_class : preserves.

Lemma preserves_walk fuel :
  (forall x n, preserves P (_recursive_predict fuel x n))
  /\ (forall x clf path cp p, preserves P (while_clf fuel x clf path cp p)).
Proof.
  induction fuel as [|fuel [IHp IHw]].
  - split; intros; intros s Hs; exact I.
  - split.
    + intros x n. cbn [_recursive_predict]. preserves_tac.
    + intros x clf path cp p. cbn [while_clf]. preserves_tac.
Qed.

Lemma preserves_recursive_predict fuel x n :
  preserves P (_recursive_predict fuel x n).
Proof. apply preserves_walk. Qed.
Hint Resolve preserves_recursive_predict : preserves.

Lemma preserves_check_is_fitted : preserves P check_is_fitted.
Proof. unfold check_is_fitted. preserves_tac. Qed.

Lemma preserves_examples_of X : preserves P (examples_of X).
Proof. unfold examples_of. preserves_tac. Qed.
Hint Resolve preserves_check_is_fitted preserves_examples_of : preserves.

Lemma preserves_predict fuel X : preserves P (predict fuel X).
Proof. unfold predict. preserves_tac. Qed.

Lemma preserves_predict_proba fuel X : preserves P (predict_proba fuel X).
Proof. unfold predict_proba. preserves_tac. Qed.

End ReadOnly.

Lemma read_only_preserves {A} (m : M A) :
  (forall o, preserves (fun s => self s = o) m) -> read_only m.
Proof. intros H s. apply (H (self s) s). reflexivity. Qed.

Lemma log_blind_self o : log_blind (fun s => self s = o).
Proof. intros s r Hs. exact Hs. Qed.

(** A call that preserves every property ends in the state it started in. *)
Lemma preserves_all_returned {A} (m : M A) (s : state) (a : A) :
  (forall P, preserves P m) -> returned (m s) = Some a -> m s = Ok a s.
Proof.
  intros Hm Hr. specialize (Hm (fun s' => s' = s) s eq_refl).
  unfold post in Hm. destruct (m s) as [a' s'| |]; try discriminate.
  cbn in Hr. congruence.
Qed.

Lemma training_pair_returned X y n s p :
  returned (training_pair X y n s) = Some p -> training_pair X y n s = Ok p s.
Proof.
  apply preserves_all_returned. intros P. apply preserves_training_pair.
Qed.

(** ** Running the primitives *)

Lemma run_get_graph s g :
  graph_ (self s) = Some g -> get_graph s = Ok g s.
Proof. intros H. unfold get_graph, get_self. rewrite bind_unfold, H. reflexivity. Qed.

Lemma run_nodes_getitem s n a :
  attrs_of s n = Some a -> nodes_getitem n s = Ok a s.
Proof.
  unfold attrs_of. destruct (graph_ (self s)) as [g|] eqn:Hg; [|discriminate].
  cbn. intros Ha. unfold nodes_getitem.
  rewrite (bind_ok _ _ _ _ _ (run_get_graph _ _ Hg)), Ha. reflexivity.
Qed.

Lemma run_successors s n cs :
  succ_of s n = Some cs -> successors n s = Ok cs s.
Proof.
  unfold succ_of. destruct (graph_ (self s)) as [g|] eqn:Hg; [|discriminate].
  cbn. intros Ha. unfold successors.
  rewrite (bind_ok _ _ _ _ _ (run_get_graph _ _ Hg)), Ha. reflexivity.
Qed.

Lemma run_out_degree s n cs :
  succ_of s n = Some cs -> out_degree n s = Ok (length cs) s.
Proof.
  intros H. unfold out_degree.
  rewrite (bind_ok _ _ _ _ _ (run_successors _ _ _ H)). reflexivity.
Qed.

Lemma run_nodes_update s n a g f :
  graph_ (self s) = Some g -> nx._node g !! n = Some a ->
  nodes_update n f s
  = Ok tt {| self := with_graph_
                       {| nx._node := <[n := f a]> (nx._node g);
                          nx._succ := nx._succ g; nx._order := nx._order g |}
                       (is_tree_ (self s)) (classes_ (self s)) (self s);
             logged := logged s |}.
Proof.
  intros Hg Ha. unfold nodes_update.
  assert (Hat : attrs_of s n = Some a) by (unfold attrs_of; rewrite Hg; exact Ha).
  rewrite (bind_ok _ _ _ _ _ (run_nodes_getitem _ _ _ Hat)).
  rewrite (bind_ok _ _ _ _ _ (run_get_graph _ _ Hg)).
  reflexivity.
Qed.

Lemma run_base_estimator_for LR s n e :
  resolved LR (self s) n = Some e -> _base_estimator_for LR n s = Ok e s.
Proof.
  unfold resolved, _base_estimator_for, get_self. rewrite bind_unfold. cbn.
  destruct (base_estimator (self s)) as [|d dflt|e'|f]; cbn.
  - intros [= <-]. reflexivity.
  - destruct (d !! n) as [e'|]; cbn.
    + intros [= <-]. reflexivity.
    + intros ->. reflexivity.
  - intros [= <-]. reflexivity.
  - destruct (graph_ (self s)) as [g|] eqn:Hg; cbn; [|discriminate].
    intros [= <-]. rewrite bind_unfold.
    rewrite (bind_ok _ _ _ _ _ (run_get_graph _ _ Hg)). reflexivity.
Qed.

(** ** [np.unique] keeps exactly the values of its argument *)

Lemma elem_of_insert_sorted x y l :
  x ∈ np.insert_sorted y l <-> x = y \/ x ∈ l.
Proof.
  induction l as [|z l IH]; cbn.
  - rewrite list_elem_of_singleton. set_solver.
  - destruct (decide (y = z)) as [->|Hne].
    + set_solver.
    + destruct (np.node_ltb y z); set_solver.
Qed.

Lemma elem_of_unique x l : x ∈ np.unique l <-> x ∈ l.
Proof.
  induction l as [|y l IH]; cbn.
  - reflexivity.
  - rewrite elem_of_insert_sorted, IH. set_solver.
Qed.

Lemma unique_singleton_head l c :
  np.unique l = [c] -> exists l', l = c :: l'.
Proof.
  intros H. destruct l as [|c0 l']; [discriminate|].
  exists l'. f_equal.
  assert (Hin : c0 ∈ np.unique (c0 :: l')) by (apply elem_of_unique; left).
  rewrite H in Hin. apply list_elem_of_singleton in Hin. exact Hin.
Qed.

Lemma insert_as_alter (m : gmap node node_attrs) (n : node)
    (f : node_attrs -> node_attrs) (a : node_attrs) :
  m !! n = Some a -> <[n := f a]> m = alter f n m.
Proof.
  intros Ha. apply map_eq. intros k. rewrite lookup_alter.
  destruct (decide (n = k)) as [<-|Hk].
  - rewrite lookup_insert_eq, Ha. reflexivity.
  - rewrite lookup_insert_ne by exact Hk. reflexivity.
Qed.

(** Unfolds the plumbing of the monad in the goal. *)
Ltac run_m :=
  cbv beta iota zeta
      delta [mbind M_bind mret M_ret logger raise get_self put_self
             from_option set_estimator log_more];
  cbn [self logged].

(** ** The decision table of [_train_local_classifier] *)

Section DecisionTable.
Variable LogisticRegression : sklearn.estimator.
Variables (X : features) (y : labels) (n : node) (s : state).
Variables (X_ : features) (y_ : targets).
Hypothesis Htrains : trains_at s n = true.
Hypothesis Hreturned : returned (training_pair X y n s) = Some (X_, y_).

Let Hpair : training_pair X y n s = Ok (X_, y_) s :=
  training_pair_returned X y n s (X_, y_) Hreturned.

Let num_targets : nat := length (np.unique_targets y_).
Let s1 : state :=
  log_more s [Debug_training n (sklearn.num_targets_rows y_) num_targets].

(** Up to the decision table. *)
Lemma train_prefix :
  _train_local_classifier LogisticRegression X y n s
  = (if String.eqb (feature_extraction (self s)) "preprocessed"
        && Nat.eqb (sklearn.num_rows X_) 0 then
       logger (Warning_not_enough_data n)
     else
       clf ← (if Nat.eqb num_targets 1 then
                constant ← first_target y_;
                logger (Debug_single_target n constant);;
                mret (sklearn.new (sklearn.DummyClassifier constant))
              else
                e ← _base_estimator_for LogisticRegression n;
                mret (sklearn.new e));
       clf ← (if String.eqb (feature_extraction (self s)) "raw" then
                if Nat.ltb 0 (sklearn.num_rows X_) then
                  clf' ← clf_fit clf X_ y_;
                  logger (Debug_training_node n);;
                  nodes_update n (set_CLASSIFIER clf');;
                  mret clf'
                else
                  logger (Debug_could_not_train n);;
                  mret clf
              else
                clf' ← clf_fit clf X_ y_;
                nodes_update n (set_CLASSIFIER clf');;
                mret clf');
       set_estimator n clf) s1.
Proof.
  unfold trains_at in Htrains.
  destruct (succ_of s n) as [cs|] eqn:Hcs; [|discriminate].
  apply negb_true_iff in Htrains.
  unfold _train_local_classifier.
  rewrite (bind_ok _ _ _ _ _ (run_out_degree _ _ _ Hcs)).
  rewrite bind_unfold. cbn [get_self]. rewrite Htrains.
  rewrite (bind_ok _ _ _ _ _ Hpair). cbn beta iota.
  rewrite bind_unfold. reflexivity.
Qed.

Lemma train_preprocessed_empty :
  String.eqb (feature_extraction (self s)) "preprocessed" = true ->
  sklearn.num_rows X_ = 0%nat ->
  _train_local_classifier LogisticRegression X y n s
  = Ok tt (log_more s1 [Warning_not_enough_data n]).
Proof.
  intros Hfe Hrows. rewrite train_prefix, Hfe, Hrows. reflexivity.
Qed.

Lemma train_raw_empty e :
  String.eqb (feature_extraction (self s)) "raw" = true ->
  sklearn.num_rows X_ = 0%nat ->
  resolved LogisticRegression (self s) n = Some e ->
  exists (clf : sklearn.clf_obj) (rs : list log_record),
    sklearn.fitted clf = None
    /\ _train_local_classifier LogisticRegression X y n s
       = Ok tt {| self := with_estimators_ (<[n := clf]> (estimators_ (self s)))
                            (self s);
                  logged := logged s ++ rs |}.
Proof.
  intros Hfe Hrows He. rewrite train_prefix.
  assert (Hpre : String.eqb (feature_extraction (self s)) "preprocessed" = false).
  { apply String.eqb_eq in Hfe. rewrite Hfe. reflexivity. }
  rewrite Hpre, Hfe, Hrows. cbn [andb Nat.ltb Nat.leb].
  destruct (Nat.eqb num_targets 1) eqn:Hnt.
  - assert (Hft : exists c, first_target y_ s1 = Ok c s1).
    { subst num_targets. apply Nat.eqb_eq in Hnt.
      destruct y_ as [l|m]; cbn in Hnt |- *.
      - destruct l as [|c l]; [discriminate|]. eexists; reflexivity.
      - destruct m as [|r m]; [discriminate|]. eexists; reflexivity. }
    destruct Hft as [c Hc].
    exists (sklearn.new (sklearn.DummyClassifier c)). eexists. split; [reflexivity|].
    rewrite bind_unfold, (bind_ok _ _ _ _ _ Hc). subst s1. run_m.
    rewrite <- !app_assoc. reflexivity.
  - exists (sklearn.new e). eexists. split; [reflexivity|].
    rewrite bind_unfold.
    rewrite (bind_ok _ _ _ _ _ (run_base_estimator_for _ s1 n e He)).
    subst s1. run_m. rewrite <- !app_assoc. reflexivity.
Qed.

Lemma train_single_target (l : list node) (c : node) (a : node_attrs) :
  y_ = T1 l ->
  np.unique l = [c] ->
  sklearn.num_rows X_ = length l ->
  attrs_of s n = Some a ->
  exists (f : sklearn.classifier) (rs : list log_record),
    let clf := {| sklearn.params := sklearn.DummyClassifier (LNode c);
                  sklearn.fitted := Some f |} in
    sklearn.classes_ f = [c]
    /\ (forall x, sklearn.predict_proba f x
                  = replicate (sklearn.num_samples x) [1%float])
    /\ _train_local_classifier LogisticRegression X y n s
       = Ok tt {| self := store_classifier n clf (self s);
                  logged := logged s ++ rs |}.
Proof.
  intros Hy Hu Hrows Ha.
  destruct (unique_singleton_head _ _ Hu) as [l' Hl].
  assert (Hlen : sklearn.num_rows X_ <> 0%nat) by (rewrite Hrows, Hl; discriminate).
  unfold attrs_of in Ha.
  destruct (graph_ (self s)) as [g|] eqn:Hg; [|discriminate]. cbn in Ha.
  set (f := {| sklearn.classes_ := [c];
               sklearn.predict_proba := fun x =>
                 replicate (sklearn.num_samples x)
                   (map (fun k => if decide (k = c) then 1%float else 0%float) [c]);
               sklearn.decision_function := None |}).
  assert (Hpp : forall x, sklearn.predict_proba f x
                          = replicate (sklearn.num_samples x) [1%float]).
  { intros x. cbn. destruct (decide (c = c)); [reflexivity | contradiction]. }
  assert (Hfit : sklearn.fit (sklearn.DummyClassifier (LNode c)) X_ y_ = inr f).
  { rewrite Hy. cbn. rewrite Hrows, Nat.eqb_refl. cbn.
    rewrite Hu. rewrite bool_decide_eq_true_2 by (left). reflexivity. }
  exists f.
  cut (exists rs,
         _train_local_classifier LogisticRegression X y n s
         = Ok tt {| self := store_classifier n
                              {| sklearn.params := sklearn.DummyClassifier (LNode c);
                                 sklearn.fitted := Some f |} (self s);
                    logged := logged s ++ rs |}).
  { intros [rs Hrs]. exists rs. cbn zeta. auto. }
  rewrite train_prefix.
  replace (Nat.eqb (sklearn.num_rows X_) 0) with false
    by (symmetry; apply Nat.eqb_neq; exact Hlen).
  rewrite andb_false_r.
  replace (Nat.eqb num_targets 1) with true
    by (subst num_targets; rewrite Hy; cbn; rewrite Hu; reflexivity).
  replace (Nat.ltb 0 (sklearn.num_rows X_)) with true
    by (symmetry; apply Nat.ltb_lt; lia).
  assert (Hft : first_target y_ s1 = Ok (LNode c) s1)
    by (rewrite Hy, Hl; reflexivity).
  rewrite bind_unfold, (bind_ok _ _ _ _ _ Hft).
  unfold clf_fit.
  destruct (String.eqb (feature_extraction (self s)) "raw") eqn:Hfe;
    eexists;
    subst s1; run_m; cbn [sklearn.params sklearn.new]; rewrite Hfit; run_m;
    (erewrite run_nodes_update; [| cbn [self]; exact Hg | exact Ha]);
    run_m; unfold store_classifier; rewrite Hg;
    rewrite (insert_as_alter _ _ _ _ Ha), <- !app_assoc; reflexivity.
Qed.

End DecisionTable.

Lemma store_classifier_lookup (o : HierarchicalClassifier) (g : nx.DiGraph)
    (n : node) (a : node_attrs) (clf : sklearn.clf_obj) (rs : list log_record) :
  graph_ o = Some g -> nx._node g !! n = Some a ->
  let s' := {| self := store_classifier n clf o; logged := rs |} in
  classifier_of s' n = Some clf
  /\ estimators_ (self s') !! n = Some clf.
Proof.
  intros Hg Ha. cbn zeta. unfold classifier_of, attrs_of, store_classifier.
  rewrite Hg. cbn. rewrite lookup_alter, decide_True by reflexivity.
  rewrite Ha. cbn. split; [reflexivity | apply lookup_insert_eq].
Qed.

(** ** The feature builder: what a run does to the caches and the log *)

Lemma post_quiet {A} (m : M A) s (Q : A -> state -> Prop)
    (R : exn -> state -> Prop) :
  (forall P, preserves P m) ->
  (forall a, returned (m s) = Some a -> Q a s) -> (forall e, R e s) ->
  post m s Q R.
Proof.
  intros Hm HQ HR. specialize (Hm (fun s' => s' = s) s eq_refl).
  unfold post in *. destruct (m s) as [a s'|e s'|]; [subst s'..|exact I].
  - apply HQ. reflexivity.
  - apply HR.
Qed.

Lemma nodes_getitem_returned s n a :
  returned (nodes_getitem n s) = Some a -> attrs_of s n = Some a.
Proof.
  unfold nodes_getitem, get_graph, attrs_of. run_m.
  destruct (graph_ (self s)) as [g|]; cbn; [|discriminate].
  destruct (nx._node g !! n); cbn; congruence.
Qed.

Lemma nodes_X_returned s n c :
  returned (nodes_X n s) = Some c -> cache_of s n = Some c.
Proof.
  unfold nodes_X, cache_of. rewrite bind_unfold.
  destruct (nodes_getitem n s) as [a s'| |] eqn:Hn; try discriminate.
  assert (Ha : attrs_of s n = Some a)
    by (apply nodes_getitem_returned; rewrite Hn; reflexivity).
  rewrite Ha. cbn. destruct (attr_X a); cbn; congruence.
Qed.

Lemma successors_returned s n cs :
  returned (successors n s) = Some cs -> succ_of s n = Some cs.
Proof.
  unfold successors, get_graph, succ_of. run_m.
  destruct (graph_ (self s)) as [g|]; cbn; [|discriminate].
  destruct (nx._succ g !! n); cbn; congruence.
Qed.

(** [nodes_update] rewrites one attribute bag and nothing else. *)
Lemma post_nodes_update n f s (Q : unit -> state -> Prop)
    (R : exn -> state -> Prop) :
  (forall s' a,
     attrs_of s n = Some a ->
     logged s' = logged s ->
     attrs_of s' n = Some (f a) ->
     (forall m, m ≠ n -> attrs_of s' m = attrs_of s m) ->
     (forall m, succ_of s' m = succ_of s m) ->
     Q tt s') ->
  (forall e, R e s) ->
  post (nodes_update n f) s Q R.
Proof.
  intros HQ HR. unfold post.
  destruct (attrs_of s n) as [a|] eqn:Ha.
  - pose proof Ha as Ha'. unfold attrs_of in Ha'.
    destruct (graph_ (self s)) as [g|] eqn:Hg; [|discriminate]. cbn in Ha'.
    rewrite (run_nodes_update s n a g f Hg Ha').
    apply (HQ _ a eq_refl); unfold attrs_of, succ_of; cbn.
    + reflexivity.
    + apply lookup_insert_eq.
    + intros m Hm. rewrite Hg. cbn. apply lookup_insert_ne. congruence.
    + intros m. rewrite Hg. reflexivity.
  - unfold nodes_update. rewrite bind_unfold.
    destruct (nodes_getitem n s) as [a s'|e s'|] eqn:Hn.
    + assert (Ha' : attrs_of s n = Some a)
        by (apply nodes_getitem_returned; rewrite Hn; reflexivity).
      congruence.
    + assert (Hs : s' = s).
      { pose proof (preserves_nodes_getitem (fun s' => s' = s) n s eq_refl) as H.
        unfold post in H. rewrite Hn in H. exact H. }
      subst s'. apply HR.
    + exact I.
Qed.

Lemma cache_of_update_X (s' : state) n v a :
  attrs_of s' n = Some (set_X v a) -> cache_of s' n = Some v.
Proof. unfold cache_of. intros ->. reflexivity. Qed.

Lemma cache_of_same_attrs (s s' : state) m :
  attrs_of s' m = attrs_of s m -> cache_of s' m = cache_of s m.
Proof. unfold cache_of. intros ->. reflexivity. Qed.

Section BuildEffect.
Implicit Types (s : state) (ns : list node).

Lemma build_done_refl s : build_done s s [].
Proof.
  split; [split| |].
  - cbn. rewrite app_nil_r. reflexivity.
  - constructor.
  - intros m Hm. inversion Hm.
  - auto.
  - intros m Hm. inversion Hm.
  - intros m Hnone [c Hc]. congruence.
Qed.

Lemma build_effect_trans s s1 s2 ns1 ns2 :
  build_done s s1 ns1 -> build_effect s1 s2 ns2 ->
  build_effect s s2 (ns1 ++ ns2).
Proof.
  intros [[Hl1 Hd1 Hf1 Hk1] Hc1 Ho1] [Hl2 Hd2 Hf2 Hk2]. split.
  - rewrite Hl2, Hl1, map_app, app_assoc. reflexivity.
  - apply NoDup_app. split; [exact Hd1|]. split; [|exact Hd2].
    intros m Hm1 Hm2. apply Hc1 in Hm1 as [c Hc]. apply Hf2 in Hm2. congruence.
  - intros m Hm. apply elem_of_app in Hm as [Hm|Hm]; [auto|].
    apply Hf2 in Hm. destruct (cache_of s m) as [c|] eqn:Hc; [|reflexivity].
    apply Hk1 in Hc. congruence.
  - auto.
Qed.

Lemma build_done_trans s s1 s2 ns1 ns2 :
  build_done s s1 ns1 -> build_done s1 s2 ns2 ->
  build_done s s2 (ns1 ++ ns2).
Proof.
  intros H1 H2. split.
  - apply (build_effect_trans _ s1); [exact H1 | apply H2].
  - intros m Hm. apply elem_of_app in Hm as [Hm|Hm].
    + apply (bd_cached _ _ _ H1) in Hm as [c Hc].
      exists c. apply (be_keep _ _ _ (bd_effect _ _ _ H2)). exact Hc.
    + apply (bd_cached _ _ _ H2). exact Hm.
  - intros m Hnone Hsome. apply elem_of_app.
    destruct (cache_of s1 m) as [c|] eqn:Hc.
    + left. apply (bd_only _ _ _ H1); [exact Hnone | rewrite Hc; eauto].
    + right. apply (bd_only _ _ _ H2); assumption.
Qed.

(** A step that only rewrites the cache of a node already built. *)
Lemma build_done_rewrite s s1 s2 ns n :
  build_done s s1 ns -> n ∈ ns ->
  logged s2 = logged s1 ->
  is_Some (cache_of s2 n) ->
  (forall m, m ≠ n -> cache_of s2 m = cache_of s1 m) ->
  build_done s s2 ns.
Proof.
  intros [[Hl Hd Hf Hk] Hc Ho] Hn Hlog Hsome Hother. split; [split| |].
  - rewrite Hlog. exact Hl.
  - exact Hd.
  - exact Hf.
  - intros m c Hm. destruct (decide (m = n)) as [->|Hne].
    + rewrite (Hf n Hn) in Hm. discriminate.
    + rewrite (Hother m Hne). auto.
  - intros m Hm. destruct (decide (m = n)) as [->|Hne]; [exact Hsome|].
    rewrite (Hother m Hne). auto.
  - intros m Hnone Hs. destruct (decide (m = n)) as [->|Hne]; [exact Hn|].
    rewrite (Hother m Hne) in Hs. auto.
Qed.

Lemma build_effect_rewrite s s1 s2 ns n :
  build_effect s s1 ns -> n ∈ ns ->
  logged s2 = logged s1 ->
  (forall m, m ≠ n -> cache_of s2 m = cache_of s1 m) ->
  build_effect s s2 ns.
Proof.
  intros [Hl Hd Hf Hk] Hn Hlog Hother. split.
  - rewrite Hlog. exact Hl.
  - exact Hd.
  - exact Hf.
  - intros m c Hm. destruct (decide (m = n)) as [->|Hne].
    + rewrite (Hf n Hn) in Hm. discriminate.
    + rewrite (Hother m Hne). auto.
Qed.

(** The announcement of a node that has no cache yet. *)
Lemma build_effect_announce s n :
  cache_of s n = None ->
  build_effect s {| self := self s;
                    logged := logged s ++ [Debug_building_features n] |} [n].
Proof.
  intros Hn. split; cbn.
  - reflexivity.
  - apply NoDup_singleton.
  - intros m Hm. apply list_elem_of_singleton in Hm as ->. exact Hn.
  - auto.
Qed.

Lemma build_effect_done s s' ns :
  build_effect s s' ns ->
  (forall m, m ∈ ns -> is_Some (cache_of s' m)) ->
  (forall m, m ∉ ns -> cache_of s' m = cache_of s m) ->
  build_done s s' ns.
Proof.
  intros He Hc Ho. split; [exact He | exact Hc |].
  intros m Hnone Hsome. destruct (decide (m ∈ ns)) as [Hin|Hout]; [exact Hin|].
  rewrite (Ho m Hout), Hnone in Hsome. destruct Hsome; discriminate.
Qed.

End BuildEffect.

#[local] Hint Resolve preserves_get_graph preserves_nodes_getitem
  preserves_successors preserves_out_degree preserves_nodes_X
  preserves_take_labels preserves_take_rows preserves_training_pair
  preserves_index1 preserves_index2 preserves_as_scalar preserves_score_lt
  preserves_score_example : preserves.

Lemma preserves_features_add P a b : preserves P (features_add a b).
Proof. unfold features_add. preserves_tac. Qed.

Lemma preserves_csr_zeros P X : preserves P (csr_zeros X).
Proof. unfold csr_zeros. preserves_tac. Qed.

Lemma preserves_build_features P X y ix : preserves P (_build_features X y ix).
Proof. unfold _build_features. preserves_tac. Qed.

Lemma preserves_build_metafeatures P X y : preserves P (_build_metafeatures X y).
Proof. unfold _build_metafeatures. preserves_tac. Qed.

#[local] Hint Resolve preserves_features_add preserves_csr_zeros
  preserves_build_features preserves_build_metafeatures : preserves.

(** A step that leaves the state alone: continue with its value. *)
Ltac quiet_bind :=
  apply post_bind; apply post_quiet;
  [ intros ?; eauto with preserves | intros ? ? | intros ? ].

Lemma build_post fuel :
  forall X y n s,
    post (_recursive_build_features fuel X y n) s
         (fun _ s' => exists ns, build_done s s' ns)
         (fun _ s' => exists ns, build_effect s s' ns).
Proof.
  induction fuel as [|fuel IH]; intros X y n s; [exact I|].
  cbn [_recursive_build_features].
  assert (Hstay : exists ns, build_effect s s ns)
    by (exists []; apply build_done_refl).
  quiet_bind; [|exact Hstay].
  match goal with H : returned _ = Some ?a |- _ =>
    apply nodes_getitem_returned in H; rename H into Ha; rename a into a0 end.
  destruct (attr_X a0) as [cached|] eqn:HX.
  { apply post_ret. exists []. apply build_done_refl. }
  assert (Hnone : cache_of s n = None)
    by (unfold cache_of; rewrite Ha; exact HX).
  apply post_bind, post_logger.
  set (s1 := {| self := self s;
                logged := logged s ++ [Debug_building_features n] |}).
  pose proof (build_effect_announce s n Hnone) as E1. fold s1 in E1.
  assert (Hs1 : exists ns, build_effect s s1 ns) by eauto.
  assert (Hin : n ∈ [n]) by (left).
  quiet_bind; [|exact Hs1].
  match goal with |- post (if ?b then _ else _) _ _ _ => destruct b end.
  - (* Leaf node *)
    quiet_bind; [|exact Hs1].
    apply post_bind, post_nodes_update; [|intros; exact Hs1].
    intros s2 old_attrs Hold Hlog Hset Hother Hsucc.
    assert (D2 : build_done s s2 [n]).
    { apply build_effect_done.
      - apply (build_effect_rewrite s s1 s2 [n] n E1 Hin Hlog).
        intros m Hm. apply cache_of_same_attrs, Hother, Hm.
      - intros m Hm. apply list_elem_of_singleton in Hm as ->.
        rewrite (cache_of_update_X s2 n _ _ Hset). eauto.
      - intros m Hm. rewrite list_elem_of_singleton in Hm.
        rewrite (cache_of_same_attrs s1 s2 m (Hother m Hm)). reflexivity. }
    apply post_quiet; [intros ?; eauto with preserves | eauto |].
    intros _. exists [n]. apply D2.
  - (* Non-leaf node *)
    apply post_bind, post_get_self.
    assert (Hinit : forall v,
               post (nodes_update n (set_X v)) s1
                    (fun _ s2 => build_done s s2 [n])
                    (fun _ s2 => exists ns, build_effect s s2 ns)).
    { intros v. apply post_nodes_update; [|intros; exact Hs1].
      intros s2 old_attrs Hold Hlog Hset Hother Hsucc.
      apply build_effect_done.
      - apply (build_effect_rewrite s s1 s2 [n] n E1 Hin Hlog).
        intros m Hm. apply cache_of_same_attrs, Hother, Hm.
      - intros m Hm. apply list_elem_of_singleton in Hm as ->.
        rewrite (cache_of_update_X s2 n _ _ Hset). eauto.
      - intros m Hm. rewrite list_elem_of_singleton in Hm.
        rewrite (cache_of_same_attrs s1 s2 m (Hother m Hm)). reflexivity. }
    apply post_bind.
    apply (post_weaken _ _ (fun _ s2 => build_done s s2 [n])
                       (fun _ s2 => exists ns, build_effect s s2 ns)).
    { destruct (String.eqb _ _); [apply Hinit|].
      quiet_bind; [apply Hinit | exact Hs1]. }
    2: { auto. }
    intros _ s2 D2. cbn beta.
    assert (Hs2 : exists ns, build_effect s s2 ns) by (eexists; apply D2).
    quiet_bind; [|exact Hs2].
    apply post_bind.
    apply (post_weaken _ _ (fun _ si => exists ns, build_done s si (n :: ns))
                       (fun _ si => exists ns, build_effect s si ns)).
    { apply post_for_each; [exists []; exact D2|].
      intros [] child si _ [ns Di]. unfold accumulate_child.
      assert (Hsi : exists ns, build_effect s si ns) by (eexists; apply Di).
      quiet_bind; [|exact Hsi].
      apply post_bind.
      eapply post_weaken; [apply IH | |].
      2: { intros e sj [ns' Ej]. eexists.
           apply (build_effect_trans s si sj _ _ Di Ej). }
      intros sub sj [ns' Dj]. cbn beta.
      pose proof (build_done_trans s si sj _ _ Di Dj) as Dij.
      assert (Hsj : exists ns, build_effect s sj ns) by (eexists; apply Dij).
      quiet_bind; [|exact Hsj].
      apply post_nodes_update; [|intros; exact Hsj].
      intros sk old_attrs Hold Hlog Hset Hother Hsucc.
      exists (ns ++ ns').
      apply (build_done_rewrite s sj sk ((n :: ns) ++ ns') n Dij).
      - left.
      - exact Hlog.
      - rewrite (cache_of_update_X sk n _ _ Hset). eauto.
      - intros m Hm. apply cache_of_same_attrs, Hother, Hm. }
    2: { auto. }
    intros _ sl [ns Dl]. cbn beta.
    assert (Hsl : exists ns, build_effect s sl ns) by (eexists; apply Dl).
    (* Build and store metafeatures for node *)
    quiet_bind; [|exact Hsl].
    quiet_bind; [|exact Hsl].
    apply post_bind, post_nodes_update; [|intros; exact Hsl].
    intros sm old_attrs Hold Hlog Hset Hother Hsucc.
    assert (Dm : build_done s sm (n :: ns)).
    { apply (build_done_rewrite s sl sm (n :: ns) n Dl).
      - left.
      - exact Hlog.
      - unfold cache_of. rewrite Hset. cbn.
        destruct (bd_cached _ _ _ Dl n) as [c Hc]; [left|].
        unfold cache_of in Hc. rewrite Hold in Hc. cbn in Hc. rewrite Hc. eauto.
      - intros m Hm. apply cache_of_same_attrs, Hother, Hm. }
    assert (Hsm : exists ns, build_effect s sm ns) by (eexists; apply Dm).
    destruct (negb _).
    + apply post_quiet; [intros ?; eauto with preserves | eauto | auto].
    + quiet_bind; [|exact Hsm].
      quiet_bind; [|exact Hsm].
      apply post_quiet; [intros ?; eauto with preserves | eauto | auto].
Qed.

(** ** Training leaves the feature caches alone *)

Lemma built_nodes_app l1 l2 :
  built_nodes (l1 ++ l2) = built_nodes l1 ++ built_nodes l2.
Proof. unfold built_nodes. apply omap_app. Qed.

Lemma built_nodes_announcements ns :
  built_nodes (map Debug_building_features ns) = ns.
Proof.
  unfold built_nodes. induction ns as [|n ns IH]; cbn; [reflexivity|].
  f_equal. exact IH.
Qed.

Section SameCaches.
Variable s0 : state.

Lemma same_caches_logger r :
  built_nodes [r] = [] -> preserves (same_caches s0) (logger r).
Proof.
  intros Hr. apply preserves_logger_record. intros s [Hc Hl]. split.
  - exact Hc.
  - cbn. rewrite built_nodes_app, Hr, app_nil_r. exact Hl.
Qed.

Lemma same_caches_nodes_update n f :
  (forall a, attr_X (f a) = attr_X a) ->
  preserves (same_caches s0) (nodes_update n f).
Proof.
  intros Hf s [Hc Hl]. apply post_nodes_update.
  - intros s' a Ha Hlog Hset Hother Hsucc. split; [|rewrite Hlog; exact Hl].
    intros m. rewrite <- Hc. unfold cache_of.
    destruct (decide (m = n)) as [->|Hm].
    + rewrite Hset, Ha. cbn. apply Hf.
    + rewrite (Hother m Hm). reflexivity.
  - intros _. split; assumption.
Qed.

Lemma same_caches_set_estimator n clf :
  preserves (same_caches s0) (set_estimator n clf).
Proof. intros s Hs. exact Hs. Qed.

Lemma preserves_first_target P y_ : preserves P (first_target y_).
Proof. unfold first_target. preserves_tac. Qed.

Lemma preserves_clf_fit P clf X_ y_ : preserves P (clf_fit clf X_ y_).
Proof. unfold clf_fit. preserves_tac. Qed.

Lemma preserves_base_estimator_for P LR n :
  preserves P (_base_estimator_for LR n).
Proof. unfold _base_estimator_for. preserves_tac. Qed.

Hint Resolve same_caches_logger same_caches_nodes_update
  same_caches_set_estimator preserves_first_target preserves_clf_fit
  preserves_base_estimator_for : preserves.

Lemma same_caches_train LR X y n :
  preserves (same_caches s0) (_train_local_classifier LR X y n).
Proof. unfold _train_local_classifier. preserves_tac. Qed.

Lemma same_caches_recursive_train fuel LR X y :
  forall n,
    preserves (same_caches s0) (_recursive_train_local_classifiers fuel LR X y n).
Proof.
  induction fuel as [|fuel IH]; intros n; [intros s Hs; exact I|].
  cbn [_recursive_train_local_classifiers].
  pose proof (same_caches_train LR X y n).
  preserves_tac.
Qed.

End SameCaches.

Lemma same_caches_refl s : same_caches s s.
Proof. split; reflexivity. Qed.

Lemma bare_add_node n g : bare g -> bare (nx.add_node n g).
Proof.
  intros Hg m a. unfold nx.add_node.
  destruct (nx._node g !! n) eqn:Hn; [apply Hg|]. cbn.
  destruct (decide (n = m)) as [->|Hm].
  - rewrite lookup_insert_eq. congruence.
  - rewrite lookup_insert_ne by exact Hm. apply Hg.
Qed.

Lemma bare_add_edge u v g : bare g -> bare (nx.add_edge u v g).
Proof.
  intros Hg. unfold nx.add_edge.
  pose proof (bare_add_node v _ (bare_add_node u _ Hg)) as H.
  destruct (bool_decide _); exact H.
Qed.

Lemma bare_from_dict d : bare (nx.from_dict d).
Proof.
  unfold nx.from_dict.
  assert (H1 : forall l g, bare g ->
             bare (fold_left (fun g (kv : node * list node) =>
                                nx.add_node (fst kv) g) l g)).
  { induction l as [|kv l IH]; intros g Hg; [exact Hg|].
    cbn. apply IH, bare_add_node, Hg. }
  assert (H2 : forall u vs g, bare g ->
             bare (fold_left (fun g v => nx.add_edge u v g) vs g)).
  { induction vs as [|v vs IH]; intros g Hg; [exact Hg|].
    cbn. apply IH, bare_add_edge, Hg. }
  assert (H3 : forall l g, bare g ->
             bare (fold_left
                     (fun g (kv : node * list node) =>
                        fold_left (fun g v => nx.add_edge (fst kv) v g) (snd kv) g)
                     l g)).
  { induction l as [|kv l IH]; intros g Hg; [exact Hg|].
    cbn. apply IH, H2, Hg. }
  apply H3, H1. intros n a. cbn. rewrite lookup_empty. discriminate.
Qed.

(** ** One [fit]: every cache is built once *)

Lemma preserves_validate_X_y P X y : preserves P (validate_X_y X y).
Proof. unfold validate_X_y. preserves_tac. Qed.

Lemma preserves_check_parameters P : preserves P _check_parameters.
Proof. unfold _check_parameters. preserves_tac. Qed.

#[local] Hint Resolve preserves_validate_X_y preserves_check_parameters
  : preserves.

Lemma post_put_self o s (Q : unit -> state -> Prop) R :
  Q tt {| self := o; logged := logged s |} -> post (put_self o) s Q R.
Proof. intros H. exact H. Qed.

Lemma post_true {A} (m : M A) s (Q : A -> state -> Prop) :
  post m s Q (fun _ _ => True) ->
  forall a s', m s = Ok a s' -> Q a s'.
Proof. unfold post. intros H a s' E. rewrite E in H. exact H. Qed.

Lemma returned_state_after {A} (m : M A) s a :
  returned (m s) = Some a -> m s = Ok a (state_after m s).
Proof.
  unfold returned, state_after. destruct (m s); [|discriminate..].
  intros [= ->]. reflexivity.
Qed.

Lemma post_run {A} (m : M A) s :
  post m s (fun a s' => m s = Ok a s') (fun e s' => m s = Raise e s').
Proof. unfold post. destruct (m s); auto. Qed.

Lemma fit_post fuel LR X y sw o :
  post (fit fuel LR X y sw) {| self := o; logged := [] |}
       (fun _ s' =>
          NoDup (built_nodes (logged s'))
          /\ forall m, m ∈ built_nodes (logged s') <-> is_Some (cache_of s' m))
       (fun _ _ => True).
Proof.
  unfold fit.
  quiet_bind; [|exact I].
  apply post_bind.
  apply (post_quiet _ _ _ _); [intros P; destruct sw; preserves_tac | | auto].
  intros _ _.
  quiet_bind; [|exact I].
  apply post_bind, post_get_self. cbn [self].
  apply post_bind, post_put_self. cbn [logged].
  match goal with |- post _ ?st _ _ => set (s0 := st) end.
  assert (Hbare : forall m, cache_of s0 m = None).
  { intros m. unfold cache_of, attrs_of. cbn.
    destruct (nx._node _ !! m) as [b|] eqn:Hb; [|reflexivity].
    apply bare_from_dict in Hb. subst b. reflexivity. }
  assert (Htrain : forall s1 ns,
             build_done s0 s1 ns ->
             post (_recursive_train_local_classifiers fuel LR X a (root o)) s1
                  (fun _ s' =>
                     NoDup (built_nodes (logged s'))
                     /\ forall m, m ∈ built_nodes (logged s')
                                  <-> is_Some (cache_of s' m))
                  (fun _ _ => True)).
  { intros s1 ns D1.
    eapply post_weaken;
      [apply (same_caches_recursive_train s1), same_caches_refl | | auto].
    intros _ s' [Hc Hl]. cbn beta.
    rewrite Hl, (be_log _ _ _ (bd_effect _ _ _ D1)).
    cbn [logged s0]. cbn [app]. rewrite built_nodes_announcements.
    split; [apply (be_nodup _ _ _ (bd_effect _ _ _ D1))|].
    intros m. rewrite Hc. split.
    - apply (bd_cached _ _ _ D1).
    - apply (bd_only _ _ _ D1), Hbare. }
  apply post_bind.
  destruct (String.eqb _ _).
  - apply post_bind.
    eapply post_weaken; [apply build_post | | auto].
    intros _ s1 [ns D1]. cbn beta. apply post_ret. cbn beta.
    apply (Htrain s1 ns D1).
  - apply post_ret. apply (Htrain s0 []), build_done_refl.
Qed.

(** ** Reading a run backwards *)

Lemma bind_ok_inv {A B} (m : M A) (f : A -> M B) s b s' :
  (m ≫= f) s = Ok b s' -> exists a s1, m s = Ok a s1 /\ f a s1 = Ok b s'.
Proof.
  rewrite bind_unfold. destruct (m s) as [a s1| |]; [|discriminate..].
  intros H. exists a, s1. auto.
Qed.

Lemma quiet_ok_inv {A} (m : M A) s a s1 :
  (forall P, preserves P m) -> m s = Ok a s1 -> s1 = s.
Proof.
  intros Hm Hrun. specialize (Hm (fun s' => s' = s) s eq_refl).
  unfold post in Hm. rewrite Hrun in Hm. exact Hm.
Qed.

Lemma returned_ok {A} (m : M A) s a s1 : m s = Ok a s1 -> returned (m s) = Some a.
Proof. intros ->. reflexivity. Qed.

Lemma nodes_X_ok_inv s n c s1 :
  nodes_X n s = Ok c s1 -> s1 = s /\ cache_of s n = Some c.
Proof.
  intros H. split.
  - apply (quiet_ok_inv _ _ _ _ (fun P => preserves_nodes_X P n) H).
  - apply nodes_X_returned. rewrite H. reflexivity.
Qed.

Lemma features_add_ok_inv a b s v s1 :
  features_add a b s = Ok v s1 -> s1 = s /\ features_plus a b = inr v.
Proof.
  unfold features_add. destruct (features_plus a b); [discriminate|].
  intros [= -> ->]. auto.
Qed.

Lemma nodes_update_ok_inv n f s s1 :
  nodes_update n f s = Ok tt s1 ->
  exists a, attrs_of s n = Some a
            /\ attrs_of s1 n = Some (f a)
            /\ (forall m, m ≠ n -> attrs_of s1 m = attrs_of s m)
            /\ (forall m, succ_of s1 m = succ_of s m)
            /\ feature_extraction (self s1) = feature_extraction (self s).
Proof.
  intros Hrun.
  destruct (attrs_of s n) as [a|] eqn:Ha.
  - pose proof Ha as Ha'. unfold attrs_of in Ha'.
    destruct (graph_ (self s)) as [g|] eqn:Hg; [|discriminate]. cbn in Ha'.
    rewrite (run_nodes_update s n a g f Hg Ha') in Hrun.
    injection Hrun as <-. exists a. unfold attrs_of, succ_of; cbn.
    rewrite Hg. cbn. repeat split.
    + apply lookup_insert_eq.
    + intros m Hm. apply lookup_insert_ne. congruence.
  - exfalso. unfold nodes_update in Hrun.
    apply bind_ok_inv in Hrun as (a & s2 & Hget & _).
    assert (attrs_of s n = Some a)
      by (apply nodes_getitem_returned; rewrite Hget; reflexivity).
    congruence.
Qed.

(** The loop over the successors adds up what the children's builds
    return. *)
Lemma accumulate_children (build : node -> M features) (n : node) :
  forall (children : list node) (s s' : state) (c0 : features),
    cache_of s n = Some c0 ->
    for_each children (fun _ child => accumulate_child build n child) tt s
    = Ok tt s' ->
    exists rs c,
      Forall2 (fun child r => exists s1 s2, build child s1 = Ok r s2) children rs
      /\ features_sum c0 rs = Some c
      /\ cache_of s' n = Some c.
Proof.
  induction children as [|child children IH]; intros s s' c0 Hc Hrun.
  - injection Hrun as <-. exists [], c0. repeat split; [constructor | exact Hc].
  - cbn [for_each] in Hrun.
    apply bind_ok_inv in Hrun as ([] & sk & Hstep & Hrest).
    unfold accumulate_child in Hstep.
    apply bind_ok_inv in Hstep as (cur & s1 & Hcur & Hstep).
    apply nodes_X_ok_inv in Hcur as [-> Hcur].
    apply bind_ok_inv in Hstep as (r & sj & Hbuild & Hstep).
    apply bind_ok_inv in Hstep as (sum & s2 & Hsum & Hupd).
    apply features_add_ok_inv in Hsum as [-> Hsum].
    apply nodes_update_ok_inv in Hupd as (a & Ha & Hset & _).
    assert (cur = c0) by congruence. subst cur.
    destruct (IH sk s' sum (cache_of_update_X sk n _ _ Hset) Hrest)
      as (rs & c & Hrs & Hc' & Hcache).
    exists (r :: rs), c. repeat split.
    + constructor; [exists s, sj; exact Hbuild | exact Hrs].
    + cbn. rewrite Hsum. exact Hc'.
    + exact Hcache.
Qed.

(** The first build of an internal node. *)
Lemma build_internal fuel X y n s v s' children :
  cache_of s n = None ->
  succ_of s n = Some children -> children <> [] ->
  _recursive_build_features (S fuel) X y n s = Ok v s' ->
  exists z rs c,
    empty_cache (self s) X = Some z
    /\ Forall2 (returned_by_build fuel X y) children rs
    /\ features_sum z rs = Some c
    /\ cache_of s' n = Some c
    /\ if np.issubdtype n y
       then exists own, own_rows X y n s' = Some own
                        /\ features_plus c own = inr v
       else v = c.
Proof.
  intros Hnone Hsucc Hne Hrun. cbn [_recursive_build_features] in Hrun.
  apply bind_ok_inv in Hrun as (a & s1 & Hget & Hrun).
  pose proof (quiet_ok_inv _ _ _ _ (fun P => preserves_nodes_getitem P n) Hget).
  subst s1. apply returned_ok, nodes_getitem_returned in Hget.
  assert (HX : attr_X a = None)
    by (unfold cache_of in Hnone; rewrite Hget in Hnone; exact Hnone).
  rewrite HX in Hrun.
  apply bind_ok_inv in Hrun as ([] & s1 & Hlog & Hrun).
  injection Hlog as <-.
  set (s1 := {| self := self s;
                logged := logged s ++ [Debug_building_features n] |}) in *.
  assert (Hsucc1 : succ_of s1 n = Some children) by exact Hsucc.
  rewrite (bind_ok _ _ _ _ _ (run_out_degree s1 n children Hsucc1)) in Hrun.
  destruct children as [|child0 children0]; [contradiction|].
  cbn [length Nat.eqb] in Hrun.
  apply bind_ok_inv in Hrun as (o & s1' & Ho & Hrun).
  injection Ho as <- <-. cbn [self s1] in Hrun.
  apply bind_ok_inv in Hrun as ([] & s2 & Hinit & Hrun).
  assert (Hz : exists z, empty_cache (self s) X = Some z
                         /\ cache_of s2 n = Some z
                         /\ forall m, succ_of s2 m = succ_of s m).
  { unfold empty_cache.
    destruct (String.eqb (feature_extraction (self s)) "raw").
    - apply nodes_update_ok_inv in Hinit as (a1 & _ & Hset & _ & Hs & _).
      exists (FRaw []). repeat split; [|exact Hs].
      apply (cache_of_update_X s2 n _ _ Hset).
    - apply bind_ok_inv in Hinit as (z & s1' & Hzero & Hinit).
      unfold csr_zeros in Hzero. destruct X as [m|l]; [|discriminate].
      injection Hzero as <- <-.
      apply nodes_update_ok_inv in Hinit as (a1 & _ & Hset & _ & Hs & _).
      eexists. repeat split; [|exact Hs].
      apply (cache_of_update_X s2 n _ _ Hset). }
  destruct Hz as (z & Hz & Hc2 & Hs2).
  apply bind_ok_inv in Hrun as (cs & s2' & Hcs & Hrun).
  pose proof (quiet_ok_inv _ _ _ _ (fun P => preserves_successors P n) Hcs).
  subst s2'. apply returned_ok, successors_returned in Hcs.
  rewrite Hs2, Hsucc in Hcs. injection Hcs as <-.
  apply bind_ok_inv in Hrun as ([] & sl & Hloop & Hrun).
  destruct (accumulate_children _ n _ s2 sl z Hc2 Hloop)
    as (rs & c & Hrs & Hsum & Hcl).
  apply bind_ok_inv in Hrun as (cur & sl' & Hcur & Hrun).
  apply nodes_X_ok_inv in Hcur as [-> Hcur].
  apply bind_ok_inv in Hrun as (mf & sl' & Hmf & Hrun).
  pose proof (quiet_ok_inv _ _ _ _
                (fun P => preserves_build_metafeatures P cur y) Hmf).
  subst sl'.
  apply bind_ok_inv in Hrun as ([] & sm & Hupd & Hrun).
  apply nodes_update_ok_inv in Hupd as (am & Ham & Hset & _).
  assert (Hcm : cache_of sm n = Some c).
  { unfold cache_of. rewrite Hset. cbn.
    unfold cache_of in Hcl. rewrite Ham in Hcl. exact Hcl. }
  exists z, rs, c. repeat split; [exact Hz | exact Hrs | exact Hsum | |].
  - destruct (np.issubdtype n y); cbn [negb] in Hrun.
    + apply bind_ok_inv in Hrun as (cur' & sm' & Hcur' & Hrun).
      apply nodes_X_ok_inv in Hcur' as [-> _].
      apply bind_ok_inv in Hrun as (own & sm' & Hown & Hrun).
      pose proof (quiet_ok_inv _ _ _ _
                    (fun P => preserves_build_features P X y _) Hown).
      subst sm'.
      apply features_add_ok_inv in Hrun as [-> _]. exact Hcm.
    + apply nodes_X_ok_inv in Hrun as [-> _]. exact Hcm.
  - destruct (np.issubdtype n y); cbn [negb] in Hrun.
    + apply bind_ok_inv in Hrun as (cur' & sm' & Hcur' & Hrun).
      apply nodes_X_ok_inv in Hcur' as [-> Hcur'].
      apply bind_ok_inv in Hrun as (own & sm' & Hown & Hrun).
      pose proof (quiet_ok_inv _ _ _ _
                    (fun P => preserves_build_features P X y _) Hown).
      subst sm'.
      apply features_add_ok_inv in Hrun as [-> Hplus].
      exists own. split.
      * unfold own_rows. rewrite Hown. reflexivity.
      * congruence.
    + apply nodes_X_ok_inv in Hrun as [-> Hv]. congruence.
Qed.

(** ** The walk in multi-label mode *)

Lemma py_index_lt {A} (l : list A) z pos :
  py_index l z = Some pos -> (pos < length l)%nat.
Proof.
  unfold py_index. intros H.
  destruct ((0 <=? z) && (z <? Z.of_nat (length l))) eqn:E1.
  - injection H as <-. apply andb_true_iff in E1 as [H1 H2]. lia.
  - destruct ((z <? 0) && (- Z.of_nat (length l) <=? z)) eqn:E2; [|discriminate].
    injection H as <-. apply andb_true_iff in E2 as [H1 H2]. lia.
Qed.

Lemma py_index_insert {A} (l : list A) z pos (v : A) :
  py_index (<[pos := v]> l) z = py_index l z.
Proof. unfold py_index. rewrite length_insert. reflexivity. Qed.

Lemma py_get_set {A} (l l' : list A) z (v : A) :
  py_setitem l z v = Some l' -> py_getitem l' z = Some v.
Proof.
  unfold py_setitem, py_getitem.
  destruct (py_index l z) as [pos|] eqn:Hp; [|discriminate].
  intros [= <-]. rewrite py_index_insert, Hp.
  apply list_lookup_insert_eq, (py_index_lt _ _ _ Hp).
Qed.

#[local] Arguments fanout_targets : simpl never.

Section MultiLabel.
Variables (s : state) (b : preprocessing.MultiLabelBinarizer).
Hypothesis Hmlb : mlb (self s) = Some b.
Variables (row : list float) (argmax : nat) (path : list node).

Let threshold : float := mlb_prediction_threshold (self s).

(** One turn of the scatter loop. *)
Lemma scatter_turn_mlb v entry v' s' :
  scatter_class (Arr2 [row]) argmax path v entry s = Ok v' s' ->
  s' = s
  /\ exists q z pos,
      row !! fst entry = Some q /\ class_index (snd entry) = Some z
      /\ py_index (class_proba v) z = Some pos
      /\ class_proba v' = <[pos := q]> (class_proba v)
      /\ prediction v' = prediction v
      /\ predictions v'
         = predictions v
           ++ fanout_targets threshold (preprocessing.classes_ b) [entry] row.
Proof.
  destruct entry as [i k]. unfold scatter_class, index2. run_m. rewrite Hmlb.
  cbn [head fst snd].
  assert (Hone : forall q z,
             row !! i = Some q -> class_index k = Some z ->
             fanout_targets threshold (preprocessing.classes_ b) [(i, k)] row
             = if PrimFloat.ltb threshold q
               then match py_getitem (preprocessing.classes_ b) z with
                    | Some name => [name]
                    | None => []
                    end
               else []).
  { intros q z Hq Hz. unfold fanout_targets. cbn [omap list_omap fst snd].
    rewrite Hq, Hz. cbn. destruct (PrimFloat.ltb threshold q); [|reflexivity].
    destruct (py_getitem (preprocessing.classes_ b) z); reflexivity. }
  destruct (row !! i) as [q|] eqn:Hq; cbn; [|discriminate].
  destruct k as [z|str]; cbn; [|discriminate].
  rewrite (Hone q z eq_refl eq_refl).
  unfold py_setitem.
  destruct (py_index (class_proba v) z) as [pos|] eqn:Hpos; cbn; [|discriminate].
  assert (Hget : py_getitem (<[pos := q]> (class_proba v)) z = Some q).
  { apply (py_get_set (class_proba v)). unfold py_setitem. rewrite Hpos.
    reflexivity. }
  rewrite Hget. cbn. fold threshold.
  destruct (PrimFloat.ltb threshold q).
  - destruct (py_getitem (preprocessing.classes_ b) z) as [name|]; cbn;
      [|discriminate].
    intros [= <- <-]. split; [reflexivity|]. exists q, z, pos. cbn.
    repeat split; auto.
  - intros [= <- <-]. split; [reflexivity|]. exists q, z, pos. cbn.
    rewrite app_nil_r. repeat split; auto.
Qed.

Lemma writes_at_insert cp pos (q : float) entry :
  writes_at (<[pos := q]> cp) entry = writes_at cp entry.
Proof.
  unfold writes_at. destruct (class_index (snd entry)); cbn; [|reflexivity].
  apply py_index_insert.
Qed.

(** The whole scatter loop. *)
Lemma scatter_loop_mlb entries :
  forall v v' s',
    for_each entries (scatter_class (Arr2 [row]) argmax path) v s = Ok v' s' ->
    s' = s
    /\ predictions v'
       = predictions v
         ++ fanout_targets threshold (preprocessing.classes_ b) entries row
    /\ prediction v' = prediction v
    /\ length (class_proba v') = length (class_proba v)
    /\ (forall j entry pos,
          entries !! j = Some entry ->
          writes_at (class_proba v) entry = Some pos ->
          (forall j' entry', (j < j')%nat -> entries !! j' = Some entry' ->
                             writes_at (class_proba v) entry' <> Some pos) ->
          class_proba v' !! pos = row !! fst entry)
    /\ (forall pos,
          (forall entry, entry ∈ entries ->
                         writes_at (class_proba v) entry <> Some pos) ->
          class_proba v' !! pos = class_proba v !! pos)
    /\ (forall entry, entry ∈ entries ->
                      is_Some (writes_at (class_proba v) entry)).
Proof.
  induction entries as [|e entries IH]; intros v v' s' Hrun.
  - injection Hrun as <- <-. unfold fanout_targets. cbn. rewrite app_nil_r.
    repeat split; try reflexivity.
    + intros j entry pos Hj. rewrite lookup_nil in Hj. discriminate.
    + intros entry Hin. inversion Hin.
  - cbn [for_each] in Hrun.
    apply bind_ok_inv in Hrun as (v1 & s1 & Hturn & Hrest).
    apply scatter_turn_mlb in Hturn
      as (-> & q & z & pos0 & Hq & Hz & Hpos0 & Hcp & Hpred & Hpreds).
    destruct (IH v1 v' s' Hrest)
      as (Hs & Hps & Hp & Hlen & Hwrite & Hkeep & Hvalid).
    assert (Hw : forall entry, writes_at (class_proba v1) entry
                               = writes_at (class_proba v) entry)
      by (intros; rewrite Hcp; apply writes_at_insert).
    assert (Hw0 : writes_at (class_proba v) e = Some pos0)
      by (unfold writes_at; rewrite Hz; exact Hpos0).
    split; [exact Hs|]. split.
    { rewrite Hps, Hpreds, <- app_assoc. f_equal.
      unfold fanout_targets. cbn [omap list_omap fst snd]. rewrite Hq, Hz. cbn.
      destruct (PrimFloat.ltb threshold q); [|reflexivity].
      destruct (py_getitem (preprocessing.classes_ b) z); reflexivity. }
    split; [congruence|]. split; [rewrite Hlen, Hcp; apply length_insert|].
    split; [|split].
    + intros [|j] entry pos Hj Hpos Hlater.
      * injection Hj as <-.
        assert (pos = pos0) by congruence. subst pos.
        rewrite Hkeep.
        -- rewrite Hcp, Hq. apply list_lookup_insert_eq.
           apply (py_index_lt _ _ _ Hpos0).
        -- intros entry' Hin. rewrite Hw.
           apply list_elem_of_lookup in Hin as [j' Hj'].
           apply (Hlater (S j') entry'); [lia | exact Hj'].
      * apply (Hwrite j entry pos Hj); [rewrite Hw; exact Hpos|].
        intros j' entry' Hlt Hj'. rewrite Hw.
        apply (Hlater (S j') entry'); [lia | exact Hj'].
    + intros pos Hnone. rewrite Hkeep.
      * rewrite Hcp. apply list_lookup_insert_ne. intros ->.
        apply (Hnone e); [left | exact Hw0].
      * intros entry Hin. rewrite Hw. apply Hnone. right. exact Hin.
    + intros entry Hin. apply elem_of_cons in Hin as [->|Hin].
      * rewrite Hw0. eauto.
      * rewrite <- Hw. apply Hvalid, Hin.
Qed.

(** [_recursive_predict] returns a path and a vector, or neither. *)
Lemma walk_result_shape fuel x n s0 r s1 :
  _recursive_predict fuel x n s0 = Ok r s1 ->
  r = (None, None) \/ exists p v, r = (Some p, Some v).
Proof.
  destruct fuel as [|fuel]; [discriminate|]. cbn [_recursive_predict].
  intros Hrun. apply bind_ok_inv in Hrun as (a & s2 & _ & Hrun).
  destruct (attr_CLASSIFIER a).
  - apply bind_ok_inv in Hrun as (o & s3 & _ & Hrun).
    apply bind_ok_inv in Hrun as (w & s4 & _ & Hrun).
    injection Hrun as <- <-. right. eauto.
  - injection Hrun as <- <-. left. reflexivity.
Qed.

(** The fan-out loop: the sub-walks are run in order, their paths appended
    and their vectors added. *)
Lemma fanout_loop fuel x :
  forall ts results path0 v,
    Forall2 (fun t r => _recursive_predict fuel x t s = Ok r s) ts results ->
    for_each ts
      (fun acc prediction =>
         '(pred_path, preds_prob) ← _recursive_predict fuel x prediction;
         let path := fst acc ++ [prediction] in
         match preds_prob with
         | Some preds_prob =>
             pred_path ← from_option TypeError pred_path;
             mret (path ++ pred_path, np.add (snd acc) preds_prob)
         | None => mret (path, snd acc)
         end)
      (path0, v) s
    = Ok (path0 ++ fanout_path (zip ts results),
          fanout_vector v (zip ts results)) s.
Proof.
  induction ts as [|t ts IH]; intros results path0 v Hres.
  - inversion Hres; subst. cbn. rewrite app_nil_r. reflexivity.
  - inversion Hres as [|? r ? results' Hr Hrest]; subst.
    cbn [for_each]. rewrite bind_unfold, bind_unfold, Hr.
    destruct (walk_result_shape _ _ _ _ _ _ Hr) as [->|(p & pv & ->)];
      cbn [fst snd]; run_m; rewrite (IH results' _ _ Hrest);
      unfold fanout_path, fanout_vector; cbn; rewrite <- ?app_assoc;
      reflexivity.
Qed.

(** The walk at a node in multi-label mode, in closed form. *)
Lemma walk_mlb fuel x n clf c score v results :
  classifier_of s n = Some clf ->
  sklearn.fitted clf = Some c ->
  returned (score_example clf x s) = Some (Arr2 [row], argmax, score) ->
  for_each (enumerate (sklearn.classes_ c))
           (scatter_class (Arr2 [row]) argmax [n])
           {| class_proba := np.zeros_like (classes_ (self s));
              prediction := match sklearn.classes_ c with
                            | [only] => Some only
                            | _ => None
                            end;
              predictions := [] |} s = Ok v s ->
  Forall2 (fun t r => _recursive_predict fuel x t s = Ok r s)
          (predictions v) results ->
  _recursive_predict (S (S fuel)) x n s
  = Ok (Some ([n] ++ fanout_path (zip (predictions v) results)),
        Some (fanout_vector (class_proba v) (zip (predictions v) results))) s.
Proof.
  intros Hclf Hc Hscore Hscatter Hres.
  unfold classifier_of in Hclf.
  destruct (attrs_of s n) as [a|] eqn:Ha; [|discriminate]. cbn in Hclf.
  cbn [_recursive_predict].
  rewrite (bind_ok _ _ _ _ _ (run_nodes_getitem s n a Ha)), Hclf.
  rewrite bind_unfold. cbn [get_self]. rewrite bind_unfold.
  cbn [while_clf].
  rewrite (bind_ok _ _ _ _ _
             (preserves_all_returned _ _ _
                (fun P => preserves_score_example P clf x) Hscore)).
  cbn beta iota. rewrite Hc. run_m.
  rewrite Hscatter. rewrite Hmlb.
  pose proof (fanout_loop fuel x (predictions v) results [n] (class_proba v)
                Hres) as Hloop.
  cbv beta iota zeta
      delta [mbind M_bind mret M_ret logger raise get_self put_self
             from_option set_estimator log_more] in Hloop.
  rewrite Hloop. reflexivity.
Qed.

(** In multi-label mode the walk writes nothing, not even to the log. *)
Lemma scatter_quiet_mlb probs am pth v entry :
  post (scatter_class probs am pth v entry) s
       (fun _ s' => s' = s) (fun _ s' => s' = s).
Proof.
  unfold scatter_class. destruct entry as [i k].
  apply post_bind, post_get_self. rewrite Hmlb.
  apply post_quiet; [intros P; preserves_tac | auto | auto].
Qed.

Lemma walk_quiet_mlb fuel :
  (forall x n, post (_recursive_predict fuel x n) s
                    (fun _ s' => s' = s) (fun _ s' => s' = s))
  /\ (forall x clf pth cp p,
        post (while_clf fuel x clf pth cp p) s
             (fun _ s' => s' = s) (fun _ s' => s' = s)).
Proof.
  induction fuel as [|fuel [IHp IHw]]; [split; intros; exact I|].
  split.
  - intros x n. cbn [_recursive_predict].
    quiet_bind; [|reflexivity].
    destruct (attr_CLASSIFIER _); [|reflexivity].
    apply post_bind, post_get_self. apply post_bind.
    eapply post_weaken; [apply IHw | | intros ? ? Hsame; exact Hsame].
    intros r s' ->. reflexivity.
  - intros x clf pth cp p. cbn [while_clf].
    quiet_bind; [|reflexivity].
    match goal with |- post (let '(_, _) := ?t in _) _ _ _ =>
      destruct t as [[probs am] score] end.
    quiet_bind; [|reflexivity].
    apply post_bind.
    eapply post_weaken;
      [apply (post_for_each _ _ _ _ (fun _ s' => s' = s)); [reflexivity|]
      | | intros ? ? Hsame; exact Hsame].
    { intros acc e s' _ ->. apply scatter_quiet_mlb. }
    intros v s' ->. cbn beta.
    apply post_bind, post_get_self. rewrite Hmlb.
    apply (post_for_each _ _ _ _ (fun _ s' => s' = s)); [reflexivity|].
    intros acc t s' _ ->. apply post_bind.
    eapply post_weaken; [apply IHp | | intros ? ? Hsame; exact Hsame].
    intros [pp pv] s' ->. cbn beta iota.
    apply post_quiet; [intros P; preserves_tac | auto | auto].
Qed.

Lemma walk_returned_mlb fuel x n r :
  returned (_recursive_predict fuel x n s) = Some r ->
  _recursive_predict fuel x n s = Ok r s.
Proof.
  intros Hr. pose proof (proj1 (walk_quiet_mlb fuel) x n) as H.
  unfold post in H. destruct (_recursive_predict fuel x n s); try discriminate.
  cbn in Hr. congruence.
Qed.

End MultiLabel.

(** ** The scatter loop in single-label mode *)

Lemma list_index_lookup l k pos :
  list_index l k = Some pos -> l !! pos = Some k.
Proof.
  revert pos. induction l as [|y l IH]; intros pos; cbn; [discriminate|].
  destruct (decide (k = y)) as [->|Hne].
  - intros [= <-]. reflexivity.
  - destruct (list_index l k) as [i|]; cbn; [|discriminate].
    intros [= <-]. cbn. apply IH. reflexivity.
Qed.

Lemma enumerate_from_lookup {A} (l : list A) a j :
  zip (seq a (length l)) l !! j = pair (a + j)%nat <$> l !! j.
Proof.
  revert a j. induction l as [|x l IH]; intros a j; cbn.
  - rewrite lookup_nil. reflexivity.
  - destruct j as [|j]; cbn.
    + rewrite Nat.add_0_r. reflexivity.
    + rewrite IH. rewrite Nat.add_succ_r. reflexivity.
Qed.

Lemma enumerate_lookup {A} (l : list A) j :
  enumerate l !! j = pair j <$> l !! j.
Proof. apply enumerate_from_lookup. Qed.

Section SingleLabel.
Variable s : state.
Hypothesis Hnone : mlb (self s) = None.
Variables (p : list float) (argmax : nat) (path : list node).

Lemma scatter_turn_single v entry v' s' :
  scatter_class (Arr1 p) argmax path v entry s = Ok v' s' ->
  s' = s
  /\ exists q pos,
      p !! fst entry = Some q
      /\ list_index (classes_ (self s)) (snd entry) = Some pos
      /\ (pos < length (class_proba v))%nat
      /\ class_proba v' = <[pos := q]> (class_proba v)
      /\ predictions v' = predictions v.
Proof.
  destruct entry as [i k]. unfold scatter_class, index1, as_scalar. run_m.
  rewrite Hnone. cbn [fst snd].
  destruct (list_index (classes_ (self s)) k) as [pos|]; cbn; [|discriminate].
  destruct (p !! i) as [q|]; cbn; [|discriminate].
  unfold py_setitem.
  destruct (py_index (class_proba v) (Z.of_nat pos)) as [pos'|] eqn:Hpos; cbn;
    [|discriminate].
  assert (pos' = pos /\ (pos < length (class_proba v))%nat) as [-> Hlt].
  { pose proof (py_index_lt _ _ _ Hpos) as Hlt. unfold py_index in Hpos.
    destruct ((0 <=? Z.of_nat pos) && _) eqn:E1.
    - injection Hpos as <-. rewrite Nat2Z.id in *. auto.
    - destruct ((Z.of_nat pos <? 0) && _) eqn:E2; [|discriminate].
      apply andb_true_iff in E2 as [E2 _]. lia. }
  intros [= <- <-]. split; [reflexivity|]. exists q, pos. cbn.
  repeat split; auto.
Qed.

Lemma scatter_loop_single entries :
  forall v v' s',
    for_each entries (scatter_class (Arr1 p) argmax path) v s = Ok v' s' ->
    s' = s
    /\ length (class_proba v') = length (class_proba v)
    /\ predictions v' = predictions v
    /\ (forall j entry,
          entries !! j = Some entry ->
          (forall j' entry', (j < j')%nat -> entries !! j' = Some entry' ->
                             snd entry' <> snd entry) ->
          exists pos,
            list_index (classes_ (self s)) (snd entry) = Some pos
            /\ is_Some (p !! fst entry)
            /\ class_proba v' !! pos = p !! fst entry)
    /\ (forall pos,
          (forall entry, entry ∈ entries ->
             list_index (classes_ (self s)) (snd entry) <> Some pos) ->
          class_proba v' !! pos = class_proba v !! pos).
Proof.
  induction entries as [|e entries IH]; intros v v' s' Hrun.
  - injection Hrun as <- <-. repeat split; try reflexivity.
    intros j entry Hj. rewrite lookup_nil in Hj. discriminate.
  - cbn [for_each] in Hrun.
    apply bind_ok_inv in Hrun as (v1 & s1 & Hturn & Hrest).
    apply scatter_turn_single in Hturn
      as (-> & q & pos0 & Hq & Hpos0 & Hlt & Hcp & Hpreds).
    destruct (IH v1 v' s' Hrest) as (Hs & Hlen & Hps & Hwrite & Hkeep).
    split; [exact Hs|].
    split; [rewrite Hlen, Hcp; apply length_insert|].
    split; [congruence|]. split.
    + intros [|j] entry Hj Hlater.
      * injection Hj as <-. exists pos0.
        split; [exact Hpos0|]. split; [rewrite Hq; eauto|].
        rewrite Hkeep.
        -- rewrite Hcp, Hq. apply list_lookup_insert_eq, Hlt.
        -- intros entry' Hin Hpos'.
           apply list_elem_of_lookup in Hin as [j' Hj'].
           apply (Hlater (S j') entry'); [lia | exact Hj' |].
           apply list_index_lookup in Hpos', Hpos0. congruence.
      * apply (Hwrite j entry Hj).
        intros j' entry' Hlt' Hj'.
        apply (Hlater (S j') entry'); [lia | exact Hj'].
    + intros pos Hnone'. rewrite Hkeep.
      * rewrite Hcp. apply list_lookup_insert_ne. intros ->.
        apply (Hnone' e); [left | exact Hpos0].
      * intros entry Hin. apply Hnone'. right. exact Hin.
Qed.

End SingleLabel.

(** * The claims *)

(** C8.  Prediction is read-only: whatever the fitted model and the input,
    [_recursive_predict], [predict] and [predict_proba] end (by returning or
    by raising) with the estimator object exactly as they found it, so the
    graph with its node attributes (feature caches, classifiers,
    metafeatures), its topology, and the [estimators_] mapping are all
    unchanged; only the logger is written to.  The classifiers'
    scoring methods and a stopping-criteria callback are functions of their
    arguments here, as the collaborator contract has them. *)
Theorem prediction_reads_only :
  forall (fuel : nat) (X : features) (x : example) (n : node),
    read_only (_recursive_predict fuel x n)
    /\ read_only (predict fuel X)
    /\ read_only (predict_proba fuel X).
Proof.
  intros fuel X x n.
  repeat split; apply read_only_preserves; intros o.
  - apply preserves_recursive_predict, log_blind_self.
  - apply preserves_predict, log_blind_self.
  - apply preserves_predict_proba, log_blind_self.
Qed.

(** C6.  At a node of the graph that holds no classifier,
    [_recursive_predict] returns [(None, None)] at once: it raises nothing
    and leaves the state, log included, as it was. *)
Theorem walk_without_classifier :
  forall (fuel : nat) (x : example) (n : node) (s : state) (a : node_attrs),
    attrs_of s n = Some a ->
    attr_CLASSIFIER a = None ->
    _recursive_predict (S fuel) x n s = Ok (None, None) s.
Proof.
  intros fuel x n s a Ha Hc. unfold attrs_of in Ha.
  destruct (graph_ (self s)) as [g|] eqn:Hg; [|discriminate].
  cbn in Ha. cbn [_recursive_predict].
  unfold nodes_getitem, get_graph, get_self.
  rewrite !bind_unfold. rewrite Hg. cbn. rewrite Ha. cbn.
  rewrite Hc. reflexivity.
Qed.

Lemma walk_without_classifier_at_leaf :
  _recursive_predict 1 Stopping.x (NStr "F") Stopping.mandatory
  = Ok (None, None) Stopping.mandatory.
Proof.
  apply (walk_without_classifier 0 Stopping.x (NStr "F") Stopping.mandatory
           no_attrs); vm_compute; reflexivity.
Defined.

(** C3.  [_should_early_terminate] returns False for every node, prediction
    and score when [prediction_depth] is not "nmlnp".  With "nmlnp" and a
    float [stopping_criteria] it returns True exactly when the score is
    below the threshold and the current node is not the root (the object is
    left unchanged; a debug line is logged).  In the model
    [Stopping.non_mandatory] (threshold 0.99) the example scores 0.9 at the
    root and 0.5 at the root's child C: the walk stops at C and returns the
    path [root, C], where the mandatory-leaf model goes on to D. *)
Theorem early_termination_predicate :
  (forall (s : state) (n p : node) (score : pyscore),
     String.eqb (prediction_depth (self s)) "nmlnp" = false ->
     _should_early_terminate n p score s = Ok false s)
  /\ (forall (s : state) (n p : node) (score t : float),
        String.eqb (prediction_depth (self s)) "nmlnp" = true ->
        stopping_criteria (self s) = SCFloat t ->
        exists s',
          _should_early_terminate n p (SFloat score) s
          = Ok (PrimFloat.ltb score t && negb (bool_decide (n = root (self s)))) s'
          /\ self s' = self s)
  /\ (let walk := _recursive_predict 3 Stopping.x Stopping.ROOT
                    Stopping.non_mandatory in
      returned walk
      = Some (Some [Stopping.ROOT; NStr "C"], Some [0.9; 0.1; 0.5; 0.5]%float)
      /\ log_of walk = [Debug_terminating (SFloat 0.5) 0.99 (NStr "C")])
  /\ returned (_recursive_predict 3 Stopping.x Stopping.ROOT Stopping.mandatory)
     = Some (Some [Stopping.ROOT; NStr "C"; NStr "D"],
             Some [0.9; 0.1; 0.5; 0.5]%float).
Proof.
  split; [|split; [|split]].
  - intros s n p score Hd. unfold _should_early_terminate, get_self.
    rewrite bind_unfold. cbn. rewrite Hd. reflexivity.
  - intros s n p score t Hd Hc. unfold _should_early_terminate, get_self.
    rewrite bind_unfold. cbn. rewrite Hd, Hc. cbn.
    rewrite bind_unfold. cbn.
    destruct (PrimFloat.ltb score t); cbn.
    + destruct (decide (n = root (self s))) as [->|Hn].
      * rewrite bool_decide_eq_true_2 by reflexivity.
        eexists; split; reflexivity.
      * rewrite bool_decide_eq_false_2 by exact Hn.
        eexists; split; reflexivity.
    + eexists; split; reflexivity.
  - split; vm_compute; reflexivity.
  - vm_compute. reflexivity.
Qed.

Lemma early_termination_at_root_child :
  exists s',
    _should_early_terminate (NStr "C") (NStr "D") (SFloat 0.5)
      Stopping.non_mandatory
    = Ok true s'
    /\ self s' = self Stopping.non_mandatory.
Proof.
  destruct early_termination_predicate as (_ & H & _).
  apply (H Stopping.non_mandatory (NStr "C") (NStr "D") 0.5%float 0.99%float);
    reflexivity.
Defined.

(** C5.  The decision table of [_train_local_classifier] at a node where
    training is attempted, once the training pair [(X_, y_)] is selected.
    (1) With no row in [X_], nothing is fitted and nothing raised: in
    "preprocessed" mode the call returns with the object untouched (a
    warning is logged); in "raw" mode, where the base estimator is resolved
    before the rows are counted, it returns with the graph untouched as soon
    as that resolution succeeds.  So the node keeps no classifier and, by C6,
    a walk that reaches it ends there.
    (2) With one distinct target [c] in [y_] (and as many rows as targets),
    a [DummyClassifier] with constant [c] is fitted and stored at the node
    and in [estimators_]; its only class is [c], which it scores 1.0 on
    every example. *)
Theorem starved_and_single_target_training :
  forall (LogisticRegression : sklearn.estimator) (X : features) (y : labels)
         (n : node) (s : state) (X_ : features) (y_ : targets),
    trains_at s n = true ->
    returned (training_pair X y n s) = Some (X_, y_) ->
    (String.eqb (feature_extraction (self s)) "preprocessed" = true ->
     sklearn.num_rows X_ = 0%nat ->
     exists rs, _train_local_classifier LogisticRegression X y n s
                = Ok tt (log_more s rs))
    /\ (String.eqb (feature_extraction (self s)) "raw" = true ->
        sklearn.num_rows X_ = 0%nat ->
        forall e, resolved LogisticRegression (self s) n = Some e ->
        exists s', _train_local_classifier LogisticRegression X y n s = Ok tt s'
                   /\ graph_ (self s') = graph_ (self s))
    /\ (forall (l : list node) (c : node) (a : node_attrs),
          y_ = T1 l ->
          np.unique l = [c] ->
          sklearn.num_rows X_ = length l ->
          attrs_of s n = Some a ->
          exists (f : sklearn.classifier) (s' : state),
            let clf := {| sklearn.params := sklearn.DummyClassifier (LNode c);
                          sklearn.fitted := Some f |} in
            _train_local_classifier LogisticRegression X y n s = Ok tt s'
            /\ classifier_of s' n = Some clf
            /\ estimators_ (self s') !! n = Some clf
            /\ sklearn.classes_ f = [c]
            /\ forall x, sklearn.predict_proba f x
                         = replicate (sklearn.num_samples x) [1%float]).
Proof.
  intros LR X y n s X_ y_ Ht Hp. split; [|split].
  - intros Hfe Hrows. eexists.
    rewrite (train_preprocessed_empty LR X y n s X_ y_ Ht Hp Hfe Hrows).
    unfold log_more. cbn. rewrite <- app_assoc. reflexivity.
  - intros Hfe Hrows e He.
    destruct (train_raw_empty LR X y n s X_ y_ Ht Hp e Hfe Hrows He)
      as (clf & rs & _ & Hrun).
    eexists. split; [exact Hrun | reflexivity].
  - intros l c a Hy Hu Hrows Ha.
    destruct (train_single_target LR X y n s X_ y_ Ht Hp l c a Hy Hu Hrows Ha)
      as (f & rs & Hc & Hpp & Hrun).
    exists f. eexists. cbn zeta. split; [exact Hrun|].
    unfold attrs_of in Ha.
    destruct (graph_ (self s)) as [g|] eqn:Hg; [|discriminate]. cbn in Ha.
    destruct (store_classifier_lookup (self s) g n a
                {| sklearn.params := sklearn.DummyClassifier (LNode c);
                   sklearn.fitted := Some f |} (logged s ++ rs) Hg Ha)
      as [H1 H2].
    auto.
Qed.

Lemma starved_node_keeps_no_classifier :
  exists rs,
    _train_local_classifier uniform_estimator Starved.X Starved.y (NStr "A")
      Starved.built
    = Ok tt (log_more Starved.built rs).
Proof.
  destruct (starved_and_single_target_training uniform_estimator
              Starved.X Starved.y (NStr "A") Starved.built (FCsr []) (T1 []))
    as (H & _ & _).
  - vm_compute. reflexivity.
  - vm_compute. reflexivity.
  - apply H; reflexivity.
Defined.

(** C10.  In "raw" mode, when the training set selected for a node is empty
    (and the base estimator resolves), [_train_local_classifier] fits
    nothing and stores nothing in the graph, yet records the estimator
    object, still unfitted, in [estimators_] under the node: a node without
    classifier in the graph can have an entry in [estimators_]. *)
Theorem unfitted_estimator_recorded :
  forall (LogisticRegression : sklearn.estimator) (X : features) (y : labels)
         (n : node) (s : state) (X_ : features) (y_ : targets)
         (e : sklearn.estimator),
    trains_at s n = true ->
    returned (training_pair X y n s) = Some (X_, y_) ->
    String.eqb (feature_extraction (self s)) "raw" = true ->
    sklearn.num_rows X_ = 0%nat ->
    resolved LogisticRegression (self s) n = Some e ->
    exists (clf : sklearn.clf_obj) (s' : state),
      _train_local_classifier LogisticRegression X y n s = Ok tt s'
      /\ sklearn.fitted clf = None
      /\ estimators_ (self s') !! n = Some clf
      /\ graph_ (self s') = graph_ (self s)
      /\ classifier_of s' n = classifier_of s n.
Proof.
  intros LR X y n s X_ y_ e Ht Hp Hfe Hrows He.
  destruct (train_raw_empty LR X y n s X_ y_ Ht Hp e Hfe Hrows He)
    as (clf & rs & Hclf & Hrun).
  exists clf. eexists. split; [exact Hrun|]. split; [exact Hclf|].
  split; [apply lookup_insert_eq|]. split; reflexivity.
Qed.

Lemma unfitted_estimator_recorded_in_dag :
  exists (clf : sklearn.clf_obj) (s' : state),
    _train_local_classifier uniform_estimator RawDag.X RawDag.y (NStr "A")
      RawDag.ready = Ok tt s'
    /\ sklearn.fitted clf = None
    /\ estimators_ (self s') !! NStr "A" = Some clf
    /\ graph_ (self s') = graph_ (self RawDag.ready)
    /\ classifier_of s' (NStr "A") = classifier_of RawDag.ready (NStr "A").
Proof.
  apply (unfitted_estimator_recorded uniform_estimator RawDag.X RawDag.y
           (NStr "A") RawDag.ready (FRaw []) (T1 []) uniform_estimator);
    vm_compute; reflexivity.
Defined.

(** C7, as stated, fails: the cache attribute of an internal node is
    written when the node's build starts and rewritten once per child.  In
    [Accumulate] the root's attribute is the zero matrix when the loop over
    its successors starts, [[1], [0]] after the turn for A and [[1], [2]]
    after the turn for B, which is the value the complete build leaves. *)
Lemma internal_cache_rewritten_per_child :
  cache_of Accumulate.initialised Accumulate.ROOT = Some (FCsr [[0]; [0]]%float)
  /\ cache_of (state_after (Accumulate.add (NStr "A")) Accumulate.initialised)
              Accumulate.ROOT
     = Some (FCsr [[1]; [0]]%float)
  /\ cache_of (state_after (Accumulate.add (NStr "B"))
                 (state_after (Accumulate.add (NStr "A")) Accumulate.initialised))
              Accumulate.ROOT
     = Some (FCsr [[1]; [2]]%float)
  /\ cache_of (state_after (_recursive_build_features 2 Accumulate.X
                              Accumulate.y Accumulate.ROOT) Accumulate.fresh)
              Accumulate.ROOT
     = Some (FCsr [[1]; [2]]%float)
  /\ ~ never_rewritten (Accumulate.add (NStr "A")) Accumulate.initialised.
Proof.
  assert (H0 : cache_of Accumulate.initialised Accumulate.ROOT
               = Some (FCsr [[0]; [0]]%float)) by (vm_compute; reflexivity).
  assert (H1 : cache_of (state_after (Accumulate.add (NStr "A"))
                           Accumulate.initialised) Accumulate.ROOT
               = Some (FCsr [[1]; [0]]%float)) by (vm_compute; reflexivity).
  split; [exact H0|]. split; [exact H1|].
  split; [vm_compute; reflexivity|]. split; [vm_compute; reflexivity|].
  intros H. specialize (H _ _ H0). rewrite H1 in H. discriminate.
Qed.

(** C7, amended.  Each node's feature cache is computed once per fit:
    (1) a call of the builder on a node that holds a cache returns that
    cache at once, the state untouched;
    (2) a call that returns has announced and built, each once, exactly the
    nodes that had no cache before and have one after, and has kept every
    cache that was present when it started ([build_done]); a call that
    raises has kept them too ([build_effect]).  Only the node under
    construction has its own attribute reassigned, once per child;
    (3) training changes no cache;
    (4) after a whole [fit], the nodes announced by the builder are without
    repetition and are exactly the nodes that hold a cache. *)
Theorem feature_caches_built_once :
  forall (fuel : nat) (LogisticRegression : sklearn.estimator)
         (X : features) (y : labels) (n : node) (s : state),
    (forall c, cache_of s n = Some c ->
               _recursive_build_features (S fuel) X y n s = Ok c s)
    /\ (forall v s', _recursive_build_features fuel X y n s = Ok v s' ->
                     exists ns, build_done s s' ns)
    /\ (forall e s', _recursive_build_features fuel X y n s = Raise e s' ->
                     exists ns, build_effect s s' ns)
    /\ same_caches s
         (state_after
            (_recursive_train_local_classifiers fuel LogisticRegression X y n) s)
    /\ (forall sample_weight o s',
          fit fuel LogisticRegression X y sample_weight
              {| self := o; logged := [] |} = Ok tt s' ->
          NoDup (built_nodes (logged s'))
          /\ forall m, m ∈ built_nodes (logged s') <-> is_Some (cache_of s' m)).
Proof.
  intros fuel LR X y n s. split; [|split; [|split; [|split]]].
  - intros c Hc. unfold cache_of in Hc.
    destruct (attrs_of s n) as [a|] eqn:Ha; [|discriminate]. cbn in Hc.
    cbn [_recursive_build_features].
    rewrite (bind_ok _ _ _ _ _ (run_nodes_getitem s n a Ha)), Hc. reflexivity.
  - intros v s' Hrun. pose proof (build_post fuel X y n s) as H.
    unfold post in H. rewrite Hrun in H. exact H.
  - intros e s' Hrun. pose proof (build_post fuel X y n s) as H.
    unfold post in H. rewrite Hrun in H. exact H.
  - pose proof (same_caches_recursive_train s fuel LR X y n s
                  (same_caches_refl s)) as H.
    unfold post in H. unfold state_after.
    destruct (_recursive_train_local_classifiers fuel LR X y n s);
      [apply H | apply H | apply same_caches_refl].
  - intros sample_weight o s' Hrun.
    pose proof (fit_post fuel LR X y sample_weight o) as Hp.
    apply (post_true _ _ _ Hp tt s' Hrun).
Qed.

Lemma caches_built_once_in_one_fit :
  let s' := state_after (fit 3 uniform_estimator Accumulate.X Accumulate.y None)
                        {| self := Accumulate.unfitted; logged := [] |} in
  NoDup (built_nodes (logged s'))
  /\ forall m, m ∈ built_nodes (logged s') <-> is_Some (cache_of s' m).
Proof.
  cbn zeta.
  destruct (feature_caches_built_once 3 uniform_estimator Accumulate.X
              Accumulate.y Accumulate.ROOT
              {| self := Accumulate.unfitted; logged := [] |})
    as (_ & _ & _ & _ & H).
  apply (H None Accumulate.unfitted).
  apply returned_state_after. vm_compute. reflexivity.
Defined.

(** C2, as stated, fails.  In [OwnLabel] one row is labelled with the leaf
    A1 and one with the intermediate node A.  After the build the cache of A
    holds the A1 row only, where the claim appends the row labelled A; and
    the cache of the root holds both rows, where the union of its children's
    caches has one. *)
Lemma own_rows_not_in_own_cache :
  cache_of OwnLabel.built (NStr "A") = Some (FCsr [[1]; [0]]%float)
  /\ cache_as_claimed OwnLabel.built OwnLabel.X OwnLabel.y (NStr "A")
     = Some (FCsr [[1]; [2]]%float)
  /\ cache_of OwnLabel.built OwnLabel.ROOT = Some (FCsr [[1]; [2]]%float)
  /\ cache_as_claimed OwnLabel.built OwnLabel.X OwnLabel.y OwnLabel.ROOT
     = Some (FCsr [[1]; [0]]%float)
  /\ cache_of OwnLabel.built (NStr "A")
     <> cache_as_claimed OwnLabel.built OwnLabel.X OwnLabel.y (NStr "A").
Proof.
  assert (H1 : cache_of OwnLabel.built (NStr "A")
               = Some (FCsr [[1]; [0]]%float)) by (vm_compute; reflexivity).
  assert (H2 : cache_as_claimed OwnLabel.built OwnLabel.X OwnLabel.y (NStr "A")
               = Some (FCsr [[1]; [2]]%float)) by (vm_compute; reflexivity).
  split; [exact H1|]. split; [exact H2|].
  split; [vm_compute; reflexivity|]. split; [vm_compute; reflexivity|].
  rewrite H1, H2. discriminate.
Qed.



(** C9.  The walk at a node in multi-label mode, for a classifier that
    scores the example with one row [row] of scores.  The fan-out targets
    are exactly the local classes whose scattered score is strictly above
    [mlb_prediction_threshold], in the order of [clf.classes_]
    ([fanout_targets]).  The walk recurses into each of them in turn; the
    returned path is the node, then for each target the target followed by
    the path its sub-walk returned (nothing more when the target holds no
    classifier), and the returned vector is the scattered scores with the
    vectors of the sub-walks added to them. *)
Theorem multilabel_fanout :
  forall (fuel : nat) (x : example) (n : node) (s : state)
         (b : preprocessing.MultiLabelBinarizer)
         (clf : sklearn.clf_obj) (c : sklearn.classifier)
         (row : list float) (argmax : nat) (score : pyscore)
         (v : scatter_vars) (results : list walk_result),
    mlb (self s) = Some b ->
    classifier_of s n = Some clf ->
    sklearn.fitted clf = Some c ->
    returned (score_example clf x s) = Some (Arr2 [row], argmax, score) ->
    scattered s c (Arr2 [row]) argmax n = Some v ->
    let chosen :=
      fanout_targets (mlb_prediction_threshold (self s))
                     (preprocessing.classes_ b)
                     (enumerate (sklearn.classes_ c)) row in
    Forall2 (fun t r => returned (_recursive_predict fuel x t s) = Some r)
            chosen results ->
    predictions v = chosen
    /\ _recursive_predict (S (S fuel)) x n s
       = Ok (Some ([n] ++ fanout_path (zip chosen results)),
             Some (fanout_vector (class_proba v) (zip chosen results))) s.
Proof.
  intros fuel x n s b clf c row argmax score v results
         Hmlb Hclf Hc Hscore Hscat chosen Hres.
  unfold scattered in Hscat.
  destruct (for_each (enumerate (sklearn.classes_ c))
              (scatter_class (Arr2 [row]) argmax [n])
              (scatter_start (self s) c) s) as [v' s'| |] eqn:Hloop;
    try discriminate.
  injection Hscat as ->.
  destruct (scatter_loop_mlb s b Hmlb row argmax [n] _ _ _ _ Hloop)
    as (-> & Hpreds & _).
  cbn [scatter_start predictions app] in Hpreds. fold chosen in Hpreds.
  split; [exact Hpreds|].
  rewrite <- Hpreds.
  apply (walk_mlb s b Hmlb row argmax fuel x n clf c score v results
           Hclf Hc Hscore Hloop).
  rewrite Hpreds.
  eapply Forall2_impl; [exact Hres|].
  intros t r Hr. apply (walk_returned_mlb s b Hmlb), Hr.
Qed.

Lemma fanout_into_the_subtree_above_threshold :
  fanout_targets 0.3 (preprocessing.classes_ Fanout.binarizer)
                 (enumerate [NInt 0; NInt 2]) [0.4; 0.1]%float
  = [NStr "A"]
  /\ returned (_recursive_predict 5 Fanout.x Fanout.ROOT Fanout.fitted)
     = Some (Some [Fanout.ROOT; NStr "A"; NStr "A"; NStr "A1"],
             Some [0.4; 0.8; 0.1; 0]%float).
Proof.
  destruct (multilabel_fanout 3 Fanout.x Fanout.ROOT Fanout.fitted
              Fanout.binarizer (fitted_obj Fanout.at_root) Fanout.at_root
              [0.4; 0.1]%float 0%nat (SFloat 0.4)
              {| class_proba := [0.4; 0; 0.1; 0]%float; prediction := None;
                 predictions := [NStr "A"] |}
              [(Some [NStr "A"; NStr "A1"], Some [0; 0.8; 0; 0]%float)])
    as [Htargets Hwalk].
  - reflexivity.
  - vm_compute. reflexivity.
  - reflexivity.
  - vm_compute. reflexivity.
  - vm_compute. reflexivity.
  - cbn zeta.
    replace (fanout_targets _ _ _ _) with [NStr "A"] by (vm_compute; reflexivity).
    constructor; [vm_compute; reflexivity | constructor].
  - split; [vm_compute; reflexivity|].
    rewrite Hwalk. vm_compute. reflexivity.
Defined.

(** C4.  Where the walk writes the local scores.
    (1) Single-label mode, scores [p] from [predict_proba]: the score of the
    local class [k], the [i]-th of [clf.classes_], is written at position
    [classes_.index(k)] of the global vector.
    (2) Multi-label mode, one row [row] of scores: the local class is a
    column index [z] of the binarizer, and its score is written at
    position [z] of the global vector.
    (3) Each call of the walk starts from a zero vector and assigns its own
    scores; across the fan-out the vectors are added: the vector a call
    returns is [fanout_vector], the scattered scores plus, one after the
    other, the vectors returned for the fan-out targets.
    (4) In the DAG [Diamond] both fan-out paths from the root reach C,
    whose classifier scores D at 0.25: the walk at C returns 0.25 at D's
    position, the walk at the root returns 0.25 + 0.25 = 0.5 there, and at
    C's position the two scores of 0.5 given under A and under B add up
    to 1. *)
Theorem scores_scattered_by_class_index :
  (forall (s s' : state) (p : list float) (argmax : nat) (path : list node)
          (local_classes : list node) (v0 v : scatter_vars),
     mlb (self s) = None ->
     NoDup local_classes ->
     for_each (enumerate local_classes) (scatter_class (Arr1 p) argmax path) v0 s
     = Ok v s' ->
     forall i k, local_classes !! i = Some k ->
       exists pos, list_index (classes_ (self s)) k = Some pos
                   /\ is_Some (p !! i)
                   /\ class_proba v !! pos = p !! i)
  /\ (forall (s s' : state) (b : preprocessing.MultiLabelBinarizer)
             (row : list float) (argmax : nat) (path : list node)
             (local_classes : list node) (v0 v : scatter_vars),
        mlb (self s) = Some b ->
        (forall i i' k k', i <> i' ->
           local_classes !! i = Some k -> local_classes !! i' = Some k' ->
           writes_at (class_proba v0) (i, k) <> writes_at (class_proba v0) (i', k')) ->
        for_each (enumerate local_classes)
                 (scatter_class (Arr2 [row]) argmax path) v0 s
        = Ok v s' ->
        forall i k, local_classes !! i = Some k ->
          exists z pos, k = NInt z
                        /\ py_index (class_proba v0) z = Some pos
                        /\ class_proba v !! pos = row !! i)
  /\ (forall (fuel : nat) (x : example) (n : node) (s : state)
             (b : preprocessing.MultiLabelBinarizer)
             (clf : sklearn.clf_obj) (c : sklearn.classifier)
             (row : list float) (argmax : nat) (score : pyscore)
             (v : scatter_vars) (results : list walk_result),
        mlb (self s) = Some b ->
        classifier_of s n = Some clf ->
        sklearn.fitted clf = Some c ->
        returned (score_example clf x s) = Some (Arr2 [row], argmax, score) ->
        scattered s c (Arr2 [row]) argmax n = Some v ->
        Forall2 (fun t r => returned (_recursive_predict fuel x t s) = Some r)
                (predictions v) results ->
        snd <$> returned (_recursive_predict (S (S fuel)) x n s)
        = Some (Some (fanout_vector (class_proba v)
                                    (zip (predictions v) results))))
  /\ snd <$> returned (_recursive_predict 2 Diamond.x (NStr "C") Diamond.fitted)
     = Some (Some [0; 0; 0; 0.25]%float)
  /\ snd <$> returned (_recursive_predict 6 Diamond.x Diamond.ROOT Diamond.fitted)
     = Some (Some [0.5; 0.5; 1; 0.5]%float).
Proof.
  split; [|split; [|split; [|split]]].
  - intros s s' p argmax path local_classes v0 v Hnone Hnodup Hrun i k Hik.
    destruct (scatter_loop_single s Hnone p argmax path _ _ _ _ Hrun)
      as (_ & _ & _ & Hwrite & _).
    destruct (Hwrite i (i, k)) as (pos & Hpos & Hsome & Hval).
    + rewrite enumerate_lookup, Hik. reflexivity.
    + intros j' [i' k'] Hlt Hj'. cbn [snd]. intros ->.
      rewrite enumerate_lookup in Hj'.
      destruct (local_classes !! j') as [k''|] eqn:Hk''; [|discriminate].
      injection Hj' as <- <-.
      pose proof (NoDup_lookup _ _ _ _ Hnodup Hik Hk''). lia.
    + exists pos. auto.
  - intros s s' b row argmax path local_classes v0 v Hmlb Hdistinct Hrun i k Hik.
    destruct (scatter_loop_mlb s b Hmlb row argmax path _ _ _ _ Hrun)
      as (_ & _ & _ & _ & Hwrite & _ & Hvalid).
    assert (Hin : enumerate local_classes !! i = Some (i, k))
      by (rewrite enumerate_lookup, Hik; reflexivity).
    destruct (Hvalid (i, k)) as [pos Hpos];
      [apply list_elem_of_lookup; eauto|].
    pose proof Hpos as Hpos'. unfold writes_at in Hpos'. cbn [snd] in Hpos'.
    destruct k as [z|str]; [|discriminate]. cbn in Hpos'.
    exists z, pos. split; [reflexivity|]. split; [exact Hpos'|].
    apply (Hwrite i (i, NInt z) pos Hin Hpos).
    intros j' [i' k'] Hlt Hj'. rewrite enumerate_lookup in Hj'.
    destruct (local_classes !! j') as [k''|] eqn:Hk''; [|discriminate].
    injection Hj' as <- <-. rewrite <- Hpos.
    apply not_eq_sym, (Hdistinct i j'); [lia | exact Hik | exact Hk''].
  - intros fuel x n s b clf c row argmax score v results
           Hmlb Hclf Hc Hscore Hscat Hres.
    unfold scattered in Hscat.
    destruct (for_each (enumerate (sklearn.classes_ c))
                (scatter_class (Arr2 [row]) argmax [n])
                (scatter_start (self s) c) s) as [v' s'| |] eqn:Hloop;
      try discriminate.
    injection Hscat as ->.
    destruct (scatter_loop_mlb s b Hmlb row argmax [n] _ _ _ _ Hloop)
      as (-> & _).
    rewrite (walk_mlb s b Hmlb row argmax fuel x n clf c score v results
               Hclf Hc Hscore Hloop).
    + reflexivity.
    + eapply Forall2_impl; [exact Hres|].
      intros t r Hr. apply (walk_returned_mlb s b Hmlb), Hr.
  - vm_compute. reflexivity.
  - vm_compute. reflexivity.
Qed.

Lemma scores_added_over_the_diamond :
  snd <$> returned (_recursive_predict 6 Diamond.x Diamond.ROOT Diamond.fitted)
  = Some (Some (fanout_vector [0.5; 0.5; 0; 0]%float
                  [(NStr "A", (Some [NStr "A"; NStr "C"; NStr "C"],
                               Some [0; 0; 0.5; 0.25]%float));
                   (NStr "B", (Some [NStr "B"; NStr "C"; NStr "C"],
                               Some [0; 0; 0.5; 0.25]%float))])).
Proof.
  destruct scores_scattered_by_class_index as (_ & _ & H & _).
  apply (H 4%nat Diamond.x Diamond.ROOT Diamond.fitted Diamond.binarizer
           (fitted_obj Diamond.at_root) Diamond.at_root
           [0.5; 0.5]%float 0%nat (SFloat 0.5)
           {| class_proba := [0.5; 0.5; 0; 0]%float; prediction := None;
              predictions := [NStr "A"; NStr "B"] |}
           [(Some [NStr "A"; NStr "C"; NStr "C"], Some [0; 0; 0.5; 0.25]%float);
            (Some [NStr "B"; NStr "C"; NStr "C"], Some [0; 0; 0.5; 0.25]%float)]).
  - reflexivity.
  - vm_compute. reflexivity.
  - reflexivity.
  - vm_compute. reflexivity.
  - vm_compute. reflexivity.
  - constructor; [vm_compute; reflexivity|].
    constructor; [vm_compute; reflexivity | constructor].
Defined.

(** * Further properties: the passes of [fit] *)

(** ** What the passes write *)

Lemma skeleton_log s r :
  skeleton (self {| self := self s; logged := logged s ++ [r] |})
  = skeleton (self s).
Proof. reflexivity. Qed.

Section Skeleton.
Variable k : HierarchicalClassifier.

Let P (s : state) : Prop := skeleton (self s) = k.

Lemma skeleton_log_blind : log_blind P.
Proof. intros s r Hs. exact Hs. Qed.

Lemma skeleton_nodes_update n f : preserves P (nodes_update n f).
Proof.
  intros s Hs. unfold post.
  destruct (attrs_of s n) as [a|] eqn:Ha.
  - pose proof Ha as Ha'. unfold attrs_of in Ha'.
    destruct (graph_ (self s)) as [g|] eqn:Hg; [|discriminate]. cbn in Ha'.
    rewrite (run_nodes_update s n a g f Hg Ha').
    unfold P in *. rewrite <- Hs. unfold skeleton. cbn. rewrite Hg. cbn.
    rewrite fmap_insert.
    rewrite (insert_id ((fun _ => no_attrs) <$> nx._node g) n no_attrs)
      by (rewrite lookup_fmap, Ha'; reflexivity).
    reflexivity.
  - pose proof (post_nodes_update n f s (fun _ _ => False) (fun _ s' => P s')) as H.
    unfold post in H.
    destruct (nodes_update n f s) as [u s'|e s'|]; [|apply H|exact I].
    + exfalso. apply H; [|intros; exact Hs].
      intros s1 a Ha1. congruence.
    + intros s1 a Ha1. congruence.
    + intros; exact Hs.
Qed.

Lemma skeleton_set_estimator n clf : preserves P (set_estimator n clf).
Proof. intros s Hs. exact Hs. Qed.

Hint Resolve skeleton_nodes_update skeleton_set_estimator
  preserves_first_target preserves_clf_fit preserves_base_estimator_for
  : preserves.

Lemma skeleton_logger r : preserves P (logger r).
Proof. apply preserves_logger, skeleton_log_blind. Qed.
Hint Resolve skeleton_logger : preserves.

Lemma skeleton_build fuel X y :
  forall n, preserves P (_recursive_build_features fuel X y n).
Proof.
  induction fuel as [|fuel IH]; intros n; [intros s Hs; exact I|].
  cbn [_recursive_build_features]. unfold accumulate_child.
  preserves_tac.
Qed.

Lemma skeleton_train fuel LR X y :
  forall n, preserves P (_recursive_train_local_classifiers fuel LR X y n).
Proof.
  induction fuel as [|fuel IH]; intros n; [intros s Hs; exact I|].
  cbn [_recursive_train_local_classifiers]. unfold _train_local_classifier.
  preserves_tac.
Qed.

End Skeleton.

(** ** [fit] as validation followed by the two passes *)

Lemma fit_passes fuel LR X y sw o (Q : labels -> state -> Prop) :
  (forall y',
     returned (validate_X_y X y {| self := o; logged := [] |}) = Some y' ->
     post ((if String.eqb (feature_extraction o) "preprocessed" then
              _recursive_build_features fuel X y' (root o);; mret tt
            else mret tt);;
           _recursive_train_local_classifiers fuel LR X y' (root o))
          (started o y') (fun _ => Q y') (fun _ _ => True)) ->
  post (fit fuel LR X y sw) {| self := o; logged := [] |}
       (fun _ s' =>
          exists y',
            returned (validate_X_y X y {| self := o; logged := [] |}) = Some y'
            /\ Q y' s')
       (fun _ _ => True).
Proof.
  intros Hpasses. unfold fit.
  quiet_bind; [|exact I].
  match goal with H : returned _ = Some ?a |- _ =>
    rename H into Hy; rename a into y' end.
  apply post_bind.
  apply (post_quiet _ _ _ _); [intros P; destruct sw; preserves_tac | | auto].
  intros _ _.
  quiet_bind; [|exact I].
  apply post_bind, post_get_self. cbn [self].
  apply post_bind, post_put_self. cbn [logged].
  eapply post_weaken; [apply (Hpasses y' Hy) | | auto].
  intros u s' HQ. exists y'. auto.
Qed.

Lemma fit_preserves fuel LR X y sw o (P : labels -> state -> Prop) :
  (forall y', P y' (started o y')) ->
  (forall y' n, preserves (P y') (_recursive_build_features fuel X y' n)) ->
  (forall y' n,
     preserves (P y') (_recursive_train_local_classifiers fuel LR X y' n)) ->
  post (fit fuel LR X y sw) {| self := o; logged := [] |}
       (fun _ s' =>
          exists y',
            returned (validate_X_y X y {| self := o; logged := [] |}) = Some y'
            /\ P y' s')
       (fun _ _ => True).
Proof.
  intros Hstart Hbuild Htrain. apply fit_passes. intros y' _.
  apply post_bind.
  eapply post_weaken with (Q := fun _ => P y') (R := fun _ => P y');
    [| | auto].
  - assert (Hb : preserves (P y')
                   (if String.eqb (feature_extraction o) "preprocessed" then
                      _recursive_build_features fuel X y' (root o);; mret tt
                    else mret tt)).
    { destruct (String.eqb _ _).
      - apply preserves_bind; [apply Hbuild | intros; apply preserves_ret].
      - apply preserves_ret. }
    apply Hb, Hstart.
  - intros u s1 H1. cbn beta.
    eapply post_weaken; [apply (Htrain y' (root o) s1 H1) | | auto].
    intros u2 s2 H2. exact H2.
Qed.

(** ** The graph [DiGraph(d)] lists each node once *)

Lemma nodes_listed_add_node n g : nodes_listed g -> nodes_listed (nx.add_node n g).
Proof.
  intros [Hnd Hin]. unfold nx.add_node.
  destruct (nx._node g !! n) eqn:Hn; [split; assumption|]. split; cbn.
  - apply NoDup_app. split; [exact Hnd|]. split; [|apply NoDup_singleton].
    intros m Hm Hm'. apply list_elem_of_singleton in Hm' as ->.
    apply Hin in Hm. rewrite Hn in Hm. destruct Hm; discriminate.
  - intros m. rewrite elem_of_app, list_elem_of_singleton, Hin.
    destruct (decide (n = m)) as [->|Hne].
    + rewrite lookup_insert_eq. split; eauto.
    + rewrite lookup_insert_ne by exact Hne. split; [|auto].
      intros [H|H]; [exact H | congruence].
Qed.

Lemma nodes_listed_add_edge u v g :
  nodes_listed g -> nodes_listed (nx.add_edge u v g).
Proof.
  intros Hg. unfold nx.add_edge.
  pose proof (nodes_listed_add_node v _ (nodes_listed_add_node u _ Hg)) as H.
  destruct (bool_decide _); exact H.
Qed.

Lemma nodes_listed_from_dict d : nodes_listed (nx.from_dict d).
Proof.
  unfold nx.from_dict.
  assert (H1 : forall l g, nodes_listed g ->
             nodes_listed (fold_left (fun g (kv : node * list node) =>
                                        nx.add_node (fst kv) g) l g)).
  { induction l as [|kv l IH]; intros g Hg; [exact Hg|].
    cbn. apply IH, nodes_listed_add_node, Hg. }
  assert (H2 : forall u vs g, nodes_listed g ->
             nodes_listed (fold_left (fun g v => nx.add_edge u v g) vs g)).
  { induction vs as [|v vs IH]; intros g Hg; [exact Hg|].
    cbn. apply IH, nodes_listed_add_edge, Hg. }
  assert (H3 : forall l g, nodes_listed g ->
             nodes_listed
               (fold_left
                  (fun g (kv : node * list node) =>
                     fold_left (fun g v => nx.add_edge (fst kv) v g) (snd kv) g)
                  l g)).
  { induction l as [|kv l IH]; intros g Hg; [exact Hg|].
    cbn. apply IH, H2, Hg. }
  apply H3, H1. split; cbn.
  - apply NoDup_nil_2.
  - intros n. rewrite lookup_empty. split.
    + intros H. apply elem_of_nil in H. contradiction.
    + intros [a Ha]. discriminate.
Qed.

Lemma skeleton_succ_of s1 s2 n :
  skeleton (self s1) = skeleton (self s2) -> succ_of s1 n = succ_of s2 n.
Proof.
  intros H. apply (f_equal graph_) in H. unfold succ_of. cbn in H.
  destruct (graph_ (self s1)) as [g1|], (graph_ (self s2)) as [g2|];
    cbn in *; try discriminate; [|reflexivity].
  injection H as _ Hs _. rewrite Hs. reflexivity.
Qed.

Lemma skeleton_attrs_of s1 s2 n :
  skeleton (self s1) = skeleton (self s2) ->
  is_Some (attrs_of s1 n) <-> is_Some (attrs_of s2 n).
Proof.
  intros H. apply (f_equal graph_) in H. unfold attrs_of. cbn in H.
  destruct (graph_ (self s1)) as [g1|], (graph_ (self s2)) as [g2|];
    cbn in *; try discriminate; [|reflexivity].
  injection H as Hn _ _.
  apply (f_equal (fun m => m !! n)) in Hn. rewrite !lookup_fmap in Hn.
  destruct (nx._node g1 !! n), (nx._node g2 !! n); cbn in Hn;
    try discriminate; split; intros [a Ha]; eauto; discriminate.
Qed.

(** X1.  Whatever the data and the base estimator, a [fit] that returns
    has written nothing but the attributes of the nodes and [estimators_]:
    the constructor's parameters are as they were, and the graph has the
    nodes and edges of [DiGraph(class_hierarchy_)].  In particular
    [classes_] is the list of the graph's nodes without the root, in the
    order the graph lists them and without repetition, [is_tree_] is
    [is_tree] of that graph, the successors of every node are those of the
    hierarchy, and the nodes that carry attributes are the nodes of the
    graph. *)
Theorem fit_writes_attributes_only :
  forall (fuel : nat) (LogisticRegression : sklearn.estimator)
         (X : features) (y : labels) (sample_weight : option (list float))
         (o : HierarchicalClassifier) (s' : state),
    fit fuel LogisticRegression X y sample_weight {| self := o; logged := [] |}
    = Ok tt s' ->
    exists y',
      returned (validate_X_y X y {| self := o; logged := [] |}) = Some y'
      /\ let g := nx.from_dict (hierarchy_of o y') in
         skeleton (self s') = skeleton (self (started o y'))
         /\ classes_ (self s') = filter (fun n => n ≠ root o) (nx.nodes g)
         /\ NoDup (classes_ (self s'))
         /\ (root o ∉ classes_ (self s'))
         /\ is_tree_ (self s') = nx.is_tree g
         /\ (forall n, succ_of s' n = nx._succ g !! n)
         /\ (forall n, is_Some (attrs_of s' n) <-> n ∈ nx.nodes g).
Proof.
  intros fuel LR X y sw o s' Hrun.
  destruct (post_true _ _ _
              (fit_preserves fuel LR X y sw o
                 (fun y' s => skeleton (self s) = skeleton (self (started o y')))
                 (fun y' => eq_refl)
                 (fun y' n => skeleton_build _ fuel X y' n)
                 (fun y' n => skeleton_train _ fuel LR X y' n))
              tt s' Hrun) as (y' & Hy & Hk).
  exists y'. split; [exact Hy|]. cbn zeta.
    pose proof (nodes_listed_from_dict (hierarchy_of o y')) as [Hnd Hin].
    assert (Hcl : classes_ (self s')
                  = filter (fun n => n ≠ root o)
                           (nx.nodes (nx.from_dict (hierarchy_of o y'))))
      by (apply (f_equal classes_) in Hk; exact Hk).
    split; [exact Hk|]. split; [exact Hcl|].
    split; [rewrite Hcl; apply NoDup_filter, Hnd|].
    split; [rewrite Hcl; intros H; apply list_elem_of_filter in H as [H _];
            apply H; reflexivity|].
    split; [apply (f_equal is_tree_) in Hk; exact Hk|].
    split.
  - intros n. rewrite (skeleton_succ_of _ _ n Hk). reflexivity.
  - intros n. rewrite (skeleton_attrs_of _ _ n Hk).
    unfold attrs_of, started, nx.nodes. cbn. symmetry. apply Hin.
Qed.

Lemma fit_writes_attributes_only_in_a_run :
  let s' := state_after (fit 3 uniform_estimator Accumulate.X Accumulate.y None)
                        {| self := Accumulate.unfitted; logged := [] |} in
  exists y',
    returned (validate_X_y Accumulate.X Accumulate.y
                {| self := Accumulate.unfitted; logged := [] |}) = Some y'
    /\ let g := nx.from_dict (hierarchy_of Accumulate.unfitted y') in
       skeleton (self s') = skeleton (self (started Accumulate.unfitted y'))
       /\ classes_ (self s')
          = filter (fun n => n ≠ root Accumulate.unfitted) (nx.nodes g)
       /\ NoDup (classes_ (self s'))
       /\ (root Accumulate.unfitted ∉ classes_ (self s'))
       /\ is_tree_ (self s') = nx.is_tree g
       /\ (forall n, succ_of s' n = nx._succ g !! n)
       /\ (forall n, is_Some (attrs_of s' n) <-> n ∈ nx.nodes g).
Proof.
  cbn zeta.
  apply (fit_writes_attributes_only 3 uniform_estimator Accumulate.X
           Accumulate.y None Accumulate.unfitted).
  apply returned_state_after. vm_compute. reflexivity.
Defined.

(** ** Leaves under "lcpn", and the classifiers the trainer stores *)

Lemma post_nodes_update_state n f s (Q : unit -> state -> Prop)
    (R : exn -> state -> Prop) :
  (forall a g,
     graph_ (self s) = Some g -> nx._node g !! n = Some a ->
     Q tt {| self := with_graph_
                       {| nx._node := <[n := f a]> (nx._node g);
                          nx._succ := nx._succ g; nx._order := nx._order g |}
                       (is_tree_ (self s)) (classes_ (self s)) (self s);
             logged := logged s |}) ->
  (forall e, R e s) ->
  post (nodes_update n f) s Q R.
Proof.
  intros HQ HR. unfold post.
  destruct (graph_ (self s)) as [g|] eqn:Hg.
  - destruct (nx._node g !! n) as [a|] eqn:Ha.
    + rewrite (run_nodes_update s n a g f Hg Ha). exact (HQ a g eq_refl Ha).
    + unfold nodes_update, nodes_getitem.
      rewrite !bind_unfold, (run_get_graph s g Hg), Ha. apply HR.
  - unfold nodes_update, nodes_getitem, get_graph, get_self.
    rewrite !bind_unfold. cbn. rewrite Hg. apply HR.
Qed.

Lemma preserves_and (P Q : state -> Prop) {A} (m : M A) :
  preserves P m -> preserves Q m -> preserves (fun s => P s /\ Q s) m.
Proof.
  intros HP HQ s [Hp Hq]. specialize (HP s Hp). specialize (HQ s Hq).
  unfold post in *. destruct (m s); auto.
Qed.

Lemma preserves_given (C : Prop) (P : state -> Prop) {A} (m : M A) :
  (C -> preserves P m) -> preserves (fun s => C -> P s) m.
Proof.
  intros H s Hs. unfold post.
  destruct (m s) as [a s'|e s'|] eqn:Hm; [| |exact I]; intros Hc;
    specialize (H Hc s (Hs Hc)); unfold post in H; rewrite Hm in H; exact H.
Qed.

Lemma out_degree_returned s n d :
  returned (out_degree n s) = Some d ->
  exists cs, succ_of s n = Some cs /\ d = length cs.
Proof.
  unfold out_degree. rewrite bind_unfold.
  destruct (successors n s) as [cs s'| |] eqn:Hs; try discriminate.
  cbn. intros [= <-]. exists cs. split; [|reflexivity].
  apply successors_returned. rewrite Hs. reflexivity.
Qed.

Section LeafUntouched.
Variables (l : node) (c0 e0 : option sklearn.clf_obj).

Let P : state -> Prop := leaf_untouched l c0 e0.

Lemma leaf_untouched_log_blind : log_blind P.
Proof. intros s r Hs. exact Hs. Qed.

Lemma leaf_untouched_nodes_update n f :
  n ≠ l \/ (forall a, attr_CLASSIFIER (f a) = attr_CLASSIFIER a) ->
  preserves P (nodes_update n f).
Proof.
  intros Hnf s Hs. apply post_nodes_update_state; [|intros; exact Hs].
  intros a g Hg Ha. destruct Hs as (Halg & Hsucc & Hclf & Hest).
  unfold P, leaf_untouched, succ_of, classifier_of, attrs_of in *. cbn.
  rewrite Hg in Hsucc, Hclf. cbn in Hsucc, Hclf.
  repeat split; try assumption.
  destruct (decide (n = l)) as [->|Hne].
  - rewrite lookup_insert_eq. cbn. rewrite Ha in Hclf. cbn in Hclf.
    destruct Hnf as [Hnf|Hnf]; [contradiction|]. rewrite Hnf. exact Hclf.
  - rewrite lookup_insert_ne by exact Hne. exact Hclf.
Qed.

Lemma leaf_untouched_set_estimator n clf :
  n ≠ l -> preserves P (set_estimator n clf).
Proof.
  intros Hne s (Halg & Hsucc & Hclf & Hest).
  unfold post, set_estimator, get_self, put_self. rewrite bind_unfold. cbn.
  unfold P, leaf_untouched, succ_of, classifier_of, attrs_of in *. cbn.
  repeat split; try assumption.
  rewrite lookup_insert_ne by exact Hne. exact Hest.
Qed.

Lemma leaf_untouched_logger r : preserves P (logger r).
Proof. apply preserves_logger, leaf_untouched_log_blind. Qed.

Lemma leaf_untouched_set_X n c : preserves P (nodes_update n (set_X c)).
Proof. apply leaf_untouched_nodes_update. right. reflexivity. Qed.

Lemma leaf_untouched_set_METAFEATURES n mf :
  preserves P (nodes_update n (set_METAFEATURES mf)).
Proof. apply leaf_untouched_nodes_update. right. reflexivity. Qed.

Hint Resolve leaf_untouched_logger leaf_untouched_set_X
  leaf_untouched_set_METAFEATURES preserves_first_target preserves_clf_fit
  preserves_base_estimator_for : preserves.

Lemma leaf_untouched_build fuel X y :
  forall n, preserves P (_recursive_build_features fuel X y n).
Proof.
  induction fuel as [|fuel IH]; intros n; [intros s Hs; exact I|].
  cbn [_recursive_build_features]. unfold accumulate_child.
  preserves_tac.
Qed.

Lemma leaf_untouched_train_local LR X y n :
  preserves P (_train_local_classifier LR X y n).
Proof.
  destruct (decide (n = l)) as [->|Hne].
  - intros s Hs. pose proof Hs as (Halg & Hsucc & _).
    unfold post, _train_local_classifier.
    rewrite (bind_ok _ _ _ _ _ (run_out_degree s l [] Hsucc)).
    rewrite bind_unfold. cbn [get_self length Nat.eqb andb].
    rewrite Halg. apply (leaf_untouched_logger (Debug_skipping_leaf l) s Hs).
  - pose proof (leaf_untouched_set_estimator n) as Hest.
    assert (Hupd : forall f, preserves P (nodes_update n f))
      by (intros f; apply leaf_untouched_nodes_update; left; exact Hne).
    unfold _train_local_classifier. preserves_tac.
Qed.

Lemma leaf_untouched_train fuel LR X y :
  forall n, preserves P (_recursive_train_local_classifiers fuel LR X y n).
Proof.
  induction fuel as [|fuel IH]; intros n; [intros s Hs; exact I|].
  cbn [_recursive_train_local_classifiers].
  pose proof (leaf_untouched_train_local LR X y n).
  preserves_tac.
Qed.

End LeafUntouched.

Lemma started_classifier_of o y n : classifier_of (started o y) n = None.
Proof.
  unfold classifier_of, attrs_of, started. cbn.
  destruct (nx._node _ !! n) as [a|] eqn:Ha; [|reflexivity].
  apply bare_from_dict in Ha. subst a. reflexivity.
Qed.

(** X2.  With [algorithm="lcpn"] a leaf of the hierarchy is never given a
    classifier.  (1) The training pass, started at any node of any graph,
    leaves the CLASSIFIER attribute and the [estimators_] entry of every
    leaf as it found them, whether it returns or raises.  (2) After a [fit]
    that returns, no leaf of the graph has a CLASSIFIER attribute, and its
    entry in [estimators_] is the one the object had before the call (none
    for a new object: [fit] does not reset [estimators_]). *)
Theorem lcpn_leaves_get_no_classifier :
  (forall (fuel : nat) (LogisticRegression : sklearn.estimator)
          (X : features) (y : labels) (n l : node)
          (c0 e0 : option sklearn.clf_obj) (s : state),
     leaf_untouched l c0 e0 s ->
     leaf_untouched l c0 e0
       (state_after
          (_recursive_train_local_classifiers fuel LogisticRegression X y n) s))
  /\ (forall (fuel : nat) (LogisticRegression : sklearn.estimator)
             (X : features) (y : labels) (sample_weight : option (list float))
             (o : HierarchicalClassifier) (s' : state) (l : node),
        String.eqb (algorithm o) "lcpn" = true ->
        fit fuel LogisticRegression X y sample_weight
            {| self := o; logged := [] |} = Ok tt s' ->
        succ_of s' l = Some [] ->
        classifier_of s' l = None
        /\ estimators_ (self s') !! l = estimators_ o !! l).
Proof.
  split.
  - intros fuel LR X y n l c0 e0 s Hs.
    pose proof (leaf_untouched_train l c0 e0 fuel LR X y n s Hs) as H.
    unfold post in H. unfold state_after.
    destruct (_recursive_train_local_classifiers fuel LR X y n s);
      [exact H | exact H | exact Hs].
  - intros fuel LR X y sw o s' l Halg Hrun Hleaf.
    set (P := fun (y' : labels) (s : state) =>
                skeleton (self s) = skeleton (self (started o y'))
                /\ (succ_of (started o y') l = Some [] ->
                    leaf_untouched l None (estimators_ o !! l) s)).
    assert (Hstart : forall y', P y' (started o y')).
    { intros y'. split; [reflexivity|]. intros Hs.
      split; [exact Halg|]. split; [exact Hs|].
      split; [apply started_classifier_of | reflexivity]. }
    assert (Hbuild : forall y' n,
               preserves (P y') (_recursive_build_features fuel X y' n)).
    { intros y' n. apply preserves_and; [apply skeleton_build|].
      apply preserves_given. intros _. apply leaf_untouched_build. }
    assert (Htrain : forall y' n,
               preserves (P y')
                 (_recursive_train_local_classifiers fuel LR X y' n)).
    { intros y' n. apply preserves_and; [apply skeleton_train|].
      apply preserves_given. intros _. apply leaf_untouched_train. }
    destruct (post_true _ _ _
                (fit_preserves fuel LR X y sw o P Hstart Hbuild Htrain)
                tt s' Hrun) as (y' & _ & Hk & Hl).
    rewrite (skeleton_succ_of _ _ l Hk) in Hleaf.
    destruct (Hl Hleaf) as (_ & _ & Hc & He). auto.
Qed.

Lemma lcpn_leaves_in_a_run :
  let s0 := started Accumulate.unfitted Accumulate.y in
  let s' := state_after (fit 3 uniform_estimator Accumulate.X Accumulate.y None)
                        {| self := Accumulate.unfitted; logged := [] |} in
  leaf_untouched (NStr "A") None None
    (state_after
       (_recursive_train_local_classifiers 3 uniform_estimator Accumulate.X
          Accumulate.y Accumulate.ROOT) s0)
  /\ classifier_of s' (NStr "A") = None
  /\ estimators_ (self s') !! NStr "A"
     = estimators_ Accumulate.unfitted !! NStr "A".
Proof.
  cbn zeta. destruct lcpn_leaves_get_no_classifier as [H1 H2]. split.
  - apply H1. repeat split; vm_compute; reflexivity.
  - apply (H2 3%nat uniform_estimator Accumulate.X Accumulate.y None
              Accumulate.unfitted).
    + reflexivity.
    + apply returned_state_after. vm_compute. reflexivity.
    + vm_compute. reflexivity.
Defined.

Lemma post_clf_fit clf X_ y_ s (Q : sklearn.clf_obj -> state -> Prop)
    (R : exn -> state -> Prop) :
  (forall c, sklearn.fit (sklearn.params clf) X_ y_ = inr c ->
             Q {| sklearn.params := sklearn.params clf;
                  sklearn.fitted := Some c |} s) ->
  (forall e, sklearn.fit (sklearn.params clf) X_ y_ = inl e -> R e s) ->
  post (clf_fit clf X_ y_) s Q R.
Proof.
  intros HQ HR. unfold post, clf_fit.
  destruct (sklearn.fit (sklearn.params clf) X_ y_) as [e|c]; cbn; auto.
Qed.

Section Registered.

Lemma registered_log_blind : log_blind registered.
Proof. intros s r Hs. exact Hs. Qed.

Lemma registered_nodes_update n f :
  (forall a, attr_CLASSIFIER (f a) = attr_CLASSIFIER a) ->
  preserves registered (nodes_update n f).
Proof.
  intros Hf s Hs. apply post_nodes_update_state; [|intros; exact Hs].
  intros a g Hg Ha m clf. specialize (Hs m clf).
  unfold classifier_of, attrs_of in *. cbn. rewrite Hg in Hs. cbn in Hs.
  destruct (decide (n = m)) as [->|Hne].
  - rewrite lookup_insert_eq. cbn. rewrite Ha in Hs. cbn in Hs.
    rewrite Hf. exact Hs.
  - rewrite lookup_insert_ne by exact Hne. exact Hs.
Qed.

Lemma registered_logger r : preserves registered (logger r).
Proof. apply preserves_logger, registered_log_blind. Qed.

Lemma registered_set_X n c : preserves registered (nodes_update n (set_X c)).
Proof. apply registered_nodes_update. reflexivity. Qed.

Lemma registered_set_METAFEATURES n mf :
  preserves registered (nodes_update n (set_METAFEATURES mf)).
Proof. apply registered_nodes_update. reflexivity. Qed.

Hint Resolve registered_logger registered_set_X registered_set_METAFEATURES
  preserves_first_target preserves_base_estimator_for : preserves.

Lemma registered_build fuel X y :
  forall n, preserves registered (_recursive_build_features fuel X y n).
Proof.
  induction fuel as [|fuel IH]; intros n; [intros s Hs; exact I|].
  cbn [_recursive_build_features]. unfold accumulate_child.
  preserves_tac.
Qed.

(** The two assignments that end [_train_local_classifier]. *)
Lemma registered_after_store s g a n clf rs :
  graph_ (self s) = Some g -> nx._node g !! n = Some a ->
  registered s -> is_Some (sklearn.fitted clf) ->
  registered
    {| self := with_estimators_
                 (<[n := clf]> (estimators_ (self s)))
                 (with_graph_
                    {| nx._node := <[n := set_CLASSIFIER clf a]> (nx._node g);
                       nx._succ := nx._succ g; nx._order := nx._order g |}
                    (is_tree_ (self s)) (classes_ (self s)) (self s));
       logged := rs |}.
Proof.
  intros Hg Ha Hs Hfit m clf0. specialize (Hs m clf0).
  unfold classifier_of, attrs_of in *. cbn. rewrite Hg in Hs. cbn in Hs.
  destruct (decide (n = m)) as [->|Hne].
  - rewrite !lookup_insert_eq. cbn. intros [= <-]. auto.
  - rewrite !lookup_insert_ne by exact Hne. exact Hs.
Qed.

Lemma registered_after_entry s n clf rs :
  classifier_of s n = None -> registered s ->
  registered
    {| self := with_estimators_ (<[n := clf]> (estimators_ (self s))) (self s);
       logged := rs |}.
Proof.
  intros Hn Hs m clf0 Hm.
  assert (Hm' : classifier_of s m = Some clf0) by exact Hm.
  destruct (decide (n = m)) as [->|Hne]; [congruence|].
  cbn. rewrite lookup_insert_ne by exact Hne. apply (Hs m clf0 Hm').
Qed.

Lemma registered_train_local LR X y n s :
  registered s -> classifier_of s n = None ->
  post (_train_local_classifier LR X y n) s
       (fun _ => registered) (fun _ => registered).
Proof.
  intros Hs Hn. unfold _train_local_classifier.
  quiet_bind; [|exact Hs].
  apply post_bind, post_get_self.
  destruct (_ && _); [apply post_logger; exact Hs|].
  quiet_bind; [|exact Hs].
  match goal with p : (features * targets)%type |- _ =>
    destruct p as [X_ y_] end.
  apply post_bind, post_logger.
  match goal with |- post _ ?st _ _ => set (s1 := st) end.
  assert (Hs1 : registered s1) by exact Hs.
  assert (Hn1 : classifier_of s1 n = None) by exact Hn.
  clearbody s1.
  destruct (_ && _); [apply post_logger; exact Hs1|].
  apply post_bind.
  apply post_weaken with
    (Q := fun _ s2 => registered s2 /\ classifier_of s2 n = None)
    (R := fun _ s2 => registered s2 /\ classifier_of s2 n = None).
  { assert (Hpre : forall A (m : M A),
               preserves registered m ->
               preserves (fun s => classifier_of s n = None) m ->
               post m s1 (fun _ s2 => registered s2 /\ classifier_of s2 n = None)
                         (fun _ s2 => registered s2 /\ classifier_of s2 n = None)).
    { intros A m H1 H2.
      apply (preserves_and registered (fun s => classifier_of s n = None) m
               H1 H2 s1). auto. }
    apply Hpre.
    - preserves_tac.
    - assert (Hlb : log_blind (fun s => classifier_of s n = None))
        by (intros s0 r Hx; exact Hx).
      pose proof (fun r => preserves_logger _ r Hlb).
      preserves_tac. }
  2: { intros e s2 [Hreg _]. exact Hreg. }
  intros clf s2 [Hs2 Hn2]. cbn beta.
  assert (Hstore : forall (rs : list log_record) clf',
             is_Some (sklearn.fitted clf') ->
             post (nodes_update n (set_CLASSIFIER clf');; mret clf')
                  {| self := self s2; logged := logged s2 ++ rs |}
                  (fun clf s3 => post (set_estimator n clf) s3
                                   (fun _ => registered) (fun _ => registered))
                  (fun _ => registered)).
  { intros rs clf' Hfit. apply post_bind.
    apply post_nodes_update_state; [|intros; exact Hs2].
    intros a2 g2 Hg Ha. apply post_ret.
    unfold post, set_estimator, get_self, put_self. rewrite bind_unfold.
    cbn [self logged].
    apply (registered_after_store
             {| self := self s2; logged := logged s2 ++ rs |} g2 a2 n clf');
      assumption. }
  apply post_bind.
  destruct (String.eqb _ "raw").
  - destruct (Nat.ltb _ _).
    + apply post_bind, post_clf_fit; [|intros; exact Hs2].
      intros c _. apply post_bind, post_logger.
      apply (Hstore [Debug_training_node n]). cbn. eauto.
    + apply post_bind, post_logger. apply post_ret.
      unfold post, set_estimator, get_self, put_self. rewrite bind_unfold.
      cbn [self logged].
      apply (registered_after_entry
               {| self := self s2;
                  logged := logged s2 ++ [Debug_could_not_train n] |});
        assumption.
  - apply post_bind, post_clf_fit; [|intros; exact Hs2].
    intros c _.
    pose proof (Hstore [] {| sklearn.params := sklearn.params clf;
                             sklearn.fitted := Some c |}) as Hst.
    rewrite app_nil_r in Hst. destruct s2 as [o2 l2]. apply Hst. cbn. eauto.
Qed.

Lemma registered_train fuel LR X y :
  forall n, preserves registered
              (_recursive_train_local_classifiers fuel LR X y n).
Proof.
  induction fuel as [|fuel IH]; intros n; [intros s Hs; exact I|].
  intros s Hs. cbn [_recursive_train_local_classifiers].
  quiet_bind; [|exact Hs].
  match goal with H : returned _ = Some ?a |- _ =>
    apply nodes_getitem_returned in H; rename H into Ha; rename a into a0 end.
  destruct (attr_CLASSIFIER a0) eqn:Hc; [apply post_ret; exact Hs|].
  assert (Hn : classifier_of s n = None)
    by (unfold classifier_of; rewrite Ha; exact Hc).
  apply post_bind.
  eapply post_weaken; [apply (registered_train_local LR X y n s Hs Hn) | | auto].
  intros u s1 Hs1. cbn beta.
  assert (Hrest : preserves registered
            (children ← successors n;
             for_each children
               (fun _ child =>
                  _recursive_train_local_classifiers fuel LR X y child) tt))
    by preserves_tac.
  apply (Hrest s1 Hs1).
Qed.

End Registered.

(** X3.  The classifiers of the graph are fitted and registered.  (1) The
    training pass keeps the property [registered]: every CLASSIFIER
    attribute is an object on which [fit] has returned, and is the entry
    of its node in [estimators_].  (2) So after a [fit] that returns,
    whatever the data and the base estimator, a node's CLASSIFIER attribute
    is a fitted object and [estimators_] maps the node to the same object.
    (The converse fails in raw mode, where [estimators_] also records the
    estimators that were not fitted.) *)
Theorem graph_classifiers_fitted_and_registered :
  (forall (fuel : nat) (LogisticRegression : sklearn.estimator)
          (X : features) (y : labels) (n : node) (s : state),
     registered s ->
     registered
       (state_after
          (_recursive_train_local_classifiers fuel LogisticRegression X y n) s))
  /\ (forall (fuel : nat) (LogisticRegression : sklearn.estimator)
             (X : features) (y : labels) (sample_weight : option (list float))
             (o : HierarchicalClassifier) (s' : state)
             (n : node) (clf : sklearn.clf_obj),
        fit fuel LogisticRegression X y sample_weight
            {| self := o; logged := [] |} = Ok tt s' ->
        classifier_of s' n = Some clf ->
        is_Some (sklearn.fitted clf)
        /\ estimators_ (self s') !! n = Some clf).
Proof.
  split.
  - intros fuel LR X y n s Hs.
    pose proof (registered_train fuel LR X y n s Hs) as H.
    unfold post in H. unfold state_after.
    destruct (_recursive_train_local_classifiers fuel LR X y n s);
      [exact H | exact H | exact Hs].
  - intros fuel LR X y sw o s' n clf Hrun.
    assert (Hstart : forall y', registered (started o y')).
    { intros y' m clf0 Hm. rewrite started_classifier_of in Hm. discriminate. }
    destruct (post_true _ _ _
                (fit_preserves fuel LR X y sw o (fun _ => registered) Hstart
                   (fun y' m => registered_build fuel X y' m)
                   (fun y' m => registered_train fuel LR X y' m))
                tt s' Hrun) as (y' & _ & Hreg).
    apply Hreg.
Qed.

Lemma graph_classifiers_registered_in_a_run :
  let s' := state_after (fit 3 uniform_estimator Accumulate.X Accumulate.y None)
                        {| self := Accumulate.unfitted; logged := [] |} in
  exists clf,
    classifier_of s' Accumulate.ROOT = Some clf
    /\ is_Some (sklearn.fitted clf)
    /\ estimators_ (self s') !! Accumulate.ROOT = Some clf
    /\ registered
         (state_after
            (_recursive_train_local_classifiers 3 uniform_estimator
               Accumulate.X Accumulate.y (NStr "A")) s').
Proof.
  cbn zeta. destruct graph_classifiers_fitted_and_registered as [H1 H2].
  assert (Hrun : fit 3 uniform_estimator Accumulate.X Accumulate.y None
                     {| self := Accumulate.unfitted; logged := [] |}
                 = Ok tt (state_after
                            (fit 3 uniform_estimator Accumulate.X Accumulate.y
                               None)
                            {| self := Accumulate.unfitted; logged := [] |}))
    by (apply returned_state_after; vm_compute; reflexivity).
  destruct (classifier_of
              (state_after
                 (fit 3 uniform_estimator Accumulate.X Accumulate.y None)
                 {| self := Accumulate.unfitted; logged := [] |})
              Accumulate.ROOT) as [clf|] eqn:Hclf;
    [|vm_compute in Hclf; discriminate].
  exists clf. split; [reflexivity|].
  destruct (H2 _ _ _ _ _ _ _ _ _ Hrun Hclf) as [Hf He].
  split; [exact Hf|]. split; [exact He|].
  apply H1. intros m clf0 Hm. apply (H2 _ _ _ _ _ _ _ _ _ Hrun Hm).
Defined.

(** ** The trainer at a node with several targets *)

(** X4.  The last row of the decision table of [_train_local_classifier]:
    at a node that is not skipped as a leaf, with a training pair
    [(X_, y_)] of at least one row and a number of distinct targets other
    than one, the estimator that [_base_estimator_for] resolves to is
    fitted on [(X_, y_)].  When [clf.fit] returns, the fitted object is
    stored as the node's CLASSIFIER attribute and as its entry of
    [estimators_] (in raw mode after one more debug line).  When [clf.fit]
    raises, the exception leaves [_train_local_classifier] and the object
    is unchanged: nothing is stored for the node. *)
Theorem trainer_fits_resolved_estimator :
  forall (LogisticRegression : sklearn.estimator) (X : features) (y : labels)
         (n : node) (s : state) (X_ : features) (y_ : targets)
         (e : sklearn.estimator) (a : node_attrs),
    trains_at s n = true ->
    returned (training_pair X y n s) = Some (X_, y_) ->
    sklearn.num_rows X_ <> 0%nat ->
    length (np.unique_targets y_) <> 1%nat ->
    resolved LogisticRegression (self s) n = Some e ->
    attrs_of s n = Some a ->
    let announce :=
      Debug_training n (sklearn.num_targets_rows y_)
                     (length (np.unique_targets y_)) in
    (forall c,
       sklearn.fit e X_ y_ = inr c ->
       _train_local_classifier LogisticRegression X y n s
       = Ok tt (stored n (trained_obj e c)
                  (announce ::
                   if String.eqb (feature_extraction (self s)) "raw"
                   then [Debug_training_node n] else []) s))
    /\ (forall err,
          sklearn.fit e X_ y_ = inl err ->
          _train_local_classifier LogisticRegression X y n s
          = Raise err (log_more s [announce])).
Proof.
  intros LR X y n s X_ y_ e a Htrains Hpair Hrows Hnt He Ha. cbn zeta.
  rewrite (train_prefix LR X y n s X_ y_ Htrains Hpair).
  pose proof Hrows as Hpos.
  apply Nat.eqb_neq in Hrows, Hnt. rewrite Hrows, andb_false_r, Hnt.
  replace (Nat.ltb 0 (sklearn.num_rows X_)) with true
    by (symmetry; apply Nat.ltb_lt; lia).
  unfold attrs_of in Ha.
  destruct (graph_ (self s)) as [g|] eqn:Hg; [|discriminate]. cbn in Ha.
  rewrite bind_unfold, bind_unfold.
  rewrite (run_base_estimator_for LR _ n e) by exact He.
  unfold clf_fit. split.
  - intros c Hfit.
    destruct (String.eqb (feature_extraction (self s)) "raw");
      run_m; cbn [sklearn.params sklearn.new]; rewrite Hfit; run_m;
      (erewrite run_nodes_update; [| cbn [self]; exact Hg | exact Ha]);
      run_m; unfold stored, store_classifier; rewrite Hg;
      rewrite (insert_as_alter _ _ _ _ Ha);
      cbn [app]; rewrite <- ?app_assoc; reflexivity.
  - intros err Hfit.
    destruct (String.eqb (feature_extraction (self s)) "raw");
      run_m; cbn [sklearn.params sklearn.new]; rewrite Hfit; reflexivity.
Qed.

Lemma trainer_fits_at_the_root :
  exists c,
    sklearn.fit uniform_estimator Family.X
                (T1 [NStr "A"; NStr "A"; NStr "B"]) = inr c
    /\ _train_local_classifier uniform_estimator Family.X Family.y Family.ROOT
         Family.built
       = Ok tt (stored Family.ROOT (trained_obj uniform_estimator c)
                  [Debug_training Family.ROOT 3 2] Family.built).
Proof.
  eexists. split; [reflexivity|].
  destruct (trainer_fits_resolved_estimator uniform_estimator Family.X Family.y
              Family.ROOT Family.built Family.X
              (T1 [NStr "A"; NStr "A"; NStr "B"]) uniform_estimator
              {| attr_X := Some Family.X; attr_CLASSIFIER := None;
                 attr_METAFEATURES :=
                   Some {| n_samples := 3; n_targets := 3 |} |})
    as [H _].
  - vm_compute. reflexivity.
  - vm_compute. reflexivity.
  - vm_compute. discriminate.
  - vm_compute. discriminate.
  - reflexivity.
  - vm_compute. reflexivity.
  - rewrite (H _ eq_refl).
    apply (f_equal (fun rs => Ok tt (stored Family.ROOT _ rs Family.built))).
    vm_compute. reflexivity.
Defined.

(** * Further properties: the walk *)

(** ** The shape of what a walk returns *)

Lemma add_length a : forall b, length a = length b -> length (np.add a b) = length a.
Proof.
  induction a as [|x a IH]; intros [|y b] H; cbn in *; try reflexivity;
    try discriminate.
  f_equal. apply IH. lia.
Qed.

Lemma py_setitem_length {A} (l l' : list A) i v :
  py_setitem l i v = Some l' -> length l' = length l.
Proof.
  unfold py_setitem. destruct (py_index l i); [|discriminate].
  intros [= <-]. apply length_insert.
Qed.

Lemma post_scatter_class_length probs argmax path v entry s :
  post (scatter_class probs argmax path v entry) s
       (fun v' s' => self s' = self s
                     /\ length (class_proba v') = length (class_proba v))
       (fun _ _ => True).
Proof.
  destruct entry as [i k]. unfold scatter_class.
  apply post_bind, post_get_self.
  destruct (mlb (self s)) as [b|].
  - quiet_bind; [|exact I].
    quiet_bind; [|exact I].
    apply post_bind, post_from_option; [|intros _; exact I]. intros cp Hcp.
    apply py_setitem_length in Hcp.
    quiet_bind; [|exact I].
    destruct (PrimFloat.ltb _ _).
    + quiet_bind; [|exact I]. apply post_ret. auto.
    + apply post_ret. auto.
  - apply post_bind.
    apply post_weaken with (Q := fun _ s' => self s' = self s)
                           (R := fun _ _ => True); [| |auto].
    { destruct (list_index _ _); [apply post_ret; reflexivity|].
      apply post_bind, post_logger. exact I. }
    intros pos s1 Hs1. cbn beta.
    apply post_bind.
    apply post_weaken with (Q := fun _ s' => self s' = self s)
                           (R := fun _ _ => True); [| |auto].
    { assert (Hq : forall m : M float, (forall P, preserves P m) ->
                post m s1 (fun _ s' => self s' = self s) (fun _ _ => True)).
      { intros m Hm. apply post_quiet; auto. }
      apply Hq. intros P. destruct probs as [l|[|r [|r' m]]]; preserves_tac. }
    intros q s2 Hs2. cbn beta.
    apply post_bind, post_from_option; [|intros _; exact I]. intros cp Hcp.
    apply py_setitem_length in Hcp. apply post_ret. auto.
Qed.

Lemma post_keeps_self {A} (m : M A) s :
  (forall P, log_blind P -> preserves P m) ->
  post m s (fun _ s' => self s' = self s) (fun _ _ => True).
Proof.
  intros Hm.
  eapply post_weaken;
    [apply (Hm (fun s' => self s' = self s) (log_blind_self (self s)) s eq_refl)
    | auto | auto].
Qed.

Lemma post_walk_shape fuel :
  (forall x n s,
     post (_recursive_predict fuel x n) s
          (fun r s' => self s' = self s /\ walk_shape (self s) n r)
          (fun _ _ => True))
  /\ (forall x clf path cp pred s,
        length cp = length (classes_ (self s)) ->
        post (while_clf fuel x clf path cp pred) s
             (fun r s' => self s' = self s
                          /\ length (snd r) = length cp
                          /\ exists t, fst r = path ++ t)
             (fun _ _ => True)).
Proof.
  induction fuel as [|fuel [IHp IHw]]; [split; intros; exact I|]. split.
  - intros x n s. cbn [_recursive_predict].
    quiet_bind; [|exact I].
    destruct (attr_CLASSIFIER _) as [clf|];
      [|apply post_ret; split; [reflexivity | left; reflexivity]].
    apply post_bind, post_get_self. apply post_bind.
    eapply post_weaken;
      [apply (IHw x clf [n] (np.zeros_like (classes_ (self s))) None s);
       unfold np.zeros_like; apply length_map | | auto].
    intros [p v] s' (Hself & Hlen & t & Ht). cbn [fst snd] in *.
    apply post_ret. split; [exact Hself|]. right. exists t, v.
    rewrite Ht. split; [reflexivity|].
    rewrite Hlen. unfold np.zeros_like. apply length_map.
  - intros x clf path cp pred s Hcp. cbn [while_clf].
    quiet_bind; [|exact I].
    match goal with t : (ndarray * nat * pyscore)%type |- _ =>
      destruct t as [[probs argmax] score] end.
    quiet_bind; [|exact I].
    match goal with c : sklearn.classifier |- _ => rename c into c0 end.
    cbv zeta. apply post_bind.
    eapply post_weaken;
      [apply (post_for_each _ _ _ s
                (fun v s' => self s' = self s
                             /\ length (class_proba v) = length cp)
                (fun _ _ => True)) | | auto].
    { split; reflexivity. }
    { intros acc e s1 _ [Hs1 Hl1].
      eapply post_weaken; [apply post_scatter_class_length | | auto].
      intros v' s2 [Hs2 Hl2]. split; congruence. }
    intros v s1 [Hs1 Hl1]. cbn beta.
    apply post_bind, post_get_self.
    destruct (mlb (self s1)) as [b|].
    + eapply post_weaken;
        [apply (post_for_each _ _ _ s1
                  (fun acc s' => self s' = self s
                                 /\ length (snd acc) = length cp
                                 /\ exists t, fst acc = path ++ t)
                  (fun _ _ => True)) | | auto].
      * split; [exact Hs1|]. split; [exact Hl1|]. exists []. cbn.
        rewrite app_nil_r. reflexivity.
      * intros acc t s2 _ (Hs2 & Hl2 & u & Hu).
        apply post_bind.
        eapply post_weaken; [apply (IHp x t s2) | | auto].
        intros [pred_path preds_prob] s3 [Hs3 Hshape]. cbn beta iota zeta.
        assert (Hpath : exists t', fst acc ++ [t] = path ++ t')
          by (exists (u ++ [t]); rewrite Hu, app_assoc; reflexivity).
        destruct Hshape as [[= -> ->]|(p' & v' & [= -> ->] & Hv')].
        -- apply post_ret. cbn [fst snd]. split; [congruence|]. auto.
        -- apply post_bind, post_from_option; [|intros; discriminate].
           intros pp [= <-]. apply post_ret. cbn [fst snd].
           split; [congruence|]. split.
           ++ rewrite add_length; [exact Hl2|]. congruence.
           ++ destruct Hpath as [t' Ht']. exists (t' ++ t :: p').
              rewrite Ht', app_assoc. reflexivity.
      * intros r s2 Hr. exact Hr.
    + quiet_bind; [|exact I].
      quiet_bind; [|exact I].
      apply post_bind.
      eapply post_weaken;
        [apply post_keeps_self; intros P HP;
         apply preserves_should_early_terminate, HP | | auto].
      intros stop s2 Hs2. cbn beta.
      destruct stop.
      * apply post_ret. cbn [fst snd]. split; [congruence|].
        split; [exact Hl1|]. exists []. rewrite app_nil_r. reflexivity.
      * quiet_bind; [|exact I].
        destruct (attr_CLASSIFIER _) as [clf'|].
        -- eapply post_weaken;
             [apply (IHw x clf' _ (class_proba v) _ s2); congruence | | auto].
           intros r s3 (Hs3 & Hl3 & t & Ht). split; [congruence|].
           split; [congruence|]. eexists. rewrite Ht, <- app_assoc. reflexivity.
        -- apply post_ret. cbn [fst snd]. split; [congruence|].
           split; [exact Hl1|]. eauto.
Qed.

#[local] Hint Resolve preserves_check_is_fitted preserves_examples_of
  : preserves.

Lemma post_comprehension_all {A B} (f : B -> M A) (l : list B) s
    (I : state -> Prop) (G : A -> Prop) (R : exn -> state -> Prop) :
  I s ->
  (forall x s, x ∈ l -> I s -> post (f x) s (fun a s' => I s' /\ G a) R) ->
  post (comprehension f l) s
       (fun vs s' => I s' /\ Forall G vs /\ length vs = length l) R.
Proof.
  revert s. induction l as [|x l IH]; intros s HI Hf.
  - apply post_ret. auto.
  - cbn [comprehension]. apply post_bind.
    eapply post_weaken; [apply Hf; [left | exact HI] | | auto].
    intros v s' [HI' Hv]. cbn beta. apply post_bind.
    eapply post_weaken; [apply IH; [exact HI' |] | | auto].
    + intros; apply Hf; [right|]; assumption.
    + intros vs s'' (HI'' & Hvs & Hlen). apply post_ret.
      split; [exact HI''|]. split; [constructor; assumption|].
      cbn. rewrite Hlen. reflexivity.
Qed.

Lemma post_examples_of X s (Q : list example -> state -> Prop)
    (R : exn -> state -> Prop) :
  (forall xs, length xs = sklearn.num_rows X -> Q xs s) ->
  (forall e, R e s) ->
  post (examples_of X) s Q R.
Proof.
  intros HQ HR. unfold examples_of. apply post_bind, post_get_self.
  destruct (String.eqb _ _).
  - destruct X as [m|l]; [apply HR|]. apply post_ret, HQ.
    cbn. apply length_map.
  - destruct X as [[|r m]|l]; [apply HR | | apply HR]. apply post_ret, HQ.
    cbn. rewrite length_map. reflexivity.
Qed.

(** X5.  The walk returns one score for each class.  (1) A call of
    [_recursive_predict] at the node [n] that returns gives either
    [(None, None)] or a path that starts at [n] together with a vector of
    [len(classes_)] scores, in single-label and in multi-label mode and
    whatever the classifiers at the nodes answer: the scatter loop only
    assigns inside the vector, and the fan-out only adds vectors of that
    length.  (2) [predict_proba], when it returns, gives one entry for
    each example of [X], and every entry that is not [None] is a vector of
    [len(classes_)] scores. *)
Theorem walk_scores_every_class :
  (forall (fuel : nat) (x : example) (n : node) (s s' : state)
          (r : walk_result),
     _recursive_predict fuel x n s = Ok r s' ->
     walk_shape (self s) n r)
  /\ (forall (fuel : nat) (X : features) (s s' : state)
             (rows : list (option (list float))),
        predict_proba fuel X s = Ok rows s' ->
        length rows = sklearn.num_rows X
        /\ forall v, Some v ∈ rows -> length v = length (classes_ (self s))).
Proof.
  split.
  - intros fuel x n s s' r Hrun.
    pose proof (proj1 (post_walk_shape fuel) x n s) as H.
    unfold post in H. rewrite Hrun in H. apply H.
  - intros fuel X s s' rows Hrun.
    assert (H : post (predict_proba fuel X) s
                  (fun rows s' =>
                     length rows = sklearn.num_rows X
                     /\ forall v, Some v ∈ rows ->
                                  length v = length (classes_ (self s)))
                  (fun _ _ => True)).
    { unfold predict_proba. quiet_bind; [|exact I].
      apply post_bind, post_examples_of; [|intros; exact I].
      intros xs Hxs.
      eapply post_weaken;
        [apply (post_comprehension_all _ xs s
                  (fun s' => self s' = self s)
                  (fun r => forall v, r = Some v ->
                                      length v = length (classes_ (self s)))
                  (fun _ _ => True)) | | auto].
      - reflexivity.
      - intros x s1 _ Hs1. apply post_bind, post_get_self. apply post_bind.
        eapply post_weaken;
          [apply (proj1 (post_walk_shape fuel) x (root (self s1)) s1) | | auto].
        intros [p scores] s2 [Hs2 Hshape]. cbn beta iota. apply post_ret.
        split; [congruence|]. intros v ->.
        destruct Hshape as [[=]|(p' & v' & [= -> ->] & Hlen)]. congruence.
      - intros vs s2 (_ & Hall & Hlen). split; [congruence|].
        intros v Hv. rewrite Forall_forall in Hall. apply (Hall _ Hv v eq_refl). }
    unfold post in H. rewrite Hrun in H. exact H.
Qed.

Lemma walk_scores_every_class_in_a_run :
  walk_shape (self Stopping.mandatory) Stopping.ROOT
    (Some [Stopping.ROOT; NStr "C"; NStr "D"],
     Some [0.9; 0.1; 0.5; 0.5]%float)
  /\ length (classes_ (self Stopping.mandatory)) = 4%nat
  /\ exists rows,
       returned (predict_proba 3 (FCsr [[1]; [2]]%float) Stopping.mandatory)
       = Some rows
       /\ length rows = 2%nat
       /\ forall v, Some v ∈ rows ->
                    length v = length (classes_ (self Stopping.mandatory)).
Proof.
  destruct walk_scores_every_class as [H1 H2]. split; [|split].
  - apply (H1 3%nat Stopping.x Stopping.ROOT Stopping.mandatory
             (state_after (_recursive_predict 3 Stopping.x Stopping.ROOT)
                Stopping.mandatory)).
    apply (returned_state_after
             (_recursive_predict 3 Stopping.x Stopping.ROOT)
             Stopping.mandatory).
    vm_compute. reflexivity.
  - vm_compute. reflexivity.
  - exists [Some [0.9; 0.1; 0.5; 0.5]%float; Some [0.9; 0.1; 0.5; 0.5]%float].
    split; [vm_compute; reflexivity|].
    apply (H2 3%nat (FCsr [[1]; [2]]%float) Stopping.mandatory
             (state_after (predict_proba 3 (FCsr [[1]; [2]]%float))
                Stopping.mandatory)).
    apply (returned_state_after (predict_proba 3 (FCsr [[1]; [2]]%float))
             Stopping.mandatory).
    vm_compute. reflexivity.
Defined.

(** * Further properties: [predict] and [predict_proba] *)

Lemma walk_at_bare_node fuel x n s a :
  attrs_of s n = Some a -> attr_CLASSIFIER a = None ->
  _recursive_predict (S fuel) x n s = Ok (None, None) s.
Proof.
  intros Ha Hc. cbn [_recursive_predict].
  rewrite (bind_ok _ _ _ _ _ (run_nodes_getitem s n a Ha)), Hc. reflexivity.
Qed.



(** * Further properties: the single-label walk *)

Lemma py_index_of_nat {A} (l : list A) pos :
  (pos < length l)%nat -> py_index l (Z.of_nat pos) = Some pos.
Proof.
  intros H. unfold py_index.
  replace ((0 <=? Z.of_nat pos) && (Z.of_nat pos <? Z.of_nat (length l)))
    with true by (symmetry; apply andb_true_iff; split; lia).
  rewrite Nat2Z.id. reflexivity.
Qed.

Lemma list_index_None l k : list_index l k = None <-> k ∉ l.
Proof.
  induction l as [|y l IH]; cbn.
  - split; [intros _ H; inversion H | reflexivity].
  - destruct (decide (k = y)) as [->|Hne].
    + split; [discriminate | intros H; exfalso; apply H; left].
    + rewrite not_elem_of_cons. destruct (list_index l k); cbn.
      * split; [discriminate|]. intros [_ H]. apply IH in H. discriminate.
      * split; [|reflexivity]. intros _. split; [exact Hne | apply IH; reflexivity].
Qed.

Lemma list_index_Some l k : k ∈ l -> exists pos, list_index l k = Some pos.
Proof.
  intros Hin. destruct (list_index l k) as [pos|] eqn:H; [eauto|].
  apply list_index_None in H. contradiction.
Qed.

Section SingleLabelRuns.
Variable s : state.
Hypothesis Hnone : mlb (self s) = None.
Variables (p : list float) (argmax : nat) (path : list node).

Lemma scatter_turn_runs v i k pos q :
  list_index (classes_ (self s)) k = Some pos ->
  p !! i = Some q ->
  (pos < length (class_proba v))%nat ->
  scatter_class (Arr1 p) argmax path v (i, k) s
  = Ok {| class_proba := <[pos := q]> (class_proba v);
          prediction := if Nat.eqb i argmax then Some k else prediction v;
          predictions := predictions v |} s.
Proof.
  intros Hpos Hq Hlt. unfold scatter_class, index1, as_scalar, py_setitem.
  run_m. rewrite Hnone, Hpos. cbn. rewrite Hq. cbn.
  rewrite (py_index_of_nat _ _ Hlt). reflexivity.
Qed.

Lemma scatter_turn_mismatch v i k :
  list_index (classes_ (self s)) k = None ->
  scatter_class (Arr1 p) argmax path v (i, k) s
  = Raise ValueError (log_more s [Error_no_class_index k path]).
Proof.
  intros Hpos. unfold scatter_class. run_m. rewrite Hnone, Hpos. reflexivity.
Qed.

Lemma scatter_loop_runs :
  forall l a v,
    (a + length l <= length p)%nat ->
    length (class_proba v) = length (classes_ (self s)) ->
    (forall k, k ∈ l -> k ∈ classes_ (self s)) ->
    exists v',
      for_each (zip (seq a (length l)) l)
               (scatter_class (Arr1 p) argmax path) v s = Ok v' s
      /\ length (class_proba v') = length (class_proba v)
      /\ predictions v' = predictions v
      /\ prediction v'
         = if bool_decide (a <= argmax < a + length l)%nat
           then l !! (argmax - a)%nat else prediction v.
Proof.
  induction l as [|k l IH]; intros a v Hp Hlen Hin.
  - exists v. cbn. rewrite bool_decide_eq_false_2 by lia. auto.
  - cbn [length seq zip zip_with for_each].
    destruct (list_index_Some _ k (Hin k ltac:(left))) as [pos Hpos].
    destruct (lookup_lt_is_Some_2 p a ltac:(cbn in Hp; lia)) as [q Hq].
    assert (Hlt : (pos < length (class_proba v))%nat).
    { rewrite Hlen. apply list_index_lookup in Hpos.
      apply lookup_lt_Some in Hpos. exact Hpos. }
    rewrite (bind_ok _ _ _ _ _ (scatter_turn_runs v a k pos q Hpos Hq Hlt)).
    set (v1 := {| class_proba := <[pos := q]> (class_proba v);
                  prediction := if Nat.eqb a argmax then Some k
                                else prediction v;
                  predictions := predictions v |}).
    assert (Hlen1 : length (class_proba v1) = length (classes_ (self s)))
      by (subst v1; cbn [class_proba]; rewrite length_insert; exact Hlen).
    destruct (IH (S a) v1 ltac:(cbn in Hp; lia) Hlen1
                 ltac:(intros; apply Hin; right; assumption))
      as (v' & Hrun & Hl & Hps & Hpred).
    exists v'. split; [exact Hrun|].
    subst v1. cbn [class_proba predictions prediction] in Hl, Hps, Hpred.
    rewrite length_insert in Hl. split; [exact Hl|]. split; [exact Hps|].
    rewrite Hpred. cbn [length].
    destruct (decide (a = argmax)) as [->|Hne].
    + rewrite Nat.eqb_refl, Nat.sub_diag.
      rewrite bool_decide_eq_false_2 by lia.
      rewrite bool_decide_eq_true_2 by lia. reflexivity.
    + replace (Nat.eqb a argmax) with false
        by (symmetry; apply Nat.eqb_neq; exact Hne).
      destruct (decide (S a <= argmax < S a + length l)%nat) as [Hr|Hr].
      * rewrite !bool_decide_eq_true_2 by lia.
        replace (argmax - a)%nat with (S (argmax - S a)) by lia. reflexivity.
      * rewrite !bool_decide_eq_false_2 by lia. reflexivity.
Qed.

Lemma scatter_loop_mismatch :
  forall pre k post a v,
    (a + length pre <= length p)%nat ->
    length (class_proba v) = length (classes_ (self s)) ->
    (forall k', k' ∈ pre -> k' ∈ classes_ (self s)) ->
    k ∉ classes_ (self s) ->
    for_each (zip (seq a (length (pre ++ k :: post))) (pre ++ k :: post))
             (scatter_class (Arr1 p) argmax path) v s
    = Raise ValueError (log_more s [Error_no_class_index k path]).
Proof.
  induction pre as [|k0 pre IH]; intros k post a v Hp Hlen Hin Hk.
  - cbn [app length seq zip zip_with for_each]. rewrite bind_unfold.
    rewrite scatter_turn_mismatch by (apply list_index_None; exact Hk).
    reflexivity.
  - cbn [app length seq zip zip_with for_each].
    destruct (list_index_Some _ k0 (Hin k0 ltac:(left))) as [pos Hpos].
    destruct (lookup_lt_is_Some_2 p a ltac:(cbn in Hp; lia)) as [q Hq].
    assert (Hlt : (pos < length (class_proba v))%nat).
    { rewrite Hlen. apply list_index_lookup in Hpos.
      apply lookup_lt_Some in Hpos. exact Hpos. }
    rewrite (bind_ok _ _ _ _ _ (scatter_turn_runs v a k0 pos q Hpos Hq Hlt)).
    apply IH.
    + cbn in Hp. lia.
    + cbn [class_proba]. rewrite length_insert. exact Hlen.
    + intros; apply Hin; right; assumption.
    + exact Hk.
Qed.

End SingleLabelRuns.

Lemma score_example_returned clf x s r :
  returned (score_example clf x s) = Some r -> score_example clf x s = Ok r s.
Proof.
  apply preserves_all_returned. intros P. apply preserves_score_example.
Qed.

Lemma while_clf_unfold f x clf path class_proba0 prediction0 :
  while_clf (S f) x clf path class_proba0 prediction0
  = ('(probs, argmax, score) ← score_example clf x;
     c ← from_option NotFittedError (sklearn.fitted clf);
     let v0 := {| class_proba := class_proba0;
                  prediction := match sklearn.classes_ c with
                                | [only] => Some only
                                | _ => prediction0
                                end;
                  predictions := [] |} in
     v ← for_each (enumerate (sklearn.classes_ c))
                  (scatter_class probs argmax path) v0;
     o ← get_self;
     match mlb o with
     | None =>
         current_node ← from_option IndexError (last path);
         prediction ← from_option UnboundLocalError (prediction v);
         stop ← _should_early_terminate current_node prediction score;
         if (stop : bool) then mret (path, class_proba v)
         else
           a ← nodes_getitem prediction;
           match attr_CLASSIFIER a with
           | Some clf' =>
               while_clf f x clf' (path ++ [prediction]) (class_proba v)
                         (Some prediction)
           | None => mret (path ++ [prediction], class_proba v)
           end
     | Some _ =>
         for_each (predictions v)
           (fun acc prediction =>
              '(pred_path, preds_prob) ← _recursive_predict f x prediction;
              let path := fst acc ++ [prediction] in
              match preds_prob with
              | Some preds_prob =>
                  pred_path ← from_option TypeError pred_path;
                  mret (path ++ pred_path, np.add (snd acc) preds_prob)
              | None => mret (path, snd acc)
              end)
           (path, class_proba v)
     end).
Proof. reflexivity. Qed.

Lemma recursive_predict_unfold f x n :
  _recursive_predict (S f) x n
  = (a ← nodes_getitem n;
     match attr_CLASSIFIER a with
     | None => mret (None, None)
     | Some clf =>
         o ← get_self;
         r ← while_clf f x clf [n] (np.zeros_like (classes_ o)) None;
         mret (Some (fst r), Some (snd r))
     end).
Proof. reflexivity. Qed.

(** X7.  A class of a node's classifier that is not in [classes_] stops
    the single-label walk with a ValueError.  When the classifier stored at
    [n] lists a class [k] that [classes_] does not hold (the classes before
    [k] being found, and scored), the walk logs one error line naming [k]
    and the path, and raises ValueError; nothing else is logged and the
    object is unchanged. *)
Theorem walk_raises_on_unknown_class :
  forall (fuel : nat) (x : example) (n : node) (s : state) (a : node_attrs)
         (clf : sklearn.clf_obj) (c : sklearn.classifier)
         (p : list float) (argmax : nat) (score : pyscore)
         (pre post : list node) (k : node),
    mlb (self s) = None ->
    attrs_of s n = Some a ->
    attr_CLASSIFIER a = Some clf ->
    sklearn.fitted clf = Some c ->
    returned (score_example clf x s) = Some (Arr1 p, argmax, score) ->
    sklearn.classes_ c = pre ++ k :: post ->
    (forall k', k' ∈ pre -> k' ∈ classes_ (self s)) ->
    k ∉ classes_ (self s) ->
    (length pre <= length p)%nat ->
    _recursive_predict (S (S fuel)) x n s
    = Raise ValueError (log_more s [Error_no_class_index k [n]]).
Proof.
  intros fuel x n s a clf c p argmax score pre post k
         Hnone Ha Hclf Hc Hscore Hclasses Hpre Hk Hlen.
  rewrite recursive_predict_unfold.
  rewrite (bind_ok _ _ _ _ _ (run_nodes_getitem s n a Ha)), Hclf.
  rewrite bind_unfold. cbn [get_self]. rewrite bind_unfold.
  rewrite while_clf_unfold.
  rewrite (bind_ok _ _ _ _ _ (score_example_returned _ _ _ _ Hscore)).
  rewrite Hc. rewrite bind_unfold. cbn [from_option mret M_ret]. cbv zeta.
  rewrite bind_unfold. unfold enumerate. rewrite Hclasses.
  rewrite (scatter_loop_mismatch s Hnone p argmax [n] pre k post 0);
    [reflexivity | cbn; lia | apply length_map | exact Hpre | exact Hk].
Qed.

Lemma walk_raises_on_unknown_class_at_root :
  _recursive_predict 2 Stopping.x Stopping.ROOT Mismatch.fitted
  = Raise ValueError
      (log_more Mismatch.fitted
         [Error_no_class_index (NStr "Z") [Stopping.ROOT]]).
Proof.
  apply (walk_raises_on_unknown_class 0 Stopping.x Stopping.ROOT
           Mismatch.fitted
           {| attr_X := None;
              attr_CLASSIFIER := Some (fitted_obj Mismatch.at_root);
              attr_METAFEATURES := None |}
           (fitted_obj Mismatch.at_root) Mismatch.at_root
           [0.9; 0.1]%float 0%nat (SFloat 0.9) [NStr "C"] [] (NStr "Z")).
  - reflexivity.
  - vm_compute. reflexivity.
  - reflexivity.
  - reflexivity.
  - vm_compute. reflexivity.
  - reflexivity.
  - intros k' Hk'. apply list_elem_of_singleton in Hk' as ->.
    vm_compute. apply list_elem_of_here.
  - vm_compute. intros H.
    repeat (apply elem_of_cons in H as [H|H]; [discriminate|]).
    inversion H.
  - cbn. lia.
Defined.

Lemma should_not_terminate s n k score :
  String.eqb (prediction_depth (self s)) "nmlnp" = false ->
  _should_early_terminate n k score s = Ok false s.
Proof.
  intros Hd. unfold _should_early_terminate, get_self.
  rewrite bind_unfold. cbn. rewrite Hd. reflexivity.
Qed.

Section Descent.
Variables (s : state) (x : example).
Hypothesis Hnone : mlb (self s) = None.
Hypothesis Hdepth : String.eqb (prediction_depth (self s)) "nmlnp" = false.

(** One turn of the [while clf:] loop, up to the lookup of the next
    classifier. *)
Lemma while_clf_turn f clf k path cur cp pred :
  chooses s x clf k ->
  last path = Some cur ->
  length cp = length (classes_ (self s)) ->
  exists v,
    length v = length cp
    /\ while_clf (S f) x clf path cp pred s
       = (a ← nodes_getitem k;
          match attr_CLASSIFIER a with
          | Some clf' => while_clf f x clf' (path ++ [k]) v (Some k)
          | None => mret (path ++ [k], v)
          end) s.
Proof.
  intros (c & p & argmax & score & Hc & Hscore & Hlen & Hsub & Hk) Hlast Hcp.
  destruct (scatter_loop_runs s Hnone p argmax path (sklearn.classes_ c) 0
              {| class_proba := cp;
                 prediction := match sklearn.classes_ c with
                               | [only] => Some only
                               | _ => pred
                               end;
                 predictions := [] |}
              ltac:(cbn; lia) Hcp Hsub)
    as (v & Hrun & Hl & _ & Hpred).
  cbn [class_proba prediction] in Hl, Hpred.
  rewrite bool_decide_eq_true_2 in Hpred
    by (apply lookup_lt_Some in Hk; lia).
  rewrite Nat.sub_0_r, Hk in Hpred.
  exists (class_proba v). split; [exact Hl|].
  rewrite while_clf_unfold.
  rewrite (bind_ok _ _ _ _ _ (score_example_returned _ _ _ _ Hscore)).
  rewrite Hc. rewrite bind_unfold. cbn [from_option mret M_ret]. cbv zeta.
  unfold enumerate. rewrite (bind_ok _ _ _ _ _ Hrun).
  rewrite bind_unfold. cbn [get_self]. rewrite Hnone, Hlast, Hpred.
  rewrite bind_unfold. cbn [from_option mret M_ret].
  rewrite bind_unfold. cbn [from_option mret M_ret].
  rewrite (bind_ok _ _ _ _ _ (should_not_terminate s cur k score Hdepth)).
  reflexivity.
Qed.

Lemma while_clf_descends clf t :
  descends s x clf t ->
  forall fuel path cur cp pred,
    (length t <= fuel)%nat ->
    last path = Some cur ->
    length cp = length (classes_ (self s)) ->
    exists v,
      while_clf fuel x clf path cp pred s = Ok (path ++ t, v) s
      /\ length v = length cp.
Proof.
  induction 1 as [clf k a Hch Ha Hc | clf k clf' t Hch Hclf' Hdesc IH];
    intros fuel path cur cp pred Hfuel Hlast Hcp.
  - destruct fuel as [|fuel]; [cbn in Hfuel; lia|].
    destruct (while_clf_turn fuel clf k path cur cp pred Hch Hlast Hcp)
      as (v & Hl & ->).
    rewrite (bind_ok _ _ _ _ _ (run_nodes_getitem s k a Ha)), Hc.
    exists v. split; [reflexivity | exact Hl].
  - destruct fuel as [|fuel]; [cbn in Hfuel; lia|].
    destruct (while_clf_turn fuel clf k path cur cp pred Hch Hlast Hcp)
      as (v & Hl & ->).
    unfold classifier_of in Hclf'.
    destruct (attrs_of s k) as [a|] eqn:Ha; [|discriminate]. cbn in Hclf'.
    rewrite (bind_ok _ _ _ _ _ (run_nodes_getitem s k a Ha)), Hclf'.
    destruct (IH fuel (path ++ [k]) k v (Some k)) as (v' & Hrun & Hl').
    + cbn in Hfuel. lia.
    + apply last_snoc.
    + congruence.
    + exists v'. rewrite Hrun, <- app_assoc. split; [reflexivity | congruence].
Qed.

End Descent.

(** X8.  Without a binarizer and with a [prediction_depth] other than
    "nmlnp", the walk goes down the hierarchy along the classes the node
    classifiers choose.  When the classifier at [n] chooses [k1], the one
    at [k1] chooses [k2], and so on down to a node [km] that carries no
    classifier ([descends]), a walk from [n] with fuel for these steps
    returns the path [n, k1, ..., km], a vector with one score for each
    class of [classes_], and the object and the log as they were. *)
Theorem walk_follows_the_chosen_classes :
  forall (fuel : nat) (x : example) (n : node) (s : state)
         (clf : sklearn.clf_obj) (t : list node),
    mlb (self s) = None ->
    String.eqb (prediction_depth (self s)) "nmlnp" = false ->
    classifier_of s n = Some clf ->
    descends s x clf t ->
    (length t <= fuel)%nat ->
    exists v,
      _recursive_predict (S fuel) x n s = Ok (Some (n :: t), Some v) s
      /\ length v = length (classes_ (self s)).
Proof.
  intros fuel x n s clf t Hnone Hdepth Hclf Hdesc Hfuel.
  unfold classifier_of in Hclf.
  destruct (attrs_of s n) as [a|] eqn:Ha; [|discriminate]. cbn in Hclf.
  destruct (while_clf_descends s x Hnone Hdepth clf t Hdesc fuel [n] n
              (np.zeros_like (classes_ (self s))) None Hfuel eq_refl)
    as (v & Hrun & Hl).
  { unfold np.zeros_like. apply length_map. }
  exists v. rewrite recursive_predict_unfold.
  rewrite (bind_ok _ _ _ _ _ (run_nodes_getitem s n a Ha)), Hclf.
  rewrite bind_unfold. cbn [get_self]. rewrite bind_unfold, Hrun.
  split; [reflexivity|]. rewrite Hl. unfold np.zeros_like. apply length_map.
Qed.

Lemma walk_follows_in_the_stopping_model :
  exists v,
    _recursive_predict 3 Stopping.x Stopping.ROOT Stopping.mandatory
    = Ok (Some [Stopping.ROOT; NStr "C"; NStr "D"], Some v) Stopping.mandatory
    /\ length v = length (classes_ (self Stopping.mandatory)).
Proof.
  assert (Hsub : forall l : list node,
             forallb (fun k => bool_decide (k ∈ classes_ (self Stopping.mandatory)))
                     l = true ->
             forall k', k' ∈ l -> k' ∈ classes_ (self Stopping.mandatory)).
  { intros l Hl k' Hk'. rewrite forallb_forall in Hl.
    apply (bool_decide_eq_true_1 _). apply Hl.
    apply list_elem_of_In. exact Hk'. }
  apply (walk_follows_the_chosen_classes 2 Stopping.x Stopping.ROOT
           Stopping.mandatory
           (fitted_obj (constant_scores [NStr "C"; NStr "F"] [0.9; 0.1]%float))
           [NStr "C"; NStr "D"]).
  - reflexivity.
  - reflexivity.
  - vm_compute. reflexivity.
  - apply descends_step
      with (clf' := fitted_obj
                      (constant_scores [NStr "D"; NStr "E"] [0.5; 0.5]%float)).
    + exists (constant_scores [NStr "C"; NStr "F"] [0.9; 0.1]%float),
        [0.9; 0.1]%float, 0%nat, (SFloat 0.9).
      split; [reflexivity|]. split; [vm_compute; reflexivity|].
      split; [reflexivity|]. split; [|reflexivity].
      apply Hsub. vm_compute. reflexivity.
    + vm_compute. reflexivity.
    + apply descends_last with (a := no_attrs).
      * exists (constant_scores [NStr "D"; NStr "E"] [0.5; 0.5]%float),
          [0.5; 0.5]%float, 0%nat, (SFloat 0.5).
        split; [reflexivity|]. split; [vm_compute; reflexivity|].
        split; [reflexivity|]. split; [|reflexivity].
        apply Hsub. vm_compute. reflexivity.
      * vm_compute. reflexivity.
      * reflexivity.
  - cbn. lia.
Defined.

(** * Further properties: a [fit] that raises *)

Lemma fit_outcomes fuel LR X y sw o (P : labels -> state -> Prop) :
  (forall y', P y' (started o y')) ->
  (forall y' n, preserves (P y') (_recursive_build_features fuel X y' n)) ->
  (forall y' n,
     preserves (P y') (_recursive_train_local_classifiers fuel LR X y' n)) ->
  post (fit fuel LR X y sw) {| self := o; logged := [] |}
       (fun _ s' =>
          exists y',
            returned (validate_X_y X y {| self := o; logged := [] |}) = Some y'
            /\ P y' s')
       (fun _ s' =>
          s' = {| self := o; logged := [] |}
          \/ exists y',
               returned (validate_X_y X y {| self := o; logged := [] |})
               = Some y'
               /\ P y' s').
Proof.
  intros Hstart Hbuild Htrain. unfold fit.
  quiet_bind; [|left; reflexivity].
  match goal with H : returned _ = Some ?a |- _ =>
    rename H into Hy; rename a into y' end.
  apply post_bind.
  apply (post_quiet _ _ _ _);
    [intros Q; destruct sw; preserves_tac | | left; reflexivity].
  intros u _.
  quiet_bind; [|left; reflexivity].
  apply post_bind, post_get_self. cbn [self].
  apply post_bind, post_put_self. cbn [logged].
  assert (Hb : preserves (P y')
                 (if String.eqb (feature_extraction o) "preprocessed" then
                    _recursive_build_features fuel X y' (root o);; mret tt
                  else mret tt)).
  { destruct (String.eqb _ _).
    - apply preserves_bind; [apply Hbuild | intros; apply preserves_ret].
    - apply preserves_ret. }
  apply post_bind.
  eapply post_weaken; [apply (Hb _ (Hstart y')) | | ].
  - intros u1 s1 H1. cbn beta.
    eapply post_weaken; [apply (Htrain y' (root o) s1 H1) | | ].
    + intros u2 s2 H2. exists y'. auto.
    + intros e s2 H2. right. exists y'. auto.
  - intros e s1 H1. right. exists y'. auto.
Qed.

(** X9.  A [fit] that raises leaves the object untouched or with its
    hierarchy in place.  (1) Whatever the inputs, when [fit] raises, either
    nothing was written and nothing logged, or the validation had passed
    and the object holds the graph of the hierarchy, [classes_] and
    [is_tree_] as a [fit] that returns sets them (with the attributes and
    [estimators_] entries written so far): [graph_] is set, so the object
    counts as fitted for [predict].  (2) Nothing is written when the
    validation refuses the input: in raw mode when [len(X)] differs from
    the length of [y], in any mode when [sample_weight] has not the length
    of [y], and when the parameter check raises. *)
Theorem fit_raises_untouched_or_started :
  forall (fuel : nat) (LogisticRegression : sklearn.estimator)
         (X : features) (y : labels) (sample_weight : option (list float))
         (o : HierarchicalClassifier),
    let s := {| self := o; logged := [] |} in
    (forall e s',
       fit fuel LogisticRegression X y sample_weight s = Raise e s' ->
       s' = s
       \/ exists y',
            returned (validate_X_y X y s) = Some y'
            /\ skeleton (self s') = skeleton (self (started o y'))
            /\ is_Some (graph_ (self s')))
    /\ (forall l,
          String.eqb (feature_extraction o) "raw" = true ->
          X = FRaw l -> length l <> np.len y ->
          fit fuel LogisticRegression X y sample_weight s = Raise ValueError s)
    /\ (forall y' w,
          returned (validate_X_y X y s) = Some y' ->
          sample_weight = Some w -> length w <> np.len y' ->
          fit fuel LogisticRegression X y sample_weight s = Raise ValueError s)
    /\ (forall y' e,
          returned (validate_X_y X y s) = Some y' ->
          match sample_weight with
          | Some w => length w = np.len y'
          | None => True
          end ->
          validation.validate_parameters o = Some e ->
          fit fuel LogisticRegression X y sample_weight s = Raise e s).
Proof.
  intros fuel LR X y sw o s. split; [|split; [|split]].
  - intros e s' Hrun.
    pose proof (fit_outcomes fuel LR X y sw o
                  (fun y' s1 => skeleton (self s1)
                                = skeleton (self (started o y')))
                  (fun y' => eq_refl)
                  (fun y' n => skeleton_build _ fuel X y' n)
                  (fun y' n => skeleton_train _ fuel LR X y' n)) as H.
    unfold post in H. fold s in H. rewrite Hrun in H.
    destruct H as [H|(y' & Hy & Hk)]; [left; exact H|].
    right. exists y'. split; [exact Hy|]. split; [exact Hk|].
    apply (f_equal graph_) in Hk. cbn in Hk.
    destruct (graph_ (self s')); [eauto | discriminate].
  - intros l Hraw -> Hlen. unfold fit, validate_X_y.
    rewrite !bind_unfold. cbn [get_self s self]. rewrite Hraw.
    destruct (Nat.eqb (np.len y) 0); [reflexivity|].
    replace (Nat.eqb (length l) (np.len y)) with false
      by (symmetry; apply Nat.eqb_neq; exact Hlen).
    reflexivity.
  - intros y' w Hy -> Hlen. unfold fit.
    rewrite (bind_ok _ _ _ _ _
               (preserves_all_returned _ _ _
                  (fun P => preserves_validate_X_y P X y) Hy)).
    rewrite !bind_unfold.
    replace (Nat.eqb (length w) (np.len y')) with false
      by (symmetry; apply Nat.eqb_neq; exact Hlen).
    reflexivity.
  - intros y' e Hy Hw Hv. unfold fit.
    rewrite (bind_ok _ _ _ _ _
               (preserves_all_returned _ _ _
                  (fun P => preserves_validate_X_y P X y) Hy)).
    rewrite bind_unfold.
    assert (Hsw : match sw with
                  | Some w => if Nat.eqb (length w) (np.len y') then mret tt
                              else raise ValueError
                  | None => mret tt
                  end s = Ok tt s).
    { destruct sw as [w|]; [|reflexivity]. rewrite Hw, Nat.eqb_refl.
      reflexivity. }
    rewrite Hsw. unfold _check_parameters.
    rewrite !bind_unfold. cbn [get_self s self]. rewrite Hv. reflexivity.
Qed.

Lemma raised_state_after {A} (m : M A) s e :
  raised (m s) = Some e -> m s = Raise e (state_after m s).
Proof.
  unfold raised, state_after. destruct (m s); try discriminate.
  intros [= ->]. reflexivity.
Qed.

Lemma fit_raises_in_four_runs :
  (let s := {| self := Accumulate.unfitted; logged := [] |} in
   let s' := state_after
               (fit 3 failing_estimator Accumulate.X Accumulate.y None) s in
   s' = s
   \/ exists y',
        returned (validate_X_y Accumulate.X Accumulate.y s) = Some y'
        /\ skeleton (self s') = skeleton (self (started Accumulate.unfitted y'))
        /\ is_Some (graph_ (self s')))
  /\ fit 3 uniform_estimator (FRaw ["first text"]) RawDag.y None
         {| self := RawDag.unfitted; logged := [] |}
     = Raise ValueError {| self := RawDag.unfitted; logged := [] |}
  /\ fit 3 uniform_estimator Accumulate.X Accumulate.y (Some [1%float])
         {| self := Accumulate.unfitted; logged := [] |}
     = Raise ValueError {| self := Accumulate.unfitted; logged := [] |}
  /\ fit 3 uniform_estimator Accumulate.X Accumulate.y None
         {| self := with_training_strategy "balanced" Accumulate.unfitted;
            logged := [] |}
     = Raise ValueError
         {| self := with_training_strategy "balanced" Accumulate.unfitted;
            logged := [] |}.
Proof.
  split; [|split; [|split]].
  - cbn zeta.
    destruct (fit_raises_untouched_or_started 3 failing_estimator Accumulate.X
                Accumulate.y None Accumulate.unfitted) as [H _].
    apply (H ValueError).
    apply (raised_state_after
             (fit 3 failing_estimator Accumulate.X Accumulate.y None)).
    vm_compute. reflexivity.
  - destruct (fit_raises_untouched_or_started 3 uniform_estimator
                (FRaw ["first text"]) RawDag.y None RawDag.unfitted)
      as (_ & H & _).
    apply (H ["first text"]); [reflexivity | reflexivity |].
    vm_compute. lia.
  - destruct (fit_raises_untouched_or_started 3 uniform_estimator Accumulate.X
                Accumulate.y (Some [1%float]) Accumulate.unfitted)
      as (_ & _ & H & _).
    apply (H Accumulate.y [1%float]); [vm_compute; reflexivity | reflexivity |].
    vm_compute. lia.
  - destruct (fit_raises_untouched_or_started 3 uniform_estimator Accumulate.X
                Accumulate.y None
                (with_training_strategy "balanced" Accumulate.unfitted))
      as (_ & _ & _ & H).
    apply (H Accumulate.y ValueError);
      [vm_compute; reflexivity | exact I | reflexivity].
Defined.

(** * Further properties: the walk with early termination *)

Section Until.
Variables (s : state) (x : example) (t : float).
Hypothesis Hnone : mlb (self s) = None.
Hypothesis Hdepth : String.eqb (prediction_depth (self s)) "nmlnp" = true.
Hypothesis Hcrit : stopping_criteria (self s) = SCFloat t.

Lemma should_early_terminate_float cur k sc :
  _should_early_terminate cur k (SFloat sc) s
  = if stops s t cur sc
    then Ok true (log_more s [Debug_terminating (SFloat sc) t cur])
    else Ok false s.
Proof.
  unfold _should_early_terminate, stops, get_self.
  rewrite bind_unfold. cbn. rewrite Hdepth, Hcrit. cbn.
  rewrite bind_unfold. cbn.
  destruct (PrimFloat.ltb sc t); cbn; [|reflexivity].
  destruct (decide (cur = root (self s))) as [->|Hn].
  - rewrite bool_decide_eq_true_2 by reflexivity. reflexivity.
  - rewrite bool_decide_eq_false_2 by exact Hn. reflexivity.
Qed.

(** One turn of the [while clf:] loop, up to the test for early
    termination. *)
Lemma while_clf_scored f clf k sc path cur cp pred :
  chooses_with s x clf k sc ->
  last path = Some cur ->
  length cp = length (classes_ (self s)) ->
  exists v,
    length v = length cp
    /\ while_clf (S f) x clf path cp pred s
       = (stop ← _should_early_terminate cur k (SFloat sc);
          if (stop : bool) then mret (path, v)
          else
            a ← nodes_getitem k;
            match attr_CLASSIFIER a with
            | Some clf' => while_clf f x clf' (path ++ [k]) v (Some k)
            | None => mret (path ++ [k], v)
            end) s.
Proof.
  intros (c & p & argmax & Hc & Hscore & Hlen & Hsub & Hk) Hlast Hcp.
  destruct (scatter_loop_runs s Hnone p argmax path (sklearn.classes_ c) 0
              {| class_proba := cp;
                 prediction := match sklearn.classes_ c with
                               | [only] => Some only
                               | _ => pred
                               end;
                 predictions := [] |}
              ltac:(cbn; lia) Hcp Hsub)
    as (v & Hrun & Hl & _ & Hpred).
  cbn [class_proba prediction] in Hl, Hpred.
  rewrite bool_decide_eq_true_2 in Hpred
    by (apply lookup_lt_Some in Hk; lia).
  rewrite Nat.sub_0_r, Hk in Hpred.
  exists (class_proba v). split; [exact Hl|].
  rewrite while_clf_unfold.
  rewrite (bind_ok _ _ _ _ _ (score_example_returned _ _ _ _ Hscore)).
  rewrite Hc. rewrite bind_unfold. cbn [from_option mret M_ret]. cbv zeta.
  unfold enumerate. rewrite (bind_ok _ _ _ _ _ Hrun).
  rewrite bind_unfold. cbn [get_self]. rewrite Hnone, Hlast, Hpred.
  rewrite bind_unfold. cbn [from_option mret M_ret].
  rewrite bind_unfold. cbn [from_option mret M_ret].
  reflexivity.
Qed.

Lemma while_clf_descends_until cur clf rest rs :
  descends_until s x t cur clf rest rs ->
  forall fuel path cp pred,
    (length rest < fuel)%nat ->
    last path = Some cur ->
    length cp = length (classes_ (self s)) ->
    exists v,
      while_clf fuel x clf path cp pred s
      = Ok (path ++ rest, v) (log_more s rs)
      /\ length v = length cp.
Proof.
  induction 1 as [cur clf k sc Hch Hstop
                 |cur clf k sc a Hch Hstop Ha Hc
                 |cur clf k sc clf' rest rs Hch Hstop Hclf' Hdesc IH];
    intros fuel path cp pred Hfuel Hlast Hcp;
    (destruct fuel as [|fuel]; [cbn in Hfuel; lia|]);
    destruct (while_clf_scored fuel clf k sc path cur cp pred Hch Hlast Hcp)
      as (v & Hl & ->);
    rewrite bind_unfold, should_early_terminate_float, Hstop.
  - exists v. rewrite app_nil_r. split; [reflexivity | exact Hl].
  - rewrite (bind_ok _ _ _ _ _ (run_nodes_getitem s k a Ha)), Hc.
    exists v. unfold log_more. rewrite app_nil_r. destruct s.
    split; [reflexivity | exact Hl].
  - unfold classifier_of in Hclf'.
    destruct (attrs_of s k) as [a|] eqn:Ha; [|discriminate]. cbn in Hclf'.
    rewrite (bind_ok _ _ _ _ _ (run_nodes_getitem s k a Ha)), Hclf'.
    destruct (IH fuel (path ++ [k]) v (Some k)) as (v' & Hrun & Hl').
    + cbn in Hfuel. lia.
    + apply last_snoc.
    + congruence.
    + exists v'. rewrite Hrun, <- app_assoc. split; [reflexivity | congruence].
Qed.

End Until.

(** X10.  The single-label walk with [prediction_depth="nmlnp"] and a
    float [stopping_criteria].  The walk goes down along the classes the
    node classifiers choose, as long as the score of the chosen class is
    not below the criterion or the current node is the root; it ends at the
    first node, other than the root, whose classifier scores its chosen
    class below the criterion, and then the path ends with that node and
    one debug line is logged; or it ends, as without early termination, with
    the first chosen node that carries no classifier, and nothing is
    logged.  In both cases the object is unchanged and the vector has one
    score for each class of [classes_]. *)
Theorem walk_stops_below_the_criterion :
  forall (fuel : nat) (x : example) (n : node) (s : state) (t : float)
         (clf : sklearn.clf_obj) (rest : list node) (rs : list log_record),
    mlb (self s) = None ->
    String.eqb (prediction_depth (self s)) "nmlnp" = true ->
    stopping_criteria (self s) = SCFloat t ->
    classifier_of s n = Some clf ->
    descends_until s x t n clf rest rs ->
    (length rest < fuel)%nat ->
    exists v,
      _recursive_predict (S fuel) x n s
      = Ok (Some (n :: rest), Some v) (log_more s rs)
      /\ length v = length (classes_ (self s)).
Proof.
  intros fuel x n s t clf rest rs Hnone Hdepth Hcrit Hclf Hdesc Hfuel.
  unfold classifier_of in Hclf.
  destruct (attrs_of s n) as [a|] eqn:Ha; [|discriminate]. cbn in Hclf.
  destruct (while_clf_descends_until s x t Hnone Hdepth Hcrit n clf rest rs
              Hdesc fuel [n] (np.zeros_like (classes_ (self s))) None
              Hfuel eq_refl)
    as (v & Hrun & Hl).
  { unfold np.zeros_like. apply length_map. }
  exists v. rewrite recursive_predict_unfold.
  rewrite (bind_ok _ _ _ _ _ (run_nodes_getitem s n a Ha)), Hclf.
  rewrite bind_unfold. cbn [get_self]. rewrite bind_unfold, Hrun.
  split; [reflexivity|]. rewrite Hl. unfold np.zeros_like. apply length_map.
Qed.

Lemma walk_stops_in_the_stopping_model :
  exists v,
    _recursive_predict 3 Stopping.x Stopping.ROOT Stopping.non_mandatory
    = Ok (Some [Stopping.ROOT; NStr "C"], Some v)
         (log_more Stopping.non_mandatory
            [Debug_terminating (SFloat 0.5) 0.99 (NStr "C")])
    /\ length v = length (classes_ (self Stopping.non_mandatory)).
Proof.
  assert (Hsub : forall l : list node,
             forallb (fun k => bool_decide
                                 (k ∈ classes_ (self Stopping.non_mandatory)))
                     l = true ->
             forall k', k' ∈ l -> k' ∈ classes_ (self Stopping.non_mandatory)).
  { intros l Hl k' Hk'. rewrite forallb_forall in Hl.
    apply (bool_decide_eq_true_1 _). apply Hl.
    apply list_elem_of_In. exact Hk'. }
  apply (walk_stops_below_the_criterion 2 Stopping.x Stopping.ROOT
           Stopping.non_mandatory 0.99%float
           (fitted_obj (constant_scores [NStr "C"; NStr "F"] [0.9; 0.1]%float))
           [NStr "C"] [Debug_terminating (SFloat 0.5) 0.99 (NStr "C")]).
  - reflexivity.
  - reflexivity.
  - reflexivity.
  - vm_compute. reflexivity.
  - apply until_step
      with (sc := 0.9%float)
           (clf' := fitted_obj
                      (constant_scores [NStr "D"; NStr "E"] [0.5; 0.5]%float)).
    + exists (constant_scores [NStr "C"; NStr "F"] [0.9; 0.1]%float),
        [0.9; 0.1]%float, 0%nat.
      split; [reflexivity|]. split; [vm_compute; reflexivity|].
      split; [reflexivity|]. split; [|reflexivity].
      apply Hsub. vm_compute. reflexivity.
    + vm_compute. reflexivity.
    + vm_compute. reflexivity.
    + apply until_stop with (k := NStr "D").
      * exists (constant_scores [NStr "D"; NStr "E"] [0.5; 0.5]%float),
          [0.5; 0.5]%float, 0%nat.
        split; [reflexivity|]. split; [vm_compute; reflexivity|].
        split; [reflexivity|]. split; [|reflexivity].
        apply Hsub. vm_compute. reflexivity.
      * vm_compute. reflexivity.
  - cbn. lia.
Defined.

(** * Further properties: multi-label mode and [predict_proba] scores *)

Lemma scatter_turn_flat s b p argmax path v i k :
  mlb (self s) = Some b ->
  scatter_class (Arr1 p) argmax path v (i, k) s = Raise IndexError s.
Proof.
  intros Hmlb. unfold scatter_class, index2. run_m. rewrite Hmlb. reflexivity.
Qed.

(** X11.  With a multi-label binarizer the scatter loop reads the scores
    as [probs[0, i]], a two-dimensional array.  (1) Without
    [use_decision_function], or for a classifier that has no
    [decision_function], the scores are the row [clf.predict_proba(x)[0]],
    one-dimensional.  (2) Whenever the scores at a node are one-dimensional
    and the node's classifier has a class, the walk in multi-label mode
    raises IndexError at the first class, the object and the log
    untouched. *)
Theorem multilabel_walk_needs_two_dimensional_scores :
  (forall (clf : sklearn.clf_obj) (c : sklearn.classifier) (x : example)
          (s s' : state) (probs : ndarray) (argmax : nat) (score : pyscore),
     sklearn.fitted clf = Some c ->
     use_decision_function (self s) = false
     \/ sklearn.decision_function c = None ->
     score_example clf x s = Ok (probs, argmax, score) s' ->
     exists row, head (sklearn.predict_proba c x) = Some row
                 /\ probs = Arr1 row)
  /\ (forall (fuel : nat) (x : example) (n : node) (s : state)
             (b : preprocessing.MultiLabelBinarizer)
             (clf : sklearn.clf_obj) (c : sklearn.classifier)
             (p : list float) (argmax : nat) (score : pyscore),
        mlb (self s) = Some b ->
        classifier_of s n = Some clf ->
        sklearn.fitted clf = Some c ->
        returned (score_example clf x s) = Some (Arr1 p, argmax, score) ->
        sklearn.classes_ c <> [] ->
        _recursive_predict (S (S fuel)) x n s = Raise IndexError s).
Proof.
  split.
  - intros clf c x s s' probs argmax score Hc Hdf Hrun.
    unfold score_example in Hrun. rewrite bind_unfold in Hrun.
    cbn [get_self] in Hrun. rewrite Hc in Hrun.
    rewrite bind_unfold in Hrun. cbn [from_option mret M_ret] in Hrun.
    assert (Hbranch :
              (row ← from_option IndexError (head (sklearn.predict_proba c x));
               let probs := Arr1 row in
               argmax ← from_option ValueError (np.argmax probs);
               score ← index1 probs argmax;
               mret (probs, argmax, score)) s
              = Ok (probs, argmax, score) s').
    { destruct Hdf as [Hdf|Hdf]; rewrite Hdf in Hrun;
        [|destruct (use_decision_function (self s))]; exact Hrun. }
    clear Hrun. apply bind_ok_inv in Hbranch as (row & s1 & Hrow & Hrest).
    cbv zeta in Hrest.
    apply bind_ok_inv in Hrest as (am & s2 & _ & Hrest).
    apply bind_ok_inv in Hrest as (sc & s3 & _ & Hrest).
    injection Hrest as <- _ _ _. exists row. split; [|reflexivity].
    destruct (head (sklearn.predict_proba c x)); [|discriminate].
    injection Hrow as -> _. reflexivity.
  - intros fuel x n s b clf c p argmax score Hmlb Hclf Hc Hscore Hcls.
    unfold classifier_of in Hclf.
    destruct (attrs_of s n) as [a|] eqn:Ha; [|discriminate]. cbn in Hclf.
    rewrite recursive_predict_unfold.
    rewrite (bind_ok _ _ _ _ _ (run_nodes_getitem s n a Ha)), Hclf.
    rewrite bind_unfold. cbn [get_self]. rewrite bind_unfold.
    rewrite while_clf_unfold.
    rewrite (bind_ok _ _ _ _ _ (score_example_returned _ _ _ _ Hscore)).
    rewrite Hc. rewrite bind_unfold. cbn [from_option mret M_ret]. cbv zeta.
    destruct (sklearn.classes_ c) as [|k ks] eqn:Hks; [contradiction|].
    unfold enumerate. cbn [length seq zip zip_with for_each].
    rewrite !bind_unfold.
    rewrite (scatter_turn_flat s b _ _ _ _ _ _ Hmlb). reflexivity.
Qed.

Lemma multilabel_walk_on_probabilities :
  let s := fitted_model
             (with_multilabel Fanout.binarizer 0.3 (__init__ Fanout.ROOT))
             Fanout.hierarchy
             [(Fanout.ROOT, constant_scores [NInt 0; NInt 2] [0.4; 0.1]%float)] in
  (exists row,
     head (sklearn.predict_proba
             (constant_scores [NInt 0; NInt 2] [0.4; 0.1]%float) Fanout.x)
     = Some row
     /\ Arr1 [0.4; 0.1]%float = Arr1 row)
  /\ _recursive_predict 2 Fanout.x Fanout.ROOT s = Raise IndexError s.
Proof.
  cbn zeta. destruct multilabel_walk_needs_two_dimensional_scores as [H1 H2].
  split.
  - apply (H1 (fitted_obj (constant_scores [NInt 0; NInt 2] [0.4; 0.1]%float))
              (constant_scores [NInt 0; NInt 2] [0.4; 0.1]%float) Fanout.x
              Fanout.fitted Fanout.fitted (Arr1 [0.4; 0.1]%float) 0%nat
              (SFloat 0.4)).
    + reflexivity.
    + right. reflexivity.
    + vm_compute. reflexivity.
  - apply (H2 0%nat Fanout.x Fanout.ROOT _ Fanout.binarizer
              (fitted_obj (constant_scores [NInt 0; NInt 2] [0.4; 0.1]%float))
              (constant_scores [NInt 0; NInt 2] [0.4; 0.1]%float)
              [0.4; 0.1]%float 0%nat (SFloat 0.4)).
    + reflexivity.
    + vm_compute. reflexivity.
    + reflexivity.
    + vm_compute. reflexivity.
    + discriminate.
Defined.

(** * Further properties: [fit] in raw mode *)

Lemma no_features_log_blind : log_blind no_features.
Proof. intros s r Hs. exact Hs. Qed.

Lemma no_features_set_CLASSIFIER n clf :
  preserves no_features (nodes_update n (set_CLASSIFIER clf)).
Proof.
  intros s Hs. apply post_nodes_update; [|intros; exact Hs].
  intros s' a Ha _ Hset Hother _ m b Hm.
  destruct (decide (m = n)) as [->|Hne].
  - rewrite Hset in Hm. injection Hm as <-. apply (Hs n a Ha).
  - rewrite (Hother m Hne) in Hm. apply (Hs m b Hm).
Qed.

Lemma no_features_set_estimator n clf :
  preserves no_features (set_estimator n clf).
Proof. intros s Hs. exact Hs. Qed.

Lemma no_features_logger r : preserves no_features (logger r).
Proof. apply preserves_logger, no_features_log_blind. Qed.

#[local] Hint Resolve no_features_set_CLASSIFIER no_features_set_estimator
  no_features_logger preserves_first_target preserves_clf_fit
  preserves_base_estimator_for : preserves.

Lemma no_features_train fuel LR X y :
  forall n, preserves no_features
              (_recursive_train_local_classifiers fuel LR X y n).
Proof.
  induction fuel as [|fuel IH]; intros n; [intros s Hs; exact I|].
  cbn [_recursive_train_local_classifiers]. unfold _train_local_classifier.
  preserves_tac.
Qed.

(** X16.  In raw mode [fit] builds no features.  (1) The training pass
    writes no "X" and no METAFEATURES attribute: a graph whose nodes have
    neither keeps that property.  (2) With a [feature_extraction] other
    than "preprocessed", after a [fit] that returns no node of the graph
    has an "X" or a METAFEATURES attribute, and the builder has announced
    nothing: the only attribute a node may carry is CLASSIFIER. *)
Theorem raw_fit_builds_no_features :
  (forall (fuel : nat) (LogisticRegression : sklearn.estimator)
          (X : features) (y : labels) (n : node) (s : state),
     no_features s ->
     no_features
       (state_after
          (_recursive_train_local_classifiers fuel LogisticRegression X y n) s))
  /\ (forall (fuel : nat) (LogisticRegression : sklearn.estimator)
             (X : features) (y : labels) (sample_weight : option (list float))
             (o : HierarchicalClassifier) (s' : state),
        String.eqb (feature_extraction o) "preprocessed" = false ->
        fit fuel LogisticRegression X y sample_weight
            {| self := o; logged := [] |} = Ok tt s' ->
        no_features s' /\ built_nodes (logged s') = []).
Proof.
  split.
  - intros fuel LR X y n s Hs.
    pose proof (no_features_train fuel LR X y n s Hs) as H.
    unfold post in H. unfold state_after.
    destruct (_recursive_train_local_classifiers fuel LR X y n s);
      [exact H | exact H | exact Hs].
  - intros fuel LR X y sw o s' Hmode Hrun.
    pose proof (fit_passes fuel LR X y sw o
                  (fun _ s1 => no_features s1 /\ built_nodes (logged s1) = []))
      as H.
    unfold post in H. rewrite Hrun in H.
    destruct H as (y' & _ & Hs'); [|exact Hs'].
    intros y' _. rewrite Hmode. apply post_bind, post_ret.
    assert (Hp : preserves
                   (fun s1 => no_features s1 /\ built_nodes (logged s1) = [])
                   (_recursive_train_local_classifiers fuel LR X y' (root o))).
    { apply preserves_and; [apply no_features_train|].
      intros s1 Hs1.
      eapply post_weaken with
        (Q := fun _ s2 => same_caches s1 s2)
        (R := fun _ s2 => same_caches s1 s2).
      - apply (same_caches_recursive_train s1 fuel LR X y' (root o) s1).
        apply same_caches_refl.
      - intros u s2 [_ Hl]. rewrite Hl. exact Hs1.
      - intros e s2 [_ Hl]. rewrite Hl. exact Hs1. }
    eapply post_weaken; [apply (Hp (started o y')) | | auto].
    + split; [|reflexivity]. intros n a Ha.
      unfold attrs_of, started in Ha. cbn in Ha.
      apply bare_from_dict in Ha. subst a. split; reflexivity.
    + intros u s2 H2. exact H2.
Qed.

Lemma raw_fit_builds_no_features_in_the_dag :
  no_features RawDag.after_fit
  /\ built_nodes (logged RawDag.after_fit) = []
  /\ no_features
       (state_after
          (_recursive_train_local_classifiers 5 uniform_estimator RawDag.X
             RawDag.y RawDag.ROOT) RawDag.after_fit).
Proof.
  destruct raw_fit_builds_no_features as [H1 H2].
  assert (H : no_features RawDag.after_fit
              /\ built_nodes (logged RawDag.after_fit) = []).
  { apply (H2 5%nat uniform_estimator RawDag.X RawDag.y None RawDag.unfitted).
    - reflexivity.
    - unfold RawDag.after_fit. apply returned_state_after.
      vm_compute. reflexivity. }
  destruct H as [Ha Hb]. split; [exact Ha|]. split; [exact Hb|].
  apply H1, Ha.
Defined.

(** * Further properties: [estimators_] across calls of [fit] *)

Section EstimatorsGrown.
Variable e0 : gmap node sklearn.clf_obj.

Let P : state -> Prop := estimators_grown e0.

(** [P], at a moment when [n] is known to be a node of the graph. *)
Let K (n : node) (s : state) : Prop := P s /\ is_Some (succ_of s n).

Lemma estimators_grown_log_blind : log_blind P.
Proof. intros s r Hs. exact Hs. Qed.

Lemma estimators_grown_nodes_update n f : preserves P (nodes_update n f).
Proof.
  intros s Hs. apply post_nodes_update_state; [|intros; exact Hs].
  intros a g Hg Ha. destruct Hs as [H1 H2]. split; cbn.
  - exact H1.
  - intros m Hm. destruct (H2 m Hm) as [H|H]; [left; exact H|].
    right. unfold succ_of in *. cbn. rewrite Hg in H. exact H.
Qed.

Lemma estimators_grown_logger r : preserves P (logger r).
Proof. apply preserves_logger, estimators_grown_log_blind. Qed.

Hint Resolve estimators_grown_nodes_update estimators_grown_logger
  preserves_first_target preserves_clf_fit preserves_base_estimator_for
  : preserves.

Lemma estimators_grown_build fuel X y :
  forall n, preserves P (_recursive_build_features fuel X y n).
Proof.
  induction fuel as [|fuel IH]; intros n; [intros s Hs; exact I|].
  cbn [_recursive_build_features]. unfold accumulate_child.
  preserves_tac.
Qed.

Lemma known_node_log_blind n : log_blind (K n).
Proof. intros s r Hs. exact Hs. Qed.

Lemma known_node_nodes_update n m f : preserves (K n) (nodes_update m f).
Proof.
  intros s [Hs Hn]. apply post_nodes_update_state; [|intros; split; assumption].
  intros a g Hg Ha. split.
  - pose proof (estimators_grown_nodes_update m f s Hs) as H.
    unfold post in H. rewrite (run_nodes_update s m a g f Hg Ha) in H. exact H.
  - unfold succ_of in *. cbn. rewrite Hg in Hn. exact Hn.
Qed.

Lemma known_node_set_estimator n clf : preserves (K n) (set_estimator n clf).
Proof.
  intros s [[H1 H2] Hn].
  unfold post, set_estimator, get_self, put_self. rewrite bind_unfold. cbn.
  split; [split|]; cbn.
  - intros m Hm. destruct (decide (n = m)) as [->|Hne].
    + rewrite lookup_insert_eq. eauto.
    + rewrite lookup_insert_ne by exact Hne. apply H1, Hm.
  - intros m Hm. destruct (decide (n = m)) as [->|Hne].
    + right. exact Hn.
    + rewrite lookup_insert_ne in Hm by exact Hne. apply H2, Hm.
  - exact Hn.
Qed.

Lemma known_node_logger n r : preserves (K n) (logger r).
Proof. apply preserves_logger, known_node_log_blind. Qed.

Lemma estimators_grown_train_local LR X y n :
  preserves P (_train_local_classifier LR X y n).
Proof.
  intros s Hs. unfold _train_local_classifier.
  quiet_bind; [|exact Hs].
  match goal with H : returned (out_degree _ _) = Some _ |- _ =>
    apply out_degree_returned in H as (cs & Hcs & _) end.
  assert (Hrest : forall A (m : M A),
             preserves (K n) m -> post m s (fun _ => P) (fun _ => P)).
  { intros A m Hm.
    eapply post_weaken; [apply (Hm s); split; [exact Hs | rewrite Hcs; eauto]
                        | intros ? ? [Hp ?]; exact Hp
                        | intros ? ? [Hp ?]; exact Hp]. }
  apply Hrest.
  pose proof (known_node_nodes_update n n).
  pose proof (known_node_set_estimator n).
  pose proof (known_node_logger n).
  preserves_tac.
Qed.

Lemma estimators_grown_train fuel LR X y :
  forall n, preserves P (_recursive_train_local_classifiers fuel LR X y n).
Proof.
  induction fuel as [|fuel IH]; intros n; [intros s Hs; exact I|].
  cbn [_recursive_train_local_classifiers].
  pose proof (estimators_grown_train_local LR X y n).
  preserves_tac.
Qed.

End EstimatorsGrown.

(** X17.  [fit] does not reset [estimators_].  After a [fit] that returns,
    whatever the data and the base estimator, every node that had an entry
    in [estimators_] before the call still has one (from this fit when the
    node was trained again, from an earlier fit otherwise), and every other
    entry is for a node of the graph of this fit. *)
Theorem fit_keeps_earlier_estimators :
  forall (fuel : nat) (LogisticRegression : sklearn.estimator)
         (X : features) (y : labels) (sample_weight : option (list float))
         (o : HierarchicalClassifier) (s' : state),
    fit fuel LogisticRegression X y sample_weight {| self := o; logged := [] |}
    = Ok tt s' ->
    (forall n, is_Some (estimators_ o !! n) ->
               is_Some (estimators_ (self s') !! n))
    /\ (forall n, is_Some (estimators_ (self s') !! n) ->
                  is_Some (estimators_ o !! n) \/ is_Some (succ_of s' n)).
Proof.
  intros fuel LR X y sw o s' Hrun.
  assert (Hstart : forall y' : labels,
             estimators_grown (estimators_ o) (started o y'))
    by (intros y'; split; cbn; auto).
  destruct (post_true _ _ _
              (fit_preserves fuel LR X y sw o
                 (fun _ => estimators_grown (estimators_ o)) Hstart
                 (fun y' n => estimators_grown_build _ fuel X y' n)
                 (fun y' n => estimators_grown_train _ fuel LR X y' n))
              tt s' Hrun) as (y' & _ & H).
  exact H.
Qed.

Lemma fit_keeps_an_earlier_estimator :
  let s' := state_after (fit 3 uniform_estimator Accumulate.X Accumulate.y None)
                        {| self := Refit.fitted_before; logged := [] |} in
  is_Some (estimators_ (self s') !! NStr "old")
  /\ succ_of s' (NStr "old") = None
  /\ is_Some (estimators_ (self s') !! Accumulate.ROOT).
Proof.
  cbn zeta.
  destruct (fit_keeps_earlier_estimators 3 uniform_estimator Accumulate.X
              Accumulate.y None Refit.fitted_before
              (state_after (fit 3 uniform_estimator Accumulate.X Accumulate.y
                              None)
                 {| self := Refit.fitted_before; logged := [] |}))
    as [H1 H2].
  - apply returned_state_after. vm_compute. reflexivity.
  - split; [apply H1; vm_compute; eauto|].
    split; [vm_compute; reflexivity|].
    vm_compute. eauto.
Defined.
